(** * SmartCamera: pose geometry, scoring and the skeleton editor

    A shallow embedding of the TypeScript sources
    [src/utils/mathUtils.ts], [src/utils/geometryUtils.ts],
    [src/services/orthopedicService.ts] (both revisions present in the
    repository) and the pointer handler of
    [src/components/organisms/EditorCanvas.tsx].

    Number model.  The code computes on IEEE binary64 numbers.  Where a
    statement depends on how a result is rounded, the function is embedded
    on the binary64 numbers of Rocq (module [Binary64]: primitive floats,
    whose operations and comparisons are those of the code, NaN,
    infinities and signed zeros included).  Elsewhere a JavaScript
    [number] is read as a real number: the arithmetic operators are the
    field operations of [R], the comparisons are the order of [R], and the
    [Math] built-ins are their mathematical counterparts ([Math.atan2] is
    the two-argument arctangent with values in (-PI, PI], [Math.round]
    rounds to the nearest integer with ties going up).  The statements
    proved over [R] are about which branch is taken, which elements a loop
    visits and what a graph contains; rounding error, NaN and infinities
    are outside that reading, and a division by zero, which the code
    answers with an infinity or NaN, is written out where the code can meet
    one. *)

From Stdlib Require Import Reals Lra Lia ZArith Ascii String List.
From Stdlib Require Floats.
From stdpp Require Import base decidable option list strings gmap.

Open Scope R_scope.

(** ** JavaScript built-ins *)

Module JS.

#[global] Instance Rlt_decision : RelDecision Rlt := Rlt_dec.
#[global] Instance Rle_decision : RelDecision Rle := Rle_dec.
#[global] Instance Rgt_decision : RelDecision Rgt := Rgt_dec.
#[global] Instance Rge_decision : RelDecision Rge := Rge_dec.
#[global] Instance Req_decision : EqDecision R := Req_dec_T.

(** [Math.round(x)]: the integer nearest to [x], a tie going towards
    plus infinity, that is [floor (x + 1/2)]. *)
Definition Math_round (x : R) : R := IZR (Int_part (x + / 2)).

(** [Math.atan2(y, x)]: the angle of the point [(x, y)], in (-PI, PI];
    [Math.atan2(0, 0)] is [0]. *)
Definition Math_atan2 (y x : R) : R :=
  if decide (0 < x) then atan (y / x)
  else if decide (x < 0) then
    (if decide (0 <= y) then atan (y / x) + PI else atan (y / x) - PI)
  else if decide (0 < y) then PI / 2
  else if decide (y < 0) then - (PI / 2)
  else 0.

(** Truthiness of a [string | null] value: [null] and the empty string are
    falsy.  [truthy v] is the string seen by a test [if (v)]. *)
Definition truthy (v : option string) : option string :=
  match v with
  | Some s => if decide (s = EmptyString) then None else Some s
  | None => None
  end.

(** [s.startsWith('-')] together with [s.slice(1)]. *)
Definition strip_minus (s : string) : option string :=
  match s with
  | String c rest => if decide (c = "-"%char) then Some rest else None
  | EmptyString => None
  end.

End JS.
Import JS.

(** ** types.ts

    Every interface is a record in a module of its own name, so that the
    fields keep the names they have in the source ([Point.x], [EditorAngle.center]). *)

Module Point.
Record t := mk { x : R; y : R }.
End Point.
Abbreviation Point := Point.t.

(** [SkeletonData] and [Record<string, Point>]: objects keyed by keypoint
    name. *)
Abbreviation SkeletonData := (gmap string Point).

Module BoundingBox.
Record t := mk { ymin : R; xmin : R; ymax : R; xmax : R }.
End BoundingBox.
Abbreviation BoundingBox := BoundingBox.t.

Module AIAnalysisResult.
Record t := mk {
  skeleton : gmap string Point;
  faceBox : option BoundingBox;
  confidence : R
}.
End AIAnalysisResult.
Abbreviation AIAnalysisResult := AIAnalysisResult.t.

Inductive WarningLevel := low | medium | high.

Module HealthWarning.
Record t := mk { level : WarningLevel; message : string; futureRisk : string }.
End HealthWarning.
Abbreviation HealthWarning := HealthWarning.t.

Module HealthReport.
Record t := mk {
  score : R;
  title : string;
  description : string;
  details : list string;
  warnings : list HealthWarning
}.
End HealthReport.
Abbreviation HealthReport := HealthReport.t.

(** An argument of the translator: [string | number]. *)
Inductive TArg := TStr (s : string) | TNum (n : R).

(** [Translator = (key, ...args) => string]. *)
Definition Translator := string -> list TArg -> string.

Inductive EditorTool := MOVE | ADD_POINT | CONNECT | ANGLE | DELETE.

Module EditorPoint.
Record t := mk { id : string; x : R; y : R }.
End EditorPoint.
Abbreviation EditorPoint := EditorPoint.t.

Module EditorConnection.
Record t := mk { id : string; from : string; to : string }.
End EditorConnection.
Abbreviation EditorConnection := EditorConnection.t.

Module EditorAngle.
Record t := mk { id : string; p1 : string; center : string; p2 : string }.
End EditorAngle.
Abbreviation EditorAngle := EditorAngle.t.

Module EditorData.
Record t := mk {
  points : list EditorPoint;
  connections : list EditorConnection;
  angles : list EditorAngle
}.
End EditorData.
Abbreviation EditorData := EditorData.t.

Module EditorLayout.
Record t := mk { renderW : R; renderH : R; offsetX : R; offsetY : R }.
End EditorLayout.
Abbreviation EditorLayout := EditorLayout.t.

(** ** utils/mathUtils.ts *)

Module MathUtils.

Record JointDef := mkJointDef { kp1 : string; kp2 : string }.

Definition JOINT_DICT : gmap string JointDef :=
  list_to_map
    [ ("leftBiceps", mkJointDef "leftShoulder" "leftElbow");
      ("rightBiceps", mkJointDef "rightShoulder" "rightElbow");
      ("leftForarm", mkJointDef "leftElbow" "leftWrist");
      ("rightForarm", mkJointDef "rightElbow" "rightWrist");
      ("leftThigh", mkJointDef "leftHip" "leftKnee");
      ("rightThigh", mkJointDef "rightHip" "rightKnee");
      ("leftTibia", mkJointDef "leftKnee" "leftAnkle");
      ("rightTibia", mkJointDef "rightKnee" "rightAnkle");
      ("leftChest", mkJointDef "leftShoulder" "leftHip");
      ("rightChest", mkJointDef "rightShoulder" "rightHip");
      ("leftLeg", mkJointDef "leftHip" "leftAnkle");
      ("rightLeg", mkJointDef "rightHip" "rightAnkle");
      ("leftNeck", mkJointDef "manubrium" "leftEar");
      ("rightNeck", mkJointDef "manubrium" "rightEar");
      ("neck", mkJointDef "manubrium" "nose") ]%string.

Definition midpoint (a b : Point) : Point :=
  Point.mk ((a.(Point.x) + b.(Point.x)) / 2) ((a.(Point.y) + b.(Point.y)) / 2).

Definition buildEnrichedSkeleton (skeleton : gmap string Point)
  : gmap string Point :=
  let s := skeleton in
  let s :=
    match skeleton !! "leftShoulder"%string, skeleton !! "rightShoulder"%string with
    | Some l, Some r => <["manubrium"%string := midpoint l r]> s
    | _, _ => s
    end in
  match skeleton !! "leftHip"%string, skeleton !! "rightHip"%string with
  | Some l, Some r => <["pubis"%string := midpoint l r]> s
  | _, _ => s
  end.

Definition Vec2 : Type := R * R.

Definition resolveVector (jointName : string) (kps : gmap string Point)
  : option Vec2 :=
  if decide (jointName = "vertical"%string) then Some (0, 1)
  else if decide (jointName = "-vertical"%string) then Some (0, -1)
  else if decide (jointName = "horizontal"%string) then Some (1, 0)
  else if decide (jointName = "-horizontal"%string) then Some (-1, 0)
  else
    let '(invert, name) :=
      match strip_minus jointName with
      | Some rest => (true, rest)
      | None => (false, jointName)
      end in
    match JOINT_DICT !! name with
    | None => None
    | Some def =>
        match kps !! kp1 def, kps !! kp2 def with
        | Some p1, Some p2 =>
            Some (if invert
                  then (p1.(Point.x) - p2.(Point.x), p1.(Point.y) - p2.(Point.y))
                  else (p2.(Point.x) - p1.(Point.x), p2.(Point.y) - p1.(Point.y)))
        | _, _ => None
        end
    end.

Definition computeAngleVector (vec1 vec2 : Vec2) : R :=
  let ang :=
    Math_atan2 (vec1.1 * vec2.2 - vec1.2 * vec2.1)
               (vec1.1 * vec2.1 + vec1.2 * vec2.2) * (180 / PI) in
  if decide (ang < 0) then 360 + ang else ang.

Module AngleDef.
Record t := mk {
  center : string;
  joint1 : string;
  joint2 : string;
  min : R;
  max : R
}.
End AngleDef.
Abbreviation AngleDef := AngleDef.t.

Definition computeAngle (kps : gmap string Point) (def : AngleDef) : option R :=
  let v1 := resolveVector def.(AngleDef.joint1) kps in
  let v2 := resolveVector def.(AngleDef.joint2) kps in
  match v1, v2 with
  | Some v1, Some v2 => Some (computeAngleVector v2 v1)
  | _, _ => None
  end.

Definition getLinearScore (value : option R) (min max : R) : R :=
  match value with
  | None => 0
  | Some value =>
      let descending := bool_decide (min > max) in
      if descending then
        if decide (value <= max) then 100
        else if decide (value >= min) then 0
        else Math_round (((value - min) / (max - min)) * 100)
      else if decide (value <= 0) then 0
      else if decide (value >= max) then 100
      else Math_round ((value * 100) / max)
  end.

Definition getAverageScore (scores : list R) : R :=
  let valid := filter (fun s => s >= 0) scores in
  if decide (length valid = 0%nat) then 0
  else Math_round (fold_left (fun a b => a + b) valid 0 / INR (length valid)).

Definition fetchRank (score : R) : string :=
  if decide (score >= 90) then "A"
  else if decide (score >= 80) then "B"
  else if decide (score >= 70) then "C"
  else if decide (score >= 60) then "D"
  else if decide (score >= 50) then "E"
  else if decide (score >= 40) then "F"
  else if decide (score >= 30) then "G"
  else if decide (score >= 20) then "H"
  else if decide (score >= 10) then "I"
  else "J".

End MathUtils.

(** ** [getLinearScore] on binary64 numbers

    The same function of [src/utils/mathUtils.ts] with the numbers of the
    runtime: [-], [/], [*] and the comparisons are the IEEE operations, a
    comparison with NaN being false. *)

Module Binary64.
Import PrimFloat FloatOps SpecFloat.

Local Open Scope float_scope.

(** [Math.round(x)] on a binary64 number: NaN, the infinities, the zeros
    and the integers are returned as they are; otherwise [x] is
    [m * 2 ^ e] with [e < 0], up to its sign, and the result is the
    integer [floor (x + 1/2)], computed exactly, with the sign of [x] when
    it is zero. *)
Definition Math_round (x : float) : float :=
  match Prim2SF x with
  | S754_finite s m e =>
      if (0 <=? e)%Z then x
      else
        let d := (- e)%Z in
        let sm := if s then Z.neg m else Z.pos m in
        let n := ((2 * sm + 2 ^ d) / 2 ^ (d + 1))%Z in
        if (n =? 0)%Z then (if s then (-0) else 0)
        else if (n <? 0)%Z then - of_uint63 (Uint63.of_Z (- n))
        else of_uint63 (Uint63.of_Z n)
  | _ => x
  end.

Definition getLinearScore (value : option float) (min max : float) : float :=
  match value with
  | None => 0
  | Some value =>
      let descending := max <? min in
      if descending then
        if value <=? max then 100
        else if min <=? value then 0
        else Math_round (((value - min) / (max - min)) * 100)
      else if value <=? 0 then 0
      else if max <=? value then 100
      else Math_round ((value * 100) / max)
  end.

End Binary64.

(** ** utils/geometryUtils.ts *)

Module GeometryUtils.

Definition getDistance (p1 p2 : Point) : R :=
  sqrt ((p2.(Point.x) - p1.(Point.x)) ^ 2 + (p2.(Point.y) - p1.(Point.y)) ^ 2).

Definition distSq (x1 y1 x2 y2 : R) : R :=
  (x1 - x2) * (x1 - x2) + (y1 - y2) * (y1 - y2).

Definition getDistanceToSegment (p v w : Point) : R :=
  let l2 := distSq v.(Point.x) v.(Point.y) w.(Point.x) w.(Point.y) in
  if decide (l2 = 0) then getDistance p v
  else
    let t :=
      ((p.(Point.x) - v.(Point.x)) * (w.(Point.x) - v.(Point.x))
       + (p.(Point.y) - v.(Point.y)) * (w.(Point.y) - v.(Point.y))) / l2 in
    let t := Rmax 0 (Rmin 1 t) in
    let projection :=
      Point.mk (v.(Point.x) + t * (w.(Point.x) - v.(Point.x)))
               (v.(Point.y) + t * (w.(Point.y) - v.(Point.y))) in
    getDistance p projection.

Definition calculateAngle (p1 center p2 : Point) : R :=
  let p1x := p1.(Point.x) - center.(Point.x) in
  let p1y := p1.(Point.y) - center.(Point.y) in
  let p2x := p2.(Point.x) - center.(Point.x) in
  let p2y := p2.(Point.y) - center.(Point.y) in
  let angleRad := Math_atan2 p2y p2x - Math_atan2 p1y p1x in
  let angleDeg := Rabs ((angleRad * 180) / PI) in
  let angleDeg := if decide (angleDeg > 180) then 360 - angleDeg else angleDeg in
  Math_round angleDeg.

Definition project (normP : EditorPoint) (layout : EditorLayout) : Point :=
  Point.mk
    (layout.(EditorLayout.offsetX) + normP.(EditorPoint.x) * layout.(EditorLayout.renderW))
    (layout.(EditorLayout.offsetY) + normP.(EditorPoint.y) * layout.(EditorLayout.renderH)).

Definition calculateVerticalDeviation (top bottom : Point) : R :=
  let dx := bottom.(Point.x) - top.(Point.x) in
  let dy := bottom.(Point.y) - top.(Point.y) in
  let rad := Math_atan2 dx dy in
  let deg := Rabs ((rad * 180) / PI) in
  Math_round deg.

Definition calculateHorizontalDeviation (left right : Point) : R :=
  let dy := right.(Point.y) - left.(Point.y) in
  let dx := right.(Point.x) - left.(Point.x) in
  let rad := Math_atan2 dy dx in
  let deg := Rabs ((rad * 180) / PI) in
  Math_round deg.

(** [points.find((p) => p.id === id)]. *)
Definition findPoint (points : list EditorPoint) (id : string) : option EditorPoint :=
  List.find (fun p => bool_decide (p.(EditorPoint.id) = id)) points.

(** The three hit tests are [for ... of] loops that return at the first
    element that passes; the recursion is on the rest of the array. *)
Fixpoint hitTestPoint (x y : R) (points : list EditorPoint)
    (layout : EditorLayout) (tolerance : R) : option string :=
  match points with
  | [] => None
  | p :: rest =>
      let screenP := project p layout in
      if decide (getDistance (Point.mk x y) screenP < tolerance)
      then Some p.(EditorPoint.id)
      else hitTestPoint x y rest layout tolerance
  end.

Fixpoint hitTestConnection (x y : R) (connections : list EditorConnection)
    (points : list EditorPoint) (layout : EditorLayout) (tolerance : R)
  : option string :=
  match connections with
  | [] => None
  | conn :: rest =>
      let p1 := findPoint points conn.(EditorConnection.from) in
      let p2 := findPoint points conn.(EditorConnection.to) in
      match p1, p2 with
      | Some p1, Some p2 =>
          let v := project p1 layout in
          let w := project p2 layout in
          let p := Point.mk x y in
          let dist := getDistanceToSegment p v w in
          if decide (dist < tolerance) then Some conn.(EditorConnection.id)
          else hitTestConnection x y rest points layout tolerance
      | _, _ => hitTestConnection x y rest points layout tolerance
      end
  end.

Fixpoint hitTestAngle (x y : R) (angles : list EditorAngle)
    (points : list EditorPoint) (layout : EditorLayout) (tolerance : R)
  : option string :=
  match angles with
  | [] => None
  | angle :: rest =>
      let p1 := findPoint points angle.(EditorAngle.p1) in
      let pc := findPoint points angle.(EditorAngle.center) in
      let p2 := findPoint points angle.(EditorAngle.p2) in
      match p1, pc, p2 with
      | Some p1, Some pc, Some p2 =>
          let sc := project pc layout in
          let s1 := project p1 layout in
          let s2 := project p2 layout in
          let cx := sc.(Point.x) in
          let cy := sc.(Point.y) in
          let ax := s1.(Point.x) in
          let ay := s1.(Point.y) in
          let bx := s2.(Point.x) in
          let by_ := s2.(Point.y) in
          let startAngle := Math_atan2 (ay - cy) (ax - cx) in
          let endAngle := Math_atan2 (by_ - cy) (bx - cx) in
          let diff := endAngle - startAngle in
          let diff :=
            if decide (diff > PI) then diff - 2 * PI
            else if decide (diff <= - PI) then diff + 2 * PI
            else diff in
          let midAngle := startAngle + diff / 2 in
          let textRadius := 45 in
          let tx := cx + cos midAngle * textRadius in
          let ty := cy + sin midAngle * textRadius in
          if decide (getDistance (Point.mk x y) (Point.mk tx ty) < tolerance)
          then Some angle.(EditorAngle.id)
          else hitTestAngle x y rest points layout tolerance
      | _, _, _ => hitTestAngle x y rest points layout tolerance
      end
  end.

End GeometryUtils.

(** ** services/orthopedicService.ts: tests on a single skeleton

    Only [id] and [analyze] of a test object are modelled; the other fields
    are display strings. *)

Module OrthopedicService.
Import GeometryUtils.

Local Open Scope string_scope.

Module OrthopedicTest.
Record t := mk {
  id : string;
  analyze : gmap string Point -> Translator -> option HealthReport
}.
End OrthopedicTest.
Abbreviation OrthopedicTest := OrthopedicTest.t.

Definition analyze_shoulder_level (data : gmap string Point) (t : Translator)
  : option HealthReport :=
  match data !! "leftShoulder", data !! "rightShoulder" with
  | Some left_, Some right_ =>
      let deviation := calculateHorizontalDeviation left_ right_ in
      let '(score, title, warnings) :=
        if decide (deviation > 5)%R then
          (Rmax 0 (100 - deviation * 5),
           t "diag.shoulder.significant" [],
           [ HealthWarning.mk
               (if decide (deviation > 10)%R then high else medium)
               (t "diag.shoulder.msg_significant" [TNum deviation])
               (t "risk.shoulder.chronic" []) ])
        else if decide (deviation > 2)%R then
          (90%R,
           t "diag.shoulder.mild" [],
           [ HealthWarning.mk low
               (t "diag.shoulder.msg_mild" [TNum deviation])
               (t "risk.shoulder.muscle" []) ])
        else (100%R, t "diag.shoulder.balanced" [], []) in
      Some (HealthReport.mk score title
              (if decide (deviation <= 2)%R then t "desc.shoulder.good" []
               else t "desc.shoulder.bad" [])
              [ t "detail.shoulder.angle" [TNum deviation] ]
              warnings)
  | _, _ => None
  end.

(** [a || b] on [Point | undefined]. *)
Definition orElse (a b : option Point) : option Point :=
  match a with Some _ => a | None => b end.

Definition analyze_forward_head (data : gmap string Point) (t : Translator)
  : option HealthReport :=
  let ear := orElse (data !! "leftEar") (data !! "rightEar") in
  let shoulder := orElse (data !! "leftShoulder") (data !! "rightShoulder") in
  match ear, shoulder with
  | Some ear, Some shoulder =>
      let deviation := calculateVerticalDeviation ear shoulder in
      let '(score, title, warnings) :=
        if decide (deviation > 25)%R then
          (50%R,
           t "diag.head.severe" [],
           [ HealthWarning.mk high
               (t "diag.head.msg_severe" [TNum deviation])
               (t "risk.head.severe" []) ])
        else if decide (deviation > 15)%R then
          (75%R,
           t "diag.head.mild" [],
           [ HealthWarning.mk medium
               (t "diag.head.msg_mild" [TNum deviation])
               (t "risk.head.mild" []) ])
        else (100%R, t "diag.head.good" [], []) in
      Some (HealthReport.mk score title
              (if decide (deviation <= 15)%R then t "desc.head.good" []
               else t "desc.head.bad" [])
              [ t "detail.head.angle" [TNum deviation] ]
              warnings)
  | _, _ => None
  end.

Definition analyze_leg_alignment (data : gmap string Point) (t : Translator)
  : option HealthReport :=
  match data !! "leftHip", data !! "leftKnee", data !! "leftAnkle",
        data !! "rightHip", data !! "rightKnee", data !! "rightAnkle" with
  | Some lHip, Some lKnee, Some lAnkle, Some rHip, Some rKnee, Some rAnkle =>
      let leftAngle := calculateAngle lHip lKnee lAnkle in
      let rightAngle := calculateAngle rHip rKnee rAnkle in
      let '(score, title, description, warnings) :=
        if decide (leftAngle < 165 \/ rightAngle < 165)%R then
          (60%R,
           t "diag.leg.valgus" [],
           t "diag.leg.desc_valgus" [],
           [ HealthWarning.mk medium
               (t "diag.leg.msg" [TNum leftAngle; TNum rightAngle])
               (t "risk.leg.acl" []) ])
        else if decide (leftAngle > 185 \/ rightAngle > 185)%R then
          (80%R, t "diag.leg.good" [], t "diag.leg.desc_good" [], [])
        else (100%R, t "diag.leg.good" [], t "diag.leg.desc_good" [], []) in
      Some (HealthReport.mk score title description
              [ t "detail.leg.left" [TNum leftAngle];
                t "detail.leg.right" [TNum rightAngle] ]
              warnings)
  | _, _, _, _, _, _ => None
  end.

Definition getOrthopedicTests : list OrthopedicTest :=
  [ OrthopedicTest.mk "shoulder_level" analyze_shoulder_level;
    OrthopedicTest.mk "forward_head" analyze_forward_head;
    OrthopedicTest.mk "leg_alignment" analyze_leg_alignment ].

End OrthopedicService.

(** ** orthopedicService.ts, the port with several poses per test
    (src/unnamed/part_004)

    [analyze] receives a map from pose id to the analysis of that pose.
    The two lists [scores] and [details] that the source fills with [push]
    are threaded through the blocks of each [analyze] as a pair. *)

Module OrthopedicPoses.
Import MathUtils.

Local Open Scope string_scope.
Local Open Scope list_scope.

Module OrthopedicTest.
Record t := mk {
  id : string;
  analyze : gmap string AIAnalysisResult -> Translator -> option HealthReport
}.
End OrthopedicTest.

Section Analyze.

(** [n.toFixed(digits)] and the conversion of a number inside a template
    literal; both are number formatting of the JavaScript runtime. *)
Variable toFixed : R -> nat -> string.
Variable numToString : R -> string.

Definition Acc : Type := list R * list string.

Definition scorePose (dataMap : gmap string AIAnalysisResult) (poseId : string)
    (angleDef : AngleDef) : R * string :=
  match dataMap !! poseId with
  | None => ((-1)%R, "--")
  | Some raw =>
      let kps := buildEnrichedSkeleton raw.(AIAnalysisResult.skeleton) in
      match computeAngle kps angleDef with
      | None => ((-1)%R, "--")
      | Some angle =>
          let score :=
            getLinearScore (Some angle) angleDef.(AngleDef.min) angleDef.(AngleDef.max) in
          (score,
           toFixed angle 1 +:+ "° / " +:+ numToString angleDef.(AngleDef.max) +:+ "°")
      end
  end.

(** The block shared by the single-angle poses:
    [if (score >= 0) scores.push(score); details.push(`${label}: ${angleStr}`)]. *)
Definition poseBlock (dataMap : gmap string AIAnalysisResult) (poseId : string)
    (angleDef : AngleDef) (label : string) (acc : Acc) : Acc :=
  let '(scores, details) := acc in
  let '(score, angleStr) := scorePose dataMap poseId angleDef in
  ((if decide (score >= 0)%R then scores ++ [score] else scores),
   details ++ [label +:+ ": " +:+ angleStr]).

Definition FRONT_LEFT : AngleDef := AngleDef.mk "leftShoulder" "vertical" "leftBiceps" 0 180.
Definition FRONT_RIGHT : AngleDef := AngleDef.mk "rightShoulder" "rightBiceps" "vertical" 0 180.
Definition LEFT_FWD : AngleDef := AngleDef.mk "leftShoulder" "leftBiceps" "vertical" 0 180.
Definition RIGHT_FWD : AngleDef := AngleDef.mk "rightShoulder" "vertical" "rightBiceps" 0 180.
Definition LEFT_BWD : AngleDef := AngleDef.mk "leftShoulder" "vertical" "leftBiceps" 0 50.
Definition RIGHT_BWD : AngleDef := AngleDef.mk "rightShoulder" "rightBiceps" "vertical" 0 50.

(** [a?.toFixed(1) ?? '--']. *)
Definition fixedOrDashes (a : option R) : string :=
  match a with Some a => toFixed a 1 | None => "--" end.

Definition frontShoulderBlock (dataMap : gmap string AIAnalysisResult)
    (t : Translator) (acc : Acc) : Acc :=
  let '(scores, details) := acc in
  match dataMap !! "frontShoulder" with
  | None => (scores, details)
  | Some raw =>
      let kps := buildEnrichedSkeleton raw.(AIAnalysisResult.skeleton) in
      let aLeft := computeAngle kps FRONT_LEFT in
      let aRight := computeAngle kps FRONT_RIGHT in
      let sLeft :=
        match aLeft with
        | Some a => getLinearScore (Some a) FRONT_LEFT.(AngleDef.min) FRONT_LEFT.(AngleDef.max)
        | None => (-1)%R
        end in
      let sRight :=
        match aRight with
        | Some a => getLinearScore (Some a) FRONT_RIGHT.(AngleDef.min) FRONT_RIGHT.(AngleDef.max)
        | None => (-1)%R
        end in
      let avg := getAverageScore [sLeft; sRight] in
      ((if decide (avg >= 0)%R then scores ++ [avg] else scores),
       details ++
         [ t "pose.shoulder.front" [] +:+ ": L=" +:+ fixedOrDashes aLeft
           +:+ "° R=" +:+ fixedOrDashes aRight +:+ "° (max 180°)" ])
  end.

Definition analyze_shoulder_mobility (dataMap : gmap string AIAnalysisResult)
    (t : Translator) : option HealthReport :=
  let acc : Acc := ([], []) in
  let acc := frontShoulderBlock dataMap t acc in
  let acc := poseBlock dataMap "leftShoulder" LEFT_FWD (t "pose.shoulder.left_forward" []) acc in
  let acc := poseBlock dataMap "rightShoulder" RIGHT_FWD (t "pose.shoulder.right_forward" []) acc in
  let acc := poseBlock dataMap "leftShoulderBackward" LEFT_BWD (t "pose.shoulder.left_backward" []) acc in
  let acc := poseBlock dataMap "rightShoulderBackward" RIGHT_BWD (t "pose.shoulder.right_backward" []) acc in
  let '(scores, details) := acc in
  let totalScore := getAverageScore scores in
  Some (HealthReport.mk totalScore
          (if decide (totalScore > 80)%R then t "diag.shoulder.good" []
           else t "diag.shoulder.restricted" [])
          (if decide (totalScore > 80)%R then t "desc.shoulder.good" []
           else t "desc.shoulder.restricted" [])
          details
          []).

Definition NECK_RIGHT_SIDE : AngleDef := AngleDef.mk "manubrium" "-vertical" "neck" 0 50.
Definition NECK_LEFT_SIDE : AngleDef := AngleDef.mk "manubrium" "neck" "-vertical" 0 50.
Definition NECK_FRONT : AngleDef := AngleDef.mk "manubrium" "rightNeck" "-vertical" 0 60.
Definition NECK_BACK : AngleDef := AngleDef.mk "manubrium" "-vertical" "rightNeck" (-30) 50.

Definition analyze_neck_mobility (dataMap : gmap string AIAnalysisResult)
    (t : Translator) : option HealthReport :=
  let acc : Acc := ([], []) in
  let acc := poseBlock dataMap "neckRightSideBend" NECK_RIGHT_SIDE (t "pose.neck.right_side_bend" []) acc in
  let acc := poseBlock dataMap "neckLeftSideBend" NECK_LEFT_SIDE (t "pose.neck.left_side_bend" []) acc in
  let acc := poseBlock dataMap "neckFrontBend" NECK_FRONT (t "pose.neck.front_bend" []) acc in
  let acc := poseBlock dataMap "neckBackBend" NECK_BACK (t "pose.neck.back_bend" []) acc in
  let '(scores, details) := acc in
  let totalScore := getAverageScore scores in
  Some (HealthReport.mk totalScore
          (t "diag.neck.good" [])
          (t "desc.neck.good" [])
          details
          []).

Definition analyze_wrist_mobility (_dataMap : gmap string AIAnalysisResult)
    (t : Translator) : option HealthReport :=
  Some (HealthReport.mk (-1)
          (t "diag.wrist.unavailable" [])
          (t "desc.wrist.unavailable" [])
          [ t "detail.wrist.needs_hand_model" [] ]
          []).

(** [Math.abs(Math.atan2(dy, dx) * (180 / Math.PI))] of the line from [l] to
    [r], scored on the descending range 20 to 0. *)
Definition tiltBlock (kps : gmap string Point) (lName rName key : string)
    (t : Translator) (acc : Acc) : Acc :=
  let '(scores, details) := acc in
  match kps !! lName, kps !! rName with
  | Some l, Some r =>
      let dx := (r.(Point.x) - l.(Point.x))%R in
      let dy := (r.(Point.y) - l.(Point.y))%R in
      let ang := (Math_atan2 dy dx * (180 / PI))%R in
      let absAng := Rabs ang in
      let dir := if decide (dy > 0)%R then t "direction.right" [] else t "direction.left" [] in
      (scores ++ [getLinearScore (Some absAng) 20 0],
       details ++ [ t key [TStr (toFixed absAng 1); TStr dir] ])
  | _, _ => (scores, details)
  end.

(** [v || 0.5] on a number. *)
Definition orHalf (v : R) : R := if decide (v = 0)%R then (5 / 10)%R else v.

(** Horizontal shift between [upper] and [lower], in centimetres. *)
Definition shiftBlock (kps : gmap string Point) (patientHeight : R)
    (lowerName upperName key : string) (limit : R)
    (t : Translator) (acc : Acc) : Acc :=
  let '(scores, details) := acc in
  match kps !! lowerName, kps !! upperName with
  | Some lower, Some upper =>
      let nose := kps !! "nose" in
      let ankleY := match kps !! "leftAnkle" with Some a => a.(Point.y) | None => 0%R end in
      let noseY := match nose with Some n => n.(Point.y) | None => 0%R end in
      let bodyFraction := orHalf (Rabs (noseY - ankleY)) in
      let cmPerUnit := ((patientHeight - 10) / bodyFraction)%R in
      let shiftXCm := Rabs ((lower.(Point.x) - upper.(Point.x)) * cmPerUnit) in
      let dir :=
        if decide (upper.(Point.x) < lower.(Point.x))%R then t "direction.front" []
        else t "direction.back" [] in
      (scores ++ [getLinearScore (Some shiftXCm) limit 0],
       details ++ [ t key [TStr (toFixed shiftXCm 1); TStr dir] ])
  | _, _ => (scores, details)
  end.

Definition analyze_posture_analysis (dataMap : gmap string AIAnalysisResult)
    (t : Translator) (patientHeight : R) : option HealthReport :=
  let acc : Acc := ([], []) in
  let acc :=
    match dataMap !! "front" with
    | Some raw =>
        let kps := buildEnrichedSkeleton raw.(AIAnalysisResult.skeleton) in
        let acc := tiltBlock kps "leftShoulder" "rightShoulder" "detail.posture.shoulder_tilt" t acc in
        tiltBlock kps "leftHip" "rightHip" "detail.posture.hip_tilt" t acc
    | None => acc
    end in
  let acc :=
    match dataMap !! "side" with
    | Some raw =>
        let kps := buildEnrichedSkeleton raw.(AIAnalysisResult.skeleton) in
        let acc := shiftBlock kps patientHeight "leftAnkle" "leftEar" "detail.posture.ear_shift" 13 t acc in
        shiftBlock kps patientHeight "leftAnkle" "leftShoulder" "detail.posture.shoulder_shift" 8 t acc
    | None => acc
    end in
  let '(scores, details) := acc in
  let totalScore := getAverageScore scores in
  Some (HealthReport.mk totalScore
          (if decide (totalScore > 80)%R then t "diag.posture.good" []
           else t "diag.posture.imbalance" [])
          (if decide (totalScore > 80)%R then t "desc.posture.good" []
           else t "desc.posture.imbalance" [])
          details
          []).

(** [patientHeight] is an optional third parameter with default 170; the
    test object is called with two arguments. *)
Definition getOrthopedicTests : list OrthopedicTest.t :=
  [ OrthopedicTest.mk "shoulder_mobility" analyze_shoulder_mobility;
    OrthopedicTest.mk "neck_mobility" analyze_neck_mobility;
    OrthopedicTest.mk "wrist_mobility" analyze_wrist_mobility;
    OrthopedicTest.mk "posture_analysis"
      (fun dataMap t => analyze_posture_analysis dataMap t 170) ].

End Analyze.

End OrthopedicPoses.

(** ** components/organisms/EditorCanvas.tsx: the pointer handlers

    The React state of the component is a record; a handler maps the state
    before the event to the state after it.  [setEditorData((prev) => ...)]
    is applied to the data the handler was rendered with, since each event
    is handled to completion.  [generateId()] draws a random string: the
    string drawn during the event is the argument [newId]. *)

Module EditorCanvas.
Import GeometryUtils.

Module EditorState.
Record t := mk {
  editorData : EditorData;
  draggingPointId : option string;
  connectingStartId : option string;
  selectedElementIds : list string
}.
End EditorState.
Abbreviation EditorState := EditorState.t.

Definition setEditorData (d : EditorData) (st : EditorState) : EditorState :=
  EditorState.mk d st.(EditorState.draggingPointId)
    st.(EditorState.connectingStartId) st.(EditorState.selectedElementIds).

Definition setDraggingPointId (v : option string) (st : EditorState) : EditorState :=
  EditorState.mk st.(EditorState.editorData) v
    st.(EditorState.connectingStartId) st.(EditorState.selectedElementIds).

Definition setConnectingStartId (v : option string) (st : EditorState) : EditorState :=
  EditorState.mk st.(EditorState.editorData) st.(EditorState.draggingPointId)
    v st.(EditorState.selectedElementIds).

Definition setSelectedElementIds (v : list string) (st : EditorState) : EditorState :=
  EditorState.mk st.(EditorState.editorData) st.(EditorState.draggingPointId)
    st.(EditorState.connectingStartId) v.

(** [connections.find((c) => c.id === id)]. *)
Definition findConnection (connections : list EditorConnection) (id : string)
  : option EditorConnection :=
  List.find (fun c => bool_decide (c.(EditorConnection.id) = id)) connections.

(** CONNECT: is there a connection between [a] and [b], in either direction? *)
Definition connectionExists (connections : list EditorConnection) (a b : string) : bool :=
  existsb
    (fun c =>
       bool_decide
         ((c.(EditorConnection.from) = a /\ c.(EditorConnection.to) = b)
          \/ (c.(EditorConnection.from) = b /\ c.(EditorConnection.to) = a)))
    connections.

(** DELETE of a connection from [pA] to [pB]: the angles that go with it. *)
Definition usesConn (pA pB : string) (a : EditorAngle) : Prop :=
  let usesConnAsArm1 :=
    a.(EditorAngle.center) = pA /\ (a.(EditorAngle.p1) = pB \/ a.(EditorAngle.p2) = pB) in
  let usesConnAsArm2 :=
    a.(EditorAngle.center) = pB /\ (a.(EditorAngle.p1) = pA \/ a.(EditorAngle.p2) = pA) in
  usesConnAsArm1 \/ usesConnAsArm2.

#[global] Instance usesConn_dec pA pB a : Decision (usesConn pA pB a).
Proof. unfold usesConn. apply _. Defined.

(** ANGLE: the chain of four comparisons that looks for a shared vertex;
    the result is [(centerId, p1Id, p2Id)], all [null] when none matches. *)
Definition sharedVertex (conn1 conn2 : EditorConnection)
  : option string * option string * option string :=
  if decide (conn1.(EditorConnection.from) = conn2.(EditorConnection.from)) then
    (Some conn1.(EditorConnection.from), Some conn1.(EditorConnection.to),
     Some conn2.(EditorConnection.to))
  else if decide (conn1.(EditorConnection.from) = conn2.(EditorConnection.to)) then
    (Some conn1.(EditorConnection.from), Some conn1.(EditorConnection.to),
     Some conn2.(EditorConnection.from))
  else if decide (conn1.(EditorConnection.to) = conn2.(EditorConnection.from)) then
    (Some conn1.(EditorConnection.to), Some conn1.(EditorConnection.from),
     Some conn2.(EditorConnection.to))
  else if decide (conn1.(EditorConnection.to) = conn2.(EditorConnection.to)) then
    (Some conn1.(EditorConnection.to), Some conn1.(EditorConnection.from),
     Some conn2.(EditorConnection.from))
  else (None, None, None).

Definition angleExists (angles : list EditorAngle) (centerId p1Id p2Id : string) : bool :=
  existsb
    (fun a =>
       bool_decide
         (a.(EditorAngle.center) = centerId
          /\ ((a.(EditorAngle.p1) = p1Id /\ a.(EditorAngle.p2) = p2Id)
              \/ (a.(EditorAngle.p1) = p2Id /\ a.(EditorAngle.p2) = p1Id))))
    angles.

(** ANGLE: [newSelection] after the click on [hitLineId]. *)
Definition toggle (hitLineId : string) (selected : list string) : list string :=
  if bool_decide (hitLineId ∈ selected)
  then filter (fun id => id <> hitLineId) selected
  else selected ++ [hitLineId].

(** The body of [handleStart] after the three hit tests. *)
Definition handleStartHits (activeTool : EditorTool) (layout : EditorLayout)
    (x y : R) (newId : string) (hitPointId hitLineId hitAngleId : option string)
    (st : EditorState) : EditorState :=
  let editorData := st.(EditorState.editorData) in
  let points := editorData.(EditorData.points) in
  let connections := editorData.(EditorData.connections) in
  let angles := editorData.(EditorData.angles) in
  match activeTool with
  | MOVE =>
      match truthy hitPointId with
      | Some _ => setDraggingPointId hitPointId st
      | None => st
      end
  | ADD_POINT =>
      match truthy hitPointId with
      | Some _ => st
      | None =>
          (* With [renderW] or [renderH] zero, as in the layout before the
             image is loaded, the quotient of the code is an infinity or
             NaN, and the test of the range fails. *)
          if decide (layout.(EditorLayout.renderW) = 0
                     \/ layout.(EditorLayout.renderH) = 0) then st
          else
            let normX :=
              (x - layout.(EditorLayout.offsetX)) / layout.(EditorLayout.renderW) in
            let normY :=
              (y - layout.(EditorLayout.offsetY)) / layout.(EditorLayout.renderH) in
            if decide (normX >= 0 /\ normX <= 1 /\ normY >= 0 /\ normY <= 1) then
              let newP := EditorPoint.mk newId normX normY in
              setEditorData (EditorData.mk (points ++ [newP]) connections angles) st
            else st
      end
  | CONNECT =>
      match truthy hitPointId with
      | Some hit =>
          match truthy st.(EditorState.connectingStartId) with
          | Some start =>
              if decide (start <> hit) then
                let st :=
                  if connectionExists connections start hit then st
                  else
                    let newConn := EditorConnection.mk newId start hit in
                    setEditorData
                      (EditorData.mk points (connections ++ [newConn]) angles) st in
                setConnectingStartId None st
              else setConnectingStartId hitPointId st
          | None => setConnectingStartId hitPointId st
          end
      | None => setConnectingStartId None st
      end
  | DELETE =>
      match truthy hitAngleId with
      | Some hitAngle =>
          setEditorData
            (EditorData.mk points connections
               (filter (fun a => a.(EditorAngle.id) <> hitAngle) angles)) st
      | None =>
          match truthy hitPointId with
          | Some hitPoint =>
              setEditorData
                (EditorData.mk
                   (filter (fun p => p.(EditorPoint.id) <> hitPoint) points)
                   (filter
                      (fun c => c.(EditorConnection.from) <> hitPoint
                                /\ c.(EditorConnection.to) <> hitPoint)
                      connections)
                   (filter
                      (fun a => a.(EditorAngle.p1) <> hitPoint
                                /\ a.(EditorAngle.center) <> hitPoint
                                /\ a.(EditorAngle.p2) <> hitPoint)
                      angles)) st
          | None =>
              match truthy hitLineId with
              | Some hitLine =>
                  match findConnection connections hitLine with
                  | Some conn =>
                      let pA := conn.(EditorConnection.from) in
                      let pB := conn.(EditorConnection.to) in
                      setEditorData
                        (EditorData.mk points
                           (filter (fun c => c.(EditorConnection.id) <> hitLine) connections)
                           (filter (fun a => ~ usesConn pA pB a) angles)) st
                  | None => st
                  end
              | None => st
              end
          end
      end
  | ANGLE =>
      match truthy hitLineId with
      | Some hitLine =>
          let newSelection := toggle hitLine st.(EditorState.selectedElementIds) in
          match newSelection with
          | [id1; id2] =>
              match findConnection connections id1, findConnection connections id2 with
              | Some conn1, Some conn2 =>
                  let '(centerId, p1Id, p2Id) := sharedVertex conn1 conn2 in
                  match truthy centerId, truthy p1Id, truthy p2Id with
                  | Some centerId, Some p1Id, Some p2Id =>
                      let st :=
                        if angleExists angles centerId p1Id p2Id then st
                        else
                          let newAngle := EditorAngle.mk newId p1Id centerId p2Id in
                          setEditorData
                            (EditorData.mk points connections (angles ++ [newAngle])) st in
                      setSelectedElementIds [] st
                  | _, _, _ => setSelectedElementIds [hitLine] st
                  end
              | _, _ => setSelectedElementIds newSelection st
              end
          | _ => setSelectedElementIds newSelection st
          end
      | None => setSelectedElementIds [] st
      end
  end.

(** [handleStart]: nothing happens while the skeleton is hidden; otherwise
    the three hit tests run with tolerances 45, 30 and 35 pixels, whatever
    the tool. *)
Definition handleStart (showSkeleton : bool) (activeTool : EditorTool)
    (layout : EditorLayout) (x y : R) (newId : string) (st : EditorState)
  : EditorState :=
  if negb showSkeleton then st
  else
    let editorData := st.(EditorState.editorData) in
    let hitPointId :=
      hitTestPoint x y editorData.(EditorData.points) layout 45 in
    let hitLineId :=
      hitTestConnection x y editorData.(EditorData.connections)
        editorData.(EditorData.points) layout 30 in
    let hitAngleId :=
      hitTestAngle x y editorData.(EditorData.angles)
        editorData.(EditorData.points) layout 35 in
    handleStartHits activeTool layout x y newId hitPointId hitLineId hitAngleId st.

(** A pointer move while a point is dragged stores the cursor in image space
    in that point.  The code divides by [renderW] and [renderH] without a
    test: over a layout of size zero it stores an infinity or NaN, which the
    reals do not have, so every statement about [handleMove] below is about
    layouts of non-zero size. *)
Definition handleMove (activeTool : EditorTool) (layout : EditorLayout)
    (x y : R) (st : EditorState) : EditorState :=
  match activeTool, truthy st.(EditorState.draggingPointId) with
  | MOVE, Some dragging =>
      let normX := (x - layout.(EditorLayout.offsetX)) / layout.(EditorLayout.renderW) in
      let normY := (y - layout.(EditorLayout.offsetY)) / layout.(EditorLayout.renderH) in
      let d := st.(EditorState.editorData) in
      setEditorData
        (EditorData.mk
           (map (fun p => if decide (p.(EditorPoint.id) = dragging)
                          then EditorPoint.mk p.(EditorPoint.id) normX normY
                          else p)
                d.(EditorData.points))
           d.(EditorData.connections) d.(EditorData.angles)) st
  | _, _ => st
  end.

Definition handleEnd (st : EditorState) : EditorState := setDraggingPointId None st.

(** The effect that runs when [activeTool] changes. *)
Definition onToolChange (st : EditorState) : EditorState :=
  setDraggingPointId None (setConnectingStartId None (setSelectedElementIds [] st)).






(** The component as it is driven: the canvas passes pointer events to
    [handleStart], [handleMove] and [handleEnd] with the props of the moment
    ([showSkeleton], the layout, the active tool), and a change of the
    [activeTool] prop runs the effect that resets the selection. *)
Inductive Event :=
| PointerDown (showSkeleton : bool) (layout : EditorLayout) (x y : R) (newId : string)
| PointerMove (layout : EditorLayout) (x y : R)
| PointerUp
| ToolChange (tool : EditorTool).

#[global] Instance EditorTool_eq_dec : EqDecision EditorTool.
Proof. solve_decision. Defined.

Module Session.
Record t := mk { activeTool : EditorTool; state : EditorState }.
End Session.
Abbreviation Session := Session.t.

Definition step (s : Session) (e : Event) : Session :=
  let tool := s.(Session.activeTool) in
  let st := s.(Session.state) in
  match e with
  | PointerDown showSkeleton layout x y newId =>
      Session.mk tool (handleStart showSkeleton tool layout x y newId st)
  | PointerMove layout x y => Session.mk tool (handleMove tool layout x y st)
  | PointerUp => Session.mk tool (handleEnd st)
  | ToolChange tool' =>
      if decide (tool' = tool) then s else Session.mk tool' (onToolChange st)
  end.

Definition run (s : Session) (events : list Event) : Session :=
  fold_left step events s.

End EditorCanvas.

(** ** Notions of the specification *)

Module Spec.

(** The arithmetic mean of a list of numbers. *)
Definition mean (l : list R) : R := fold_right Rplus 0 l / INR (length l).

(** An entry of a score list is dropped when it is negative. *)
Definition kept (l : list R) : list R := filter (fun s => ~ s < 0) l.

(** A skeleton contains none of the keypoints [names]. *)
Definition lacks (skeleton : gmap string Point) (names : list string) : Prop :=
  Forall (fun k => skeleton !! k = None) names.

(** No pose of [dataMap] contains any of the keypoints [names]. *)
Definition posesLack (dataMap : gmap string AIAnalysisResult) (names : list string) : Prop :=
  forall (pose : string) (raw : AIAnalysisResult),
    dataMap !! pose = Some raw -> lacks raw.(AIAnalysisResult.skeleton) names.

(** The keypoints from which the angles of the shoulder test and of the neck
    test are built. *)
Definition shoulder_keypoints : list string :=
  [ "leftShoulder"; "leftElbow"; "rightShoulder"; "rightElbow" ]%string.

Definition neck_keypoints : list string :=
  [ "leftShoulder"; "rightShoulder"; "nose"; "rightEar" ]%string.

Definition posture_keypoints : list string :=
  [ "leftShoulder"; "rightShoulder"; "leftHip"; "rightHip"; "leftAnkle"; "leftEar" ]%string.

(** The analysis of a pose in which no keypoint was detected. *)
Definition noKeypoints : AIAnalysisResult := AIAnalysisResult.mk ∅ None 0.


(** Two connections share a vertex. *)
Definition shareVertex (conn1 conn2 : EditorConnection) : Prop :=
  conn1.(EditorConnection.from) = conn2.(EditorConnection.from)
  \/ conn1.(EditorConnection.from) = conn2.(EditorConnection.to)
  \/ conn1.(EditorConnection.to) = conn2.(EditorConnection.from)
  \/ conn1.(EditorConnection.to) = conn2.(EditorConnection.to).

(** [v] is an endpoint of [conn] and [other] is its other endpoint. *)
Definition endpoints (conn : EditorConnection) (v other : string) : Prop :=
  (conn.(EditorConnection.from) = v /\ conn.(EditorConnection.to) = other)
  \/ (conn.(EditorConnection.to) = v /\ conn.(EditorConnection.from) = other).

(** An angle with center [c] and arms [a] and [b], in either order. *)
Definition sameAngle (c a b : string) (ang : EditorAngle) : Prop :=
  ang.(EditorAngle.center) = c
  /\ ((ang.(EditorAngle.p1) = a /\ ang.(EditorAngle.p2) = b)
      \/ (ang.(EditorAngle.p1) = b /\ ang.(EditorAngle.p2) = a)).

(** The angle has its center on one endpoint of [conn] and an arm on the
    other endpoint. *)
Definition restsOn (conn : EditorConnection) (ang : EditorAngle) : Prop :=
  (ang.(EditorAngle.center) = conn.(EditorConnection.from)
   /\ (ang.(EditorAngle.p1) = conn.(EditorConnection.to)
       \/ ang.(EditorAngle.p2) = conn.(EditorConnection.to)))
  \/ (ang.(EditorAngle.center) = conn.(EditorConnection.to)
      /\ (ang.(EditorAngle.p1) = conn.(EditorConnection.from)
          \/ ang.(EditorAngle.p2) = conn.(EditorConnection.from))).

(** A score as the tests produce them: a whole number from 0 to 100, or
    the sentinel -1. *)
Definition score (s : R) : Prop := exists z : Z, s = IZR z /\ (-1 <= z <= 100)%Z.

(** A score on the scale of a report. *)
Definition percent (s : R) : Prop := 0 <= s <= 100.

(** A report without warnings whose score is a whole number on the scale
    of a report. *)
Definition plainReport (res : option HealthReport) : Prop :=
  exists r : HealthReport,
    res = Some r
    /\ percent r.(HealthReport.score)
    /\ (exists z : Z, r.(HealthReport.score) = IZR z)
    /\ r.(HealthReport.warnings) = [].

(** The vector pointing the other way. *)
Definition opposite (v : MathUtils.Vec2) : MathUtils.Vec2 := (- v.1, - v.2).

(** Render space: [renderPoint = offset + normalizedPoint * (renderW,
    renderH)]. *)
Definition render (p : EditorPoint) (layout : EditorLayout) : Point :=
  Point.mk
    (layout.(EditorLayout.offsetX) + p.(EditorPoint.x) * layout.(EditorLayout.renderW))
    (layout.(EditorLayout.offsetY) + p.(EditorPoint.y) * layout.(EditorLayout.renderH)).

(** The distance between two points of the plane. *)
Definition dist (p q : Point) : R :=
  sqrt ((q.(Point.x) - p.(Point.x)) ^ 2 + (q.(Point.y) - p.(Point.y)) ^ 2).

(** [p] is the point that the id [i] refers to: the first point of the
    list with that id. *)
Definition firstWithId (points : list EditorPoint) (i : string) (p : EditorPoint) : Prop :=
  exists before after : list EditorPoint,
    points = before ++ p :: after
    /\ p.(EditorPoint.id) = i
    /\ Forall (fun q => q.(EditorPoint.id) <> i) before.

(** [p] is nearer to the cursor than the tolerance. *)
Definition pointNear (x y : R) (layout : EditorLayout) (tolerance : R)
    (p : EditorPoint) : Prop :=
  dist (Point.mk x y) (render p layout) < tolerance.

(** Both endpoints of [c] exist and the cursor is nearer to the segment
    between them than the tolerance. *)
Definition connectionNear (x y : R) (points : list EditorPoint) (layout : EditorLayout)
    (tolerance : R) (c : EditorConnection) : Prop :=
  exists p1 p2 : EditorPoint,
    firstWithId points c.(EditorConnection.from) p1
    /\ firstWithId points c.(EditorConnection.to) p2
    /\ GeometryUtils.getDistanceToSegment (Point.mk x y)
         (render p1 layout) (render p2 layout) < tolerance.


(** The ids of the points of a graph. *)
Definition pointIds (d : EditorData) : list string :=
  EditorPoint.id <$> d.(EditorData.points).

(** No dangling reference: the endpoints of every connection and the three
    points of every angle are points of the graph. *)
Definition closed (d : EditorData) : Prop :=
  Forall (fun c => c.(EditorConnection.from) ∈ pointIds d
                   /\ c.(EditorConnection.to) ∈ pointIds d)
    d.(EditorData.connections)
  /\ Forall (fun a => a.(EditorAngle.p1) ∈ pointIds d
                      /\ a.(EditorAngle.center) ∈ pointIds d
                      /\ a.(EditorAngle.p2) ∈ pointIds d)
      d.(EditorData.angles).

(** No two elements of the list are related. *)
Fixpoint distinctBy {A : Type} (rel : A -> A -> Prop) (l : list A) : Prop :=
  match l with
  | [] => True
  | a :: l => Forall (fun b => ~ rel a b) l /\ distinctBy rel l
  end.

#[global] Instance distinctBy_dec {A : Type} (rel : A -> A -> Prop)
    `{forall a b, Decision (rel a b)} (l : list A) : Decision (distinctBy rel l).
Proof. induction l as [| a l IH]; cbn; apply _. Defined.

(** Two connections join the same two points. *)
Definition samePair (c c' : EditorConnection) : Prop :=
  (c.(EditorConnection.from) = c'.(EditorConnection.from)
   /\ c.(EditorConnection.to) = c'.(EditorConnection.to))
  \/ (c.(EditorConnection.from) = c'.(EditorConnection.to)
      /\ c.(EditorConnection.to) = c'.(EditorConnection.from)).

(** Two angles have the same center and the same two arms. *)
Definition sameArms (a a' : EditorAngle) : Prop :=
  sameAngle a.(EditorAngle.center) a.(EditorAngle.p1) a.(EditorAngle.p2) a'.

(** At most one connection between two points, none from a point to itself,
    and at most one angle for a center and two arms. *)
Definition simple (d : EditorData) : Prop :=
  Forall (fun c => c.(EditorConnection.from) <> c.(EditorConnection.to))
    d.(EditorData.connections)
  /\ distinctBy samePair d.(EditorData.connections)
  /\ distinctBy sameArms d.(EditorData.angles).

(** The transient state fits the tool and the graph: a start is pending
    only under CONNECT and is a point of the graph; connections are
    selected only under ANGLE, at most one at rest, and each selected id is
    the id of a connection. *)
Definition settled (s : EditorCanvas.Session) : Prop :=
  let st := s.(EditorCanvas.Session.state) in
  let d := st.(EditorCanvas.EditorState.editorData) in
  (forall start, truthy st.(EditorCanvas.EditorState.connectingStartId) = Some start ->
                 s.(EditorCanvas.Session.activeTool) = CONNECT /\ start ∈ pointIds d)
  /\ (st.(EditorCanvas.EditorState.selectedElementIds) <> [] ->
      s.(EditorCanvas.Session.activeTool) = ANGLE)
  /\ (length st.(EditorCanvas.EditorState.selectedElementIds) <= 1)%nat
  /\ Forall (fun i => exists c, c ∈ d.(EditorData.connections)
                                /\ c.(EditorConnection.id) = i)
      st.(EditorCanvas.EditorState.selectedElementIds).

(** The layout of a pointer move has a size: with [renderW] or [renderH]
    zero the code moves the dragged point to an infinite or NaN place,
    which is no real number. *)
Definition placed (e : EditorCanvas.Event) : Prop :=
  match e with
  | EditorCanvas.PointerMove layout _ _ =>
      layout.(EditorLayout.renderW) <> 0 /\ layout.(EditorLayout.renderH) <> 0
  | _ => True
  end.

(** The graph has no dangling reference and the transient state fits it. *)
Definition consistent (s : EditorCanvas.Session) : Prop :=
  closed s.(EditorCanvas.Session.state).(EditorCanvas.EditorState.editorData)
  /\ settled s.




End Spec.

(** ** Small editor graphs on a canvas of 1000 by 1000 pixels *)

Module Example.

Local Open Scope string_scope.

Definition layout : EditorLayout := EditorLayout.mk 1000 1000 0 0.

Definition ptA : EditorPoint := EditorPoint.mk "A" (1 / 10) (1 / 10).
Definition ptB : EditorPoint := EditorPoint.mk "B" (5 / 10) (1 / 10).
Definition ptC : EditorPoint := EditorPoint.mk "C" (5 / 10) (5 / 10).
Definition ptD : EditorPoint := EditorPoint.mk "D" (9 / 10) (1 / 10).

(** A corner: A at (100, 100), B at (500, 100), C at (500, 500), with the
    connections from A to B and from B to C and no angle yet. *)
Definition corner : EditorData :=
  EditorData.mk [ptA; ptB; ptC]
    [ EditorConnection.mk "c1" "A" "B"; EditorConnection.mk "c2" "B" "C" ]
    [].

(** A fan: A, B and D on one horizontal line, the connections from A to B
    and from A to D, and the angle at A between them; its label is drawn
    at (145, 100). *)
Definition fan : EditorData :=
  EditorData.mk [ptA; ptB; ptD]
    [ EditorConnection.mk "c1" "A" "B"; EditorConnection.mk "c2" "A" "D" ]
    [ EditorAngle.mk "ang" "B" "A" "D" ].

Definition ptE : EditorPoint := EditorPoint.mk "E" (7 / 10) (1 / 10).


Definition idle (d : EditorData) : EditorCanvas.EditorState :=
  EditorCanvas.EditorState.mk d None None [].

End Example.

(** * Properties *)

Import MathUtils GeometryUtils.

(** ** Facts about the built-ins *)

Lemma Math_round_near (v : R) (z : Z) :
  IZR z - / 2 <= v < IZR z + / 2 -> Math_round v = IZR z.
Proof.
  intros Hv. unfold Math_round. f_equal. symmetry.
  apply Int_part_spec. lra.
Qed.

Lemma Math_round_IZR (z : Z) : Math_round (IZR z) = IZR z.
Proof. apply Math_round_near. lra. Qed.

Lemma deg_factor_pos : 0 < 180 / PI.
Proof. apply Rdiv_lt_0_compat; [lra | apply PI_RGT_0]. Qed.

Lemma PI_deg : PI * (180 / PI) = 180.
Proof. field. apply PI_neq0. Qed.

Lemma Math_atan2_bounds (v u : R) : - PI < Math_atan2 v u <= PI.
Proof.
  pose proof PI_RGT_0 as HPI.
  pose proof (atan_bound (v / u)) as Hb.
  unfold Math_atan2.
  destruct (decide (0 < u)) as [Hu | Hu]; [lra |].
  destruct (decide (u < 0)) as [Hu' | Hu'].
  - assert (Hinv : / u < 0) by (apply Rinv_lt_0_compat; exact Hu').
    destruct (decide (0 <= v)) as [Hv | Hv].
    + assert (v / u <= 0) by (unfold Rdiv; nra).
      assert (atan (v / u) <= 0).
      { rewrite <- atan_0. destruct H as [H | H].
        - left. apply atan_increasing. exact H.
        - rewrite H. lra. }
      lra.
    + assert (0 < v / u) by (unfold Rdiv; nra).
      assert (0 < atan (v / u)).
      { rewrite <- atan_0. apply atan_increasing. exact H. }
      lra.
  - destruct (decide (0 < v)); [lra |].
    destruct (decide (v < 0)); lra.
Qed.

Lemma Math_atan2_zero_pos (u : R) : 0 < u -> Math_atan2 0 u = 0.
Proof.
  intros Hu. unfold Math_atan2.
  destruct (decide (0 < u)); [| lra].
  replace (0 / u) with 0 by (unfold Rdiv; ring). apply atan_0.
Qed.

Lemma Math_atan2_zero_neg (u : R) : u < 0 -> Math_atan2 0 u = PI.
Proof.
  intros Hu. unfold Math_atan2.
  destruct (decide (0 < u)); [lra |].
  destruct (decide (u < 0)); [| lra].
  destruct (decide (0 <= 0)); [| lra].
  replace (0 / u) with 0 by (unfold Rdiv; ring). rewrite atan_0. ring.
Qed.

Lemma Math_atan2_zero_zero : Math_atan2 0 0 = 0.
Proof.
  unfold Math_atan2.
  destruct (decide (0 < 0)); [lra |].
  destruct (decide (0 < 0)); [lra | reflexivity].
Qed.

Lemma Math_atan2_pos (v u : R) : 0 < v -> 0 < Math_atan2 v u.
Proof.
  intros Hv. pose proof PI_RGT_0 as HPI.
  pose proof (atan_bound (v / u)) as Hb.
  unfold Math_atan2.
  destruct (decide (0 < u)) as [Hu | Hu].
  - rewrite <- atan_0. apply atan_increasing.
    apply Rdiv_lt_0_compat; assumption.
  - destruct (decide (u < 0)).
    + destruct (decide (0 <= v)); lra.
    + destruct (decide (0 < v)); lra.
Qed.

Lemma Math_atan2_opp (v u : R) : v <> 0 -> Math_atan2 (- v) u = - Math_atan2 v u.
Proof.
  intros Hv. unfold Math_atan2.
  replace (- v / u) with (- (v / u)) by (unfold Rdiv; ring).
  rewrite atan_opp.
  destruct (decide (0 < u)); [reflexivity |].
  destruct (decide (u < 0)).
  - destruct (decide (0 <= - v)), (decide (0 <= v)); lra.
  - destruct (decide (0 < - v)), (decide (0 < v)),
      (decide (- v < 0)), (decide (v < 0)); lra.
Qed.

Lemma deg_bounds (theta : R) :
  - PI < theta <= PI -> -180 < theta * (180 / PI) <= 180.
Proof.
  intros [Hlo Hhi]. pose proof deg_factor_pos as Hk. pose proof PI_deg as HPI.
  set (k := 180 / PI) in *. split.
  - assert (0 < (theta + PI) * k) by (apply Rmult_lt_0_compat; lra). lra.
  - assert (0 <= (PI - theta) * k) by (apply Rmult_le_pos; lra). lra.
Qed.

Lemma deg_pos (theta : R) : 0 < theta -> 0 < theta * (180 / PI).
Proof. intros H. apply Rmult_lt_0_compat; [exact H | apply deg_factor_pos]. Qed.

(** ** The angle engine *)

(** [computeAngleVector] on a pair of vectors whose cross product is [c] and
    whose dot product is [d]. *)
Lemma computeAngleVector_cross_dot (a b : Vec2) :
  computeAngleVector a b =
  let ang := Math_atan2 (a.1 * b.2 - a.2 * b.1) (a.1 * b.1 + a.2 * b.2) * (180 / PI) in
  if decide (ang < 0) then 360 + ang else ang.
Proof. reflexivity. Qed.

Example computeAngleVector_quarter_turn :
  computeAngleVector (1, 0) (0, 1) = 90 /\ computeAngleVector (0, 1) (1, 0) = 270.
Proof.
  rewrite !computeAngleVector_cross_dot. cbv zeta. cbn [fst snd].
  replace (1 * 1 - 0 * 0) with 1 by ring.
  replace (0 * 0 - 1 * 1) with (- (1)) by ring.
  replace (1 * 0 + 0 * 1) with 0 by ring.
  replace (0 * 1 + 1 * 0) with 0 by ring.
  rewrite Math_atan2_opp by lra.
  assert (H : Math_atan2 1 0 = PI / 2).
  { unfold Math_atan2.
    destruct (decide (0 < 0)); [lra |].
    destruct (decide (0 < 0)); [lra |].
    destruct (decide (0 < 1)); [reflexivity | lra]. }
  rewrite H.
  replace (PI / 2 * (180 / PI)) with 90 by (field; apply PI_neq0).
  replace (- (PI / 2) * (180 / PI)) with (- (90)) by (field; apply PI_neq0).
  destruct (decide (90 < 0)), (decide (- (90) < 0)); lra.
Qed.

(** C1.  [computeAngle] is absent as soon as one of the two joints does not
    resolve on the enriched skeleton; when both resolve, to [v1] for
    [joint1] and [v2] for [joint2], the result is the angle from [v2] to
    [v1]: [computeAngleVector] receives the vector of [joint2] first. *)
Theorem computeAngle_swapped_order (skeleton : gmap string Point) (def : AngleDef) :
  let kps := buildEnrichedSkeleton skeleton in
  (resolveVector def.(AngleDef.joint1) kps = None
   \/ resolveVector def.(AngleDef.joint2) kps = None ->
   computeAngle kps def = None)
  /\ (forall v1 v2 : Vec2,
        resolveVector def.(AngleDef.joint1) kps = Some v1 ->
        resolveVector def.(AngleDef.joint2) kps = Some v2 ->
        computeAngle kps def = Some (computeAngleVector v2 v1)).
Proof.
  intros kps. unfold computeAngle. split.
  - intros [H | H]; rewrite H; [reflexivity |].
    destruct (resolveVector (AngleDef.joint1 def) kps); reflexivity.
  - intros v1 v2 H1 H2. rewrite H1, H2. reflexivity.
Qed.

(** An upper arm along the x axis measured against the vertical: the angle
    is taken from the vertical to the arm (270 degrees by
    [computeAngleVector_quarter_turn]); a joint that does not resolve gives
    no angle. *)
Lemma computeAngle_swapped_order_witness :
  let skeleton : gmap string Point :=
    {[ "leftShoulder"%string := Point.mk 0 0; "leftElbow"%string := Point.mk 1 0 ]} in
  computeAngle (buildEnrichedSkeleton skeleton)
    (AngleDef.mk "leftShoulder" "leftBiceps" "vertical" 0 180)
  = Some (computeAngleVector (0, 1) (1 - 0, 0 - 0))
  /\ computeAngle (buildEnrichedSkeleton skeleton)
       (AngleDef.mk "leftShoulder" "-leftThigh" "vertical" 0 180)
     = None.
Proof.
  intros skeleton. split.
  - apply (proj2 (computeAngle_swapped_order skeleton
                    (AngleDef.mk "leftShoulder" "leftBiceps" "vertical" 0 180)));
      reflexivity.
  - apply (proj1 (computeAngle_swapped_order skeleton
                    (AngleDef.mk "leftShoulder" "-leftThigh" "vertical" 0 180))).
    left. reflexivity.
Defined.

(** ** The scoring engine *)

Section LinearScore.
Import PrimFloat FloatOps SpecFloat FloatAxioms.
Local Open Scope float_scope.

(** The order of binary64 numbers, read off the comparison of their
    decoded forms: a number below or equal to a second one that is below a
    third is not above or equal to the third, and a number below or equal
    to another is not above it. *)
Lemma SF_le_lt_le (a b c : spec_float) :
  SFleb a b = true -> SFltb b c = true -> SFleb c a = false.
Proof.
  unfold SFleb, SFltb.
  destruct a as [sa | sa | | sa ma ea], b as [sb | sb | | sb mb eb],
    c as [sc | sc | | sc mc ec]; cbn;
    repeat match goal with s : bool |- _ => destruct s end; cbn;
    try discriminate; try reflexivity;
    change (Pos.compare_cont Eq) with Pos.compare;
    repeat match goal with
           | |- context [Z.compare ?u ?v] => destruct (Z.compare_spec u v)
           | |- context [Pos.compare ?u ?v] => destruct (Pos.compare_spec u v)
           end; cbn; try discriminate; try reflexivity; intros; exfalso; lia.
Qed.

Lemma SF_le_not_lt (a b : spec_float) : SFleb a b = true -> SFltb b a = false.
Proof.
  unfold SFleb, SFltb.
  destruct a as [sa | sa | | sa ma ea], b as [sb | sb | | sb mb eb]; cbn;
    repeat match goal with s : bool |- _ => destruct s end; cbn;
    try discriminate; try reflexivity;
    change (Pos.compare_cont Eq) with Pos.compare;
    repeat match goal with
           | |- context [Z.compare ?u ?v] => destruct (Z.compare_spec u v)
           | |- context [Pos.compare ?u ?v] => destruct (Pos.compare_spec u v)
           end; cbn; try discriminate; try reflexivity; intros; exfalso; lia.
Qed.

Lemma float_le_lt_le (x y z : float) :
  (x <=? y) = true -> (y <? z) = true -> (z <=? x) = false.
Proof. rewrite !leb_spec, ltb_spec. apply SF_le_lt_le. Qed.

Lemma float_le_not_lt (x y : float) : (x <=? y) = true -> (y <? x) = false.
Proof. rewrite leb_spec, ltb_spec. apply SF_le_not_lt. Qed.

(** C2.  [getLinearScore] on binary64 numbers, case by case: an absent
    value scores 0; on a descending range ([min > max]) a value up to [max]
    scores 100, a value from [min] on scores 0, and every other value
    scores [round (((value - min) / (max - min)) * 100)]; on an ascending
    range ([min <= max]) a value up to 0 scores 0, another value from
    [max] on scores 100, and every other value scores
    [round ((value * 100) / max)], so that the declared [min] of an
    ascending range plays no role.  The operations are those of the code,
    each rounded to binary64, and [round] is [Math.round]; the cases of a
    range are tried in the order in which they are listed. *)
Theorem getLinearScore_cases (value min max : float) :
  Binary64.getLinearScore None min max = 0
  /\ ((max <? min) = true ->
      ((value <=? max) = true -> Binary64.getLinearScore (Some value) min max = 100)
      /\ ((min <=? value) = true -> Binary64.getLinearScore (Some value) min max = 0)
      /\ ((value <=? max) = false -> (min <=? value) = false ->
          Binary64.getLinearScore (Some value) min max
          = Binary64.Math_round (((value - min) / (max - min)) * 100)))
  /\ ((min <=? max) = true ->
      ((value <=? 0) = true -> Binary64.getLinearScore (Some value) min max = 0)
      /\ ((value <=? 0) = false -> (max <=? value) = true ->
          Binary64.getLinearScore (Some value) min max = 100)
      /\ ((value <=? 0) = false -> (max <=? value) = false ->
          Binary64.getLinearScore (Some value) min max
          = Binary64.Math_round ((value * 100) / max))
      /\ (forall min' : float, (min' <=? max) = true ->
          Binary64.getLinearScore (Some value) min' max
          = Binary64.getLinearScore (Some value) min max)).
Proof.
  split; [reflexivity |]. split.
  - intros Hd. unfold Binary64.getLinearScore. rewrite Hd.
    split; [intros H; rewrite H; reflexivity |].
    split.
    + intros H.
      destruct (value <=? max) eqn:E.
      * rewrite (float_le_lt_le value max min E Hd) in H. discriminate H.
      * rewrite H. reflexivity.
    + intros H1 H2. rewrite H1, H2. reflexivity.
  - intros Ha. unfold Binary64.getLinearScore.
    rewrite (float_le_not_lt min max Ha).
    split; [intros H; rewrite H; reflexivity |].
    split; [intros H1 H2; rewrite H1, H2; reflexivity |].
    split; [intros H1 H2; rewrite H1, H2; reflexivity |].
    intros min' Hm. rewrite (float_le_not_lt min' max Hm). reflexivity.
Qed.

(** The boundary values of the specification, the ascending range up to
    180 and the descending range from 50 to 0, and a value in between. *)
Lemma getLinearScore_cases_witness :
  (Binary64.getLinearScore (Some 0) 0 180 = 0
   /\ Binary64.getLinearScore (Some 180) 0 180 = 100
   /\ Binary64.getLinearScore (Some 90) 0 180 = Binary64.Math_round ((90 * 100) / 180)
   /\ Binary64.getLinearScore (Some 90) (-30) 180 = Binary64.getLinearScore (Some 90) 0 180)
  /\ (Binary64.getLinearScore (Some 0) 50 0 = 100
      /\ Binary64.getLinearScore (Some 50) 50 0 = 0
      /\ Binary64.getLinearScore (Some 25) 50 0
         = Binary64.Math_round (((25 - 50) / (0 - 50)) * 100)).
Proof.
  pose proof (getLinearScore_cases 0 0 180) as (_ & _ & A0).
  pose proof (getLinearScore_cases 180 0 180) as (_ & _ & A180).
  pose proof (getLinearScore_cases 90 0 180) as (_ & _ & A90).
  pose proof (getLinearScore_cases 0 50 0) as (_ & D0 & _).
  pose proof (getLinearScore_cases 50 50 0) as (_ & D50 & _).
  pose proof (getLinearScore_cases 25 50 0) as (_ & D25 & _).
  destruct (A0 eq_refl) as (A0' & _).
  destruct (A180 eq_refl) as (_ & A180' & _).
  destruct (A90 eq_refl) as (_ & _ & A90' & A90'').
  destruct (D0 eq_refl) as (D0' & _).
  destruct (D50 eq_refl) as (_ & D50' & _).
  destruct (D25 eq_refl) as (_ & _ & D25').
  split; [split; [| split; [| split]] | split; [| split]].
  - apply A0'. reflexivity.
  - apply A180'; reflexivity.
  - apply A90'; reflexivity.
  - apply A90''. reflexivity.
  - apply D0'. reflexivity.
  - apply D50'. reflexivity.
  - apply D25'; reflexivity.
Defined.

(** The scores of some values: the middle of both ranges, and two values
    whose quotient is rounded below the tie before [Math.round] sees it. *)
Example getLinearScore_midpoints :
  Binary64.getLinearScore (Some 90) 0 180 = 50
  /\ Binary64.getLinearScore (Some 25) 50 0 = 50
  /\ Binary64.getLinearScore (Some 17) 40 0 = 57
  /\ Binary64.getLinearScore (Some 8.5) 20 0 = 57
  /\ Binary64.Math_round 57.5 = 58
  /\ Binary64.Math_round (-2.5) = -2
  /\ Binary64.Math_round (-0.5) = -0.
Proof. vm_compute. repeat split. Qed.

End LinearScore.

Lemma fold_left_Rplus (l : list R) (a : R) :
  fold_left (fun a b => a + b) l a = a + fold_right Rplus 0 l.
Proof.
  revert a. induction l as [| v l IH]; intros a; cbn.
  - ring.
  - rewrite IH. ring.
Qed.

Lemma valid_scores_kept (scores : list R) :
  filter (fun s => s >= 0) scores = Spec.kept scores.
Proof. apply list_filter_iff. intros s. lra. Qed.

Lemma getAverageScore_kept (scores : list R) :
  getAverageScore scores =
  match Spec.kept scores with
  | [] => 0
  | _ :: _ => Math_round (Spec.mean (Spec.kept scores))
  end.
Proof.
  unfold getAverageScore, Spec.mean. rewrite valid_scores_kept.
  destruct (Spec.kept scores) as [| v l] eqn:E.
  - reflexivity.
  - destruct (decide (length (v :: l) = 0%nat)) as [H | _]; [discriminate H |].
    rewrite fold_left_Rplus. f_equal. f_equal. ring.
Qed.

Ltac eval_kept :=
  unfold Spec.kept;
  repeat first
    [ rewrite filter_nil
    | rewrite filter_cons_True by lra
    | rewrite filter_cons_False by lra ].

(** C3.  [getAverageScore] drops the negative entries of [scores]; it is 0
    when nothing is left and the rounded mean of what is left otherwise.
    No score, only sentinels, and two scores around a sentinel give 0, 0
    and 90. *)
Theorem getAverageScore_mean (scores : list R) :
  (Spec.kept scores = [] -> getAverageScore scores = 0)
  /\ (Spec.kept scores <> [] ->
      getAverageScore scores = Math_round (Spec.mean (Spec.kept scores)))
  /\ getAverageScore [] = 0
  /\ getAverageScore [-1; -1] = 0
  /\ getAverageScore [80; -1; 100] = 90.
Proof.
  split; [| split; [| split; [| split]]].
  - intros H. rewrite getAverageScore_kept, H. reflexivity.
  - intros H. rewrite getAverageScore_kept.
    destruct (Spec.kept scores); [contradiction | reflexivity].
  - reflexivity.
  - rewrite getAverageScore_kept. eval_kept. reflexivity.
  - rewrite getAverageScore_kept. eval_kept. unfold Spec.mean. cbn.
    apply (Math_round_near _ 90). lra.
Qed.

Lemma getAverageScore_mean_witness :
  getAverageScore [-1; -1] = 0
  /\ getAverageScore [100; -1; 75; 50] = Math_round (Spec.mean [100; 75; 50]).
Proof.
  pose proof (getAverageScore_mean [-1; -1]) as (H0 & _).
  pose proof (getAverageScore_mean [100; -1; 75; 50]) as (_ & H1 & _).
  assert (K0 : Spec.kept [-1; -1] = []) by (eval_kept; reflexivity).
  assert (K1 : Spec.kept [100; -1; 75; 50] = [100; 75; 50]) by (eval_kept; reflexivity).
  rewrite K0 in H0. rewrite K1 in H1.
  split; [apply H0; reflexivity | apply H1; discriminate].
Defined.

(** ** The test analyzers *)

Lemma buildEnrichedSkeleton_lookup (skeleton : gmap string Point) (k : string) :
  k <> "manubrium"%string -> k <> "pubis"%string ->
  buildEnrichedSkeleton skeleton !! k = skeleton !! k.
Proof.
  intros Hm Hp. unfold buildEnrichedSkeleton.
  destruct (skeleton !! "leftShoulder"%string), (skeleton !! "rightShoulder"%string),
    (skeleton !! "leftHip"%string), (skeleton !! "rightHip"%string);
    rewrite ?lookup_insert_ne by congruence; reflexivity.
Qed.

(** A joint of the dictionary does not resolve when one of its two keypoints
    is missing. *)
Lemma resolveVector_joint_missing (name : string) (def : JointDef)
    (kps : gmap string Point) :
  JOINT_DICT !! name = Some def ->
  strip_minus name = None ->
  kps !! kp1 def = None \/ kps !! kp2 def = None ->
  resolveVector name kps = None.
Proof.
  intros Hdef Hstrip Hkp. unfold resolveVector.
  repeat match goal with |- context [decide ?P] => destruct (decide P) as [-> | _] end;
    try discriminate.
  rewrite Hstrip, Hdef.
  destruct Hkp as [H | H]; rewrite H; [reflexivity |].
  destruct (kps !! kp1 def); reflexivity.
Qed.

Lemma computeAngle_missing (kps : gmap string Point) (def : AngleDef) :
  resolveVector def.(AngleDef.joint1) kps = None
  \/ resolveVector def.(AngleDef.joint2) kps = None ->
  computeAngle kps def = None.
Proof.
  unfold computeAngle. intros [H | H]; rewrite H; [reflexivity |].
  destruct (resolveVector (AngleDef.joint1 def) kps); reflexivity.
Qed.

Lemma Forall_zero_kept (l : list R) : Forall (fun s => s = 0) l -> Spec.kept l = l.
Proof.
  intros H. unfold Spec.kept. induction H as [| v l Hv _ IH].
  - reflexivity.
  - rewrite filter_cons_True by lra. f_equal. exact IH.
Qed.

Lemma Forall_zero_sum (l : list R) : Forall (fun s => s = 0) l -> fold_right Rplus 0 l = 0.
Proof.
  induction 1 as [| v l Hv _ IH]; cbn; [reflexivity | lra].
Qed.

Lemma getAverageScore_zeros (l : list R) :
  Forall (fun s => s = 0) l -> getAverageScore l = 0.
Proof.
  intros H. rewrite getAverageScore_kept, (Forall_zero_kept l H).
  destruct l as [| v l]; [reflexivity |].
  unfold Spec.mean. rewrite (Forall_zero_sum _ H).
  replace (0 / INR (length (v :: l))) with 0 by (unfold Rdiv; ring).
  apply (Math_round_IZR 0).
Qed.

Lemma getAverageScore_sentinels : getAverageScore [-1; -1] = 0.
Proof. rewrite getAverageScore_kept. eval_kept. reflexivity. Qed.

Section MobilityWithoutKeypoints.

Import OrthopedicPoses.

Variable toFixed : R -> nat -> string.
Variable numToString : R -> string.
Variable t : Translator.
Variable dataMap : gmap string AIAnalysisResult.

Lemma lacks_lookup (skeleton : gmap string Point) (names : list string) (k : string) :
  Spec.lacks skeleton names -> k ∈ names -> skeleton !! k = None.
Proof. unfold Spec.lacks. rewrite Forall_forall. auto. Qed.

(** An angle definition that measures [joint] cannot be computed on a
    skeleton that lacks the keypoint [k] of that joint. *)
Lemma computeAngle_lacking (skeleton : gmap string Point) (names : list string)
    (def : AngleDef) (joint k : string) (jd : JointDef) :
  Spec.lacks skeleton names ->
  def.(AngleDef.joint1) = joint \/ def.(AngleDef.joint2) = joint ->
  JOINT_DICT !! joint = Some jd ->
  strip_minus joint = None ->
  k ∈ names -> k <> "manubrium"%string -> k <> "pubis"%string ->
  kp1 jd = k \/ kp2 jd = k ->
  computeAngle (buildEnrichedSkeleton skeleton) def = None.
Proof.
  intros Hl Hj Hjd Hs Hk Hm Hp Hkp.
  assert (Hnone : buildEnrichedSkeleton skeleton !! k = None).
  { rewrite buildEnrichedSkeleton_lookup by assumption.
    eapply lacks_lookup; eassumption. }
  apply computeAngle_missing.
  destruct Hj as [<- | <-]; [left | right];
    (eapply resolveVector_joint_missing; [exact Hjd | exact Hs |]);
    destruct Hkp as [-> | ->]; auto.
Qed.

Ltac lacking Hl joint k :=
  let raw := fresh "raw" in
  let Hraw := fresh "Hraw" in
  intros raw Hraw;
  eapply (computeAngle_lacking _ _ _ joint k);
  [ exact (Hl _ _ Hraw)
  | solve [cbn; auto]
  | reflexivity
  | reflexivity
  | unfold Spec.shoulder_keypoints, Spec.neck_keypoints; solve [repeat constructor]
  | discriminate
  | discriminate
  | solve [cbn; auto] ].

Lemma scorePose_lacking (poseId : string) (angleDef : AngleDef) :
  (forall raw, dataMap !! poseId = Some raw ->
     computeAngle (buildEnrichedSkeleton raw.(AIAnalysisResult.skeleton)) angleDef = None) ->
  scorePose toFixed numToString dataMap poseId angleDef = (-1, "--"%string).
Proof.
  intros H. unfold scorePose.
  destruct (dataMap !! poseId) as [raw |]; [| reflexivity].
  rewrite (H raw eq_refl). reflexivity.
Qed.

(** A pose without an angle adds a line of dashes and no score. *)
Lemma poseBlock_lacking (poseId : string) (angleDef : AngleDef) (label : string)
    (acc : Acc) :
  (forall raw, dataMap !! poseId = Some raw ->
     computeAngle (buildEnrichedSkeleton raw.(AIAnalysisResult.skeleton)) angleDef = None) ->
  (poseBlock toFixed numToString dataMap poseId angleDef label acc).1 = acc.1.
Proof.
  intros H. unfold poseBlock. destruct acc as [scores details].
  rewrite (scorePose_lacking _ _ H).
  destruct (decide (-1 >= 0)); [lra | reflexivity].
Qed.

Lemma frontShoulderBlock_lacking :
  Spec.posesLack dataMap Spec.shoulder_keypoints ->
  Forall (fun s => s = 0) (frontShoulderBlock toFixed dataMap t ([], [])).1.
Proof.
  intros Hl. unfold frontShoulderBlock.
  destruct (dataMap !! "frontShoulder"%string) as [raw |] eqn:Hraw; [| constructor].
  assert (HL : computeAngle (buildEnrichedSkeleton raw.(AIAnalysisResult.skeleton))
                 FRONT_LEFT = None)
    by (revert raw Hraw; lacking Hl "leftBiceps"%string "leftShoulder"%string).
  assert (HR : computeAngle (buildEnrichedSkeleton raw.(AIAnalysisResult.skeleton))
                 FRONT_RIGHT = None)
    by (clear HL; revert raw Hraw;
        lacking Hl "rightBiceps"%string "rightShoulder"%string).
  rewrite HL, HR, getAverageScore_sentinels.
  destruct (decide (0 >= 0)); [| lra].
  cbn. repeat constructor.
Qed.

Lemma analyze_shoulder_mobility_score :
  exists r : HealthReport,
    analyze_shoulder_mobility toFixed numToString dataMap t = Some r
    /\ r.(HealthReport.score) =
       getAverageScore
         (poseBlock toFixed numToString dataMap "rightShoulderBackward" RIGHT_BWD
            (t "pose.shoulder.right_backward" [])
            (poseBlock toFixed numToString dataMap "leftShoulderBackward" LEFT_BWD
               (t "pose.shoulder.left_backward" [])
               (poseBlock toFixed numToString dataMap "rightShoulder" RIGHT_FWD
                  (t "pose.shoulder.right_forward" [])
                  (poseBlock toFixed numToString dataMap "leftShoulder" LEFT_FWD
                     (t "pose.shoulder.left_forward" [])
                     (frontShoulderBlock toFixed dataMap t ([], [])))))).1.
Proof.
  unfold analyze_shoulder_mobility.
  destruct (poseBlock _ _ _ "rightShoulderBackward"%string _ _ _) as [scores details].
  eexists. split; reflexivity.
Qed.

Lemma analyze_neck_mobility_score :
  exists r : HealthReport,
    analyze_neck_mobility toFixed numToString dataMap t = Some r
    /\ r.(HealthReport.score) =
       getAverageScore
         (poseBlock toFixed numToString dataMap "neckBackBend" NECK_BACK
            (t "pose.neck.back_bend" [])
            (poseBlock toFixed numToString dataMap "neckFrontBend" NECK_FRONT
               (t "pose.neck.front_bend" [])
               (poseBlock toFixed numToString dataMap "neckLeftSideBend" NECK_LEFT_SIDE
                  (t "pose.neck.left_side_bend" [])
                  (poseBlock toFixed numToString dataMap "neckRightSideBend" NECK_RIGHT_SIDE
                     (t "pose.neck.right_side_bend" [])
                     ([], []))))).1.
Proof.
  unfold analyze_neck_mobility.
  destruct (poseBlock _ _ _ "neckBackBend"%string _ _ _) as [scores details].
  eexists. split; reflexivity.
Qed.

Lemma analyze_shoulder_mobility_lacking :
  Spec.posesLack dataMap Spec.shoulder_keypoints ->
  exists r : HealthReport,
    analyze_shoulder_mobility toFixed numToString dataMap t = Some r
    /\ r.(HealthReport.score) = 0.
Proof.
  intros Hl. destruct analyze_shoulder_mobility_score as (r & Hr & Hs).
  exists r. split; [exact Hr |]. rewrite Hs.
  apply getAverageScore_zeros.
  rewrite !poseBlock_lacking.
  - apply frontShoulderBlock_lacking, Hl.
  - lacking Hl "leftBiceps"%string "leftShoulder"%string.
  - lacking Hl "rightBiceps"%string "rightShoulder"%string.
  - lacking Hl "leftBiceps"%string "leftShoulder"%string.
  - lacking Hl "rightBiceps"%string "rightShoulder"%string.
Qed.

Lemma analyze_neck_mobility_lacking :
  Spec.posesLack dataMap Spec.neck_keypoints ->
  exists r : HealthReport,
    analyze_neck_mobility toFixed numToString dataMap t = Some r
    /\ r.(HealthReport.score) = 0.
Proof.
  intros Hl. destruct analyze_neck_mobility_score as (r & Hr & Hs).
  exists r. split; [exact Hr |]. rewrite Hs.
  apply getAverageScore_zeros.
  rewrite !poseBlock_lacking.
  - constructor.
  - lacking Hl "neck"%string "nose"%string.
  - lacking Hl "neck"%string "nose"%string.
  - lacking Hl "rightNeck"%string "rightEar"%string.
  - lacking Hl "rightNeck"%string "rightEar"%string.
Qed.

Lemma tiltBlock_lacking (kps : gmap string Point) (lName rName key : string) (acc : Acc) :
  kps !! lName = None \/ kps !! rName = None ->
  tiltBlock toFixed kps lName rName key t acc = acc.
Proof.
  intros H. unfold tiltBlock. destruct acc as [scores details].
  destruct H as [H | H]; rewrite H; [reflexivity |].
  destruct (kps !! lName); reflexivity.
Qed.

Lemma shiftBlock_lacking (kps : gmap string Point) (patientHeight : R)
    (lowerName upperName key : string) (limit : R) (acc : Acc) :
  kps !! lowerName = None \/ kps !! upperName = None ->
  shiftBlock toFixed kps patientHeight lowerName upperName key limit t acc = acc.
Proof.
  intros H. unfold shiftBlock. destruct acc as [scores details].
  destruct H as [H | H]; rewrite H; [reflexivity |].
  destruct (kps !! lowerName); reflexivity.
Qed.

Lemma enriched_lacking (raw : AIAnalysisResult) (k : string) :
  Spec.lacks raw.(AIAnalysisResult.skeleton) Spec.posture_keypoints ->
  k ∈ Spec.posture_keypoints ->
  buildEnrichedSkeleton raw.(AIAnalysisResult.skeleton) !! k = None.
Proof.
  intros Hl Hk.
  rewrite buildEnrichedSkeleton_lookup.
  - eapply lacks_lookup; eassumption.
  - intros ->. unfold Spec.posture_keypoints in Hk.
    repeat (apply elem_of_cons in Hk as [Hk | Hk]; [discriminate Hk |]).
    apply elem_of_nil in Hk. exact Hk.
  - intros ->. unfold Spec.posture_keypoints in Hk.
    repeat (apply elem_of_cons in Hk as [Hk | Hk]; [discriminate Hk |]).
    apply elem_of_nil in Hk. exact Hk.
Qed.

Lemma analyze_posture_analysis_lacking (patientHeight : R) :
  Spec.posesLack dataMap Spec.posture_keypoints ->
  exists r : HealthReport,
    analyze_posture_analysis toFixed dataMap t patientHeight = Some r
    /\ r.(HealthReport.score) = 0.
Proof.
  intros Hl. unfold analyze_posture_analysis.
  assert (Hfront :
    match dataMap !! "front"%string with
    | Some raw =>
        let kps := buildEnrichedSkeleton raw.(AIAnalysisResult.skeleton) in
        tiltBlock toFixed kps "leftHip" "rightHip" "detail.posture.hip_tilt" t
          (tiltBlock toFixed kps "leftShoulder" "rightShoulder"
             "detail.posture.shoulder_tilt" t ([], []))
    | None => ([], [])
    end = ([], [])).
  { destruct (dataMap !! "front"%string) as [raw |] eqn:E; [| reflexivity].
    cbv zeta. rewrite !tiltBlock_lacking; [reflexivity | |];
      left; apply enriched_lacking; [exact (Hl _ _ E) | | exact (Hl _ _ E) |];
      unfold Spec.posture_keypoints; repeat constructor. }
  cbv zeta in Hfront. cbv zeta. rewrite Hfront.
  assert (Hside :
    match dataMap !! "side"%string with
    | Some raw =>
        let kps := buildEnrichedSkeleton raw.(AIAnalysisResult.skeleton) in
        shiftBlock toFixed kps patientHeight "leftAnkle" "leftShoulder"
          "detail.posture.shoulder_shift" 8 t
          (shiftBlock toFixed kps patientHeight "leftAnkle" "leftEar"
             "detail.posture.ear_shift" 13 t ([], []))
    | None => ([], [])
    end = ([], [])).
  { destruct (dataMap !! "side"%string) as [raw |] eqn:E; [| reflexivity].
    cbv zeta. rewrite !shiftBlock_lacking; [reflexivity | |];
      left; apply enriched_lacking; [exact (Hl _ _ E) | | exact (Hl _ _ E) |];
      unfold Spec.posture_keypoints; repeat constructor. }
  cbv zeta in Hside. rewrite Hside.
  eexists. split; [reflexivity |]. reflexivity.
Qed.

End MobilityWithoutKeypoints.

Lemma lacks_empty (names : list string) : Spec.lacks ∅ names.
Proof. unfold Spec.lacks. apply Forall_forall. intros k _. apply lookup_empty. Qed.

(** C4, as the code has it.  The tests on a single skeleton give no report
    when a keypoint they need is missing: [shoulder_level] when either
    shoulder is missing, [forward_head] when both ears or both shoulders are
    missing, [leg_alignment] when a hip, knee or ankle is missing, and each
    of them on a skeleton without keypoints.  The tests on several poses
    give a report on every input: for [shoulder_mobility], [neck_mobility]
    and [posture_analysis] the score of that report is 0 when no pose
    contains a keypoint of the test, and [wrist_mobility] reports the score
    -1 on every input. *)
Theorem analyze_insufficient_data
    (toFixed : R -> nat -> string) (numToString : R -> string) (t : Translator) :
  (forall data : gmap string Point,
     data !! "leftShoulder"%string = None \/ data !! "rightShoulder"%string = None ->
     OrthopedicService.analyze_shoulder_level data t = None)
  /\ (forall data : gmap string Point,
        (data !! "leftEar"%string = None /\ data !! "rightEar"%string = None)
        \/ (data !! "leftShoulder"%string = None /\ data !! "rightShoulder"%string = None) ->
        OrthopedicService.analyze_forward_head data t = None)
  /\ (forall data : gmap string Point,
        Exists (fun k => data !! k = None)
          [ "leftHip"; "leftKnee"; "leftAnkle"; "rightHip"; "rightKnee"; "rightAnkle" ]%string ->
        OrthopedicService.analyze_leg_alignment data t = None)
  /\ Forall (fun test => OrthopedicService.OrthopedicTest.analyze test ∅ t = None)
       OrthopedicService.getOrthopedicTests
  /\ (forall dataMap : gmap string AIAnalysisResult,
        Forall (fun test => OrthopedicPoses.OrthopedicTest.analyze test dataMap t <> None)
          (OrthopedicPoses.getOrthopedicTests toFixed numToString))
  /\ (forall dataMap : gmap string AIAnalysisResult,
        Spec.posesLack dataMap Spec.shoulder_keypoints ->
        exists r : HealthReport,
          OrthopedicPoses.analyze_shoulder_mobility toFixed numToString dataMap t = Some r
          /\ r.(HealthReport.score) = 0)
  /\ (forall dataMap : gmap string AIAnalysisResult,
        Spec.posesLack dataMap Spec.neck_keypoints ->
        exists r : HealthReport,
          OrthopedicPoses.analyze_neck_mobility toFixed numToString dataMap t = Some r
          /\ r.(HealthReport.score) = 0)
  /\ (forall (dataMap : gmap string AIAnalysisResult) (patientHeight : R),
        Spec.posesLack dataMap Spec.posture_keypoints ->
        exists r : HealthReport,
          OrthopedicPoses.analyze_posture_analysis toFixed dataMap t patientHeight = Some r
          /\ r.(HealthReport.score) = 0)
  /\ (forall dataMap : gmap string AIAnalysisResult,
        exists r : HealthReport,
          OrthopedicPoses.analyze_wrist_mobility dataMap t = Some r
          /\ r.(HealthReport.score) = -1).
Proof.
  split; [| split; [| split; [| split; [| split; [| split; [| split; [| split]]]]]]].
  - intros data [H | H]; unfold OrthopedicService.analyze_shoulder_level; rewrite H;
      [reflexivity |].
    destruct (data !! "leftShoulder"%string); reflexivity.
  - intros data [[H1 H2] | [H1 H2]]; unfold OrthopedicService.analyze_forward_head;
      rewrite H1, H2; cbn [OrthopedicService.orElse]; [reflexivity |].
    destruct (OrthopedicService.orElse (data !! "leftEar"%string) (data !! "rightEar"%string));
      reflexivity.
  - intros data H. unfold OrthopedicService.analyze_leg_alignment.
    repeat (apply Exists_cons in H as [H | H];
            [rewrite H;
             repeat match goal with
                    | |- context [match data !! ?k with _ => _ end] =>
                        destruct (data !! k)
                    end; reflexivity |]).
    apply Exists_nil in H. contradiction.
  - repeat constructor.
  - intros dataMap. repeat constructor; cbn [OrthopedicPoses.OrthopedicTest.analyze].
    + destruct (analyze_shoulder_mobility_score toFixed numToString t dataMap)
        as (r & -> & _). discriminate.
    + destruct (analyze_neck_mobility_score toFixed numToString t dataMap)
        as (r & -> & _). discriminate.
    + discriminate.
    + unfold OrthopedicPoses.analyze_posture_analysis.
      repeat match goal with
             | |- context [let '(_, _) := ?e in _] => destruct e
             end.
      discriminate.
  - intros dataMap. apply analyze_shoulder_mobility_lacking.
  - intros dataMap. apply analyze_neck_mobility_lacking.
  - intros dataMap patientHeight. apply analyze_posture_analysis_lacking.
  - intros dataMap. eexists. split; reflexivity.
Qed.

Lemma posesLack_noKeypoints (poses names : list string) :
  Spec.posesLack (list_to_map ((fun pose => (pose, Spec.noKeypoints)) <$> poses)) names.
Proof.
  intros pose raw H. apply elem_of_list_to_map_2 in H.
  apply list_elem_of_fmap in H as (p & [= _ ->] & _).
  apply lacks_empty.
Qed.

Lemma analyze_insufficient_data_witness :
  let t : Translator := fun key _ => key in
  let toFixed : R -> nat -> string := fun _ _ => "0.0"%string in
  let numToString : R -> string := fun _ => "0"%string in
  let oneShoulder : gmap string Point :=
    {[ "leftShoulder"%string := Point.mk (3 / 10) (4 / 10) ]} in
  let without (poses : list string) : gmap string AIAnalysisResult :=
    list_to_map ((fun pose => (pose, Spec.noKeypoints)) <$> poses) in
  OrthopedicService.analyze_shoulder_level oneShoulder t = None
  /\ OrthopedicService.analyze_forward_head oneShoulder t = None
  /\ OrthopedicService.analyze_leg_alignment oneShoulder t = None
  /\ (exists r : HealthReport,
        OrthopedicPoses.analyze_shoulder_mobility toFixed numToString
          (without [ "frontShoulder"; "leftShoulder"; "rightShoulder";
                     "leftShoulderBackward"; "rightShoulderBackward" ]%string) t = Some r
        /\ r.(HealthReport.score) = 0)
  /\ (exists r : HealthReport,
        OrthopedicPoses.analyze_neck_mobility toFixed numToString
          (without [ "neckRightSideBend"; "neckLeftSideBend"; "neckFrontBend";
                     "neckBackBend" ]%string) t = Some r
        /\ r.(HealthReport.score) = 0)
  /\ (exists r : HealthReport,
        OrthopedicPoses.analyze_posture_analysis toFixed
          (without [ "front"; "side" ]%string) t 170 = Some r
        /\ r.(HealthReport.score) = 0).
Proof.
  intros t toFixed numToString oneShoulder without.
  pose proof (analyze_insufficient_data toFixed numToString t)
    as (H1 & H2 & H3 & _ & _ & H4 & H5 & H6 & _).
  split; [| split; [| split; [| split; [| split]]]].
  - apply H1. right. reflexivity.
  - apply H2. left. split; reflexivity.
  - apply H3. left. reflexivity.
  - apply H4, posesLack_noKeypoints.
  - apply H5, posesLack_noKeypoints.
  - apply H6, posesLack_noKeypoints.
Defined.

(** C4 as stated fails: with every pose present and no keypoint in any of
    them, [shoulder_mobility] and [neck_mobility] return a report, with
    score 0, and not the absence of a report. *)
Lemma analyze_mobility_reports_without_keypoints :
  let t : Translator := fun key _ => key in
  let toFixed : R -> nat -> string := fun _ _ => "0.0"%string in
  let numToString : R -> string := fun _ => "0"%string in
  let shoulderPoses : gmap string AIAnalysisResult :=
    list_to_map ((fun pose => (pose, Spec.noKeypoints)) <$>
      [ "frontShoulder"; "leftShoulder"; "rightShoulder";
        "leftShoulderBackward"; "rightShoulderBackward" ]%string) in
  let neckPoses : gmap string AIAnalysisResult :=
    list_to_map ((fun pose => (pose, Spec.noKeypoints)) <$>
      [ "neckRightSideBend"; "neckLeftSideBend"; "neckFrontBend";
        "neckBackBend" ]%string) in
  Spec.posesLack shoulderPoses Spec.shoulder_keypoints
  /\ Spec.posesLack neckPoses Spec.neck_keypoints
  /\ OrthopedicPoses.analyze_shoulder_mobility toFixed numToString shoulderPoses t <> None
  /\ OrthopedicPoses.analyze_neck_mobility toFixed numToString neckPoses t <> None
  /\ OrthopedicPoses.analyze_shoulder_mobility toFixed numToString ∅ t <> None.
Proof.
  intros t toFixed numToString shoulderPoses neckPoses.
  split; [apply posesLack_noKeypoints |].
  split; [apply posesLack_noKeypoints |].
  split; [| split].
  - destruct (analyze_shoulder_mobility_score toFixed numToString t shoulderPoses)
      as (r & -> & _). discriminate.
  - destruct (analyze_neck_mobility_score toFixed numToString t neckPoses)
      as (r & -> & _). discriminate.
  - destruct (analyze_shoulder_mobility_score toFixed numToString t ∅)
      as (r & -> & _). discriminate.
Qed.

(** ** Editor geometry *)

Lemma getDistance_sqr (p q : Point) :
  getDistance p q =
  sqrt ((q.(Point.x) - p.(Point.x)) ^ 2 + (q.(Point.y) - p.(Point.y)) ^ 2).
Proof. reflexivity. Qed.

Lemma sum_sqr_nonneg (u v : R) : 0 <= u ^ 2 + v ^ 2.
Proof. nra. Qed.

(** Comparing a distance with a tolerance is comparing squares. *)
Lemma getDistance_lt (p q : Point) (tol : R) :
  0 < tol ->
  (q.(Point.x) - p.(Point.x)) ^ 2 + (q.(Point.y) - p.(Point.y)) ^ 2 < tol * tol ->
  getDistance p q < tol.
Proof.
  intros Htol H. rewrite getDistance_sqr.
  rewrite <- (sqrt_square tol) by lra.
  apply sqrt_lt_1; [apply sum_sqr_nonneg | nra | exact H].
Qed.

Lemma getDistance_ge (p q : Point) (tol : R) :
  0 <= tol ->
  tol * tol <= (q.(Point.x) - p.(Point.x)) ^ 2 + (q.(Point.y) - p.(Point.y)) ^ 2 ->
  ~ getDistance p q < tol.
Proof.
  intros Htol H. rewrite getDistance_sqr.
  rewrite <- (sqrt_square tol) by lra.
  apply Rle_not_lt, sqrt_le_1; [nra | apply sum_sqr_nonneg | exact H].
Qed.


(** One turn of the loop of [hitTestAngle] on an angle whose three points
    exist. *)
Lemma hitTestAngle_step (x y : R) (angle : EditorAngle) (rest : list EditorAngle)
    (points : list EditorPoint) (layout : EditorLayout) (tolerance : R)
    (p1 pc p2 : EditorPoint) :
  findPoint points angle.(EditorAngle.p1) = Some p1 ->
  findPoint points angle.(EditorAngle.center) = Some pc ->
  findPoint points angle.(EditorAngle.p2) = Some p2 ->
  let sc := project pc layout in
  let s1 := project p1 layout in
  let s2 := project p2 layout in
  let startAngle := Math_atan2 (s1.(Point.y) - sc.(Point.y)) (s1.(Point.x) - sc.(Point.x)) in
  let endAngle := Math_atan2 (s2.(Point.y) - sc.(Point.y)) (s2.(Point.x) - sc.(Point.x)) in
  let d := endAngle - startAngle in
  let diff :=
    if decide (d > PI) then d - 2 * PI
    else if decide (d <= - PI) then d + 2 * PI
    else d in
  let midAngle := startAngle + diff / 2 in
  let label :=
    Point.mk (sc.(Point.x) + cos midAngle * 45) (sc.(Point.y) + sin midAngle * 45) in
  hitTestAngle x y (angle :: rest) points layout tolerance =
  if decide (getDistance (Point.mk x y) label < tolerance)
  then Some angle.(EditorAngle.id)
  else hitTestAngle x y rest points layout tolerance.
Proof.
  intros H1 Hc H2. cbn [hitTestAngle]. rewrite H1, Hc, H2. reflexivity.
Qed.

(** An angle of which a point is missing is passed over. *)
Lemma hitTestAngle_skip (x y : R) (angle : EditorAngle) (rest : list EditorAngle)
    (points : list EditorPoint) (layout : EditorLayout) (tolerance : R) :
  findPoint points angle.(EditorAngle.p1) = None
  \/ findPoint points angle.(EditorAngle.center) = None
  \/ findPoint points angle.(EditorAngle.p2) = None ->
  hitTestAngle x y (angle :: rest) points layout tolerance =
  hitTestAngle x y rest points layout tolerance.
Proof.
  intros H. cbn [hitTestAngle].
  destruct (findPoint points (EditorAngle.p1 angle)),
    (findPoint points (EditorAngle.center angle)),
    (findPoint points (EditorAngle.p2 angle)); try reflexivity;
    destruct H as [H | [H | H]]; discriminate H.
Qed.

(** What the code calls [project] and [getDistance] are the projection to
    render space and the distance of the plane. *)
Lemma project_render (p : EditorPoint) (layout : EditorLayout) :
  project p layout = Spec.render p layout.
Proof. reflexivity. Qed.

Lemma getDistance_dist (p q : Point) : getDistance p q = Spec.dist p q.
Proof. reflexivity. Qed.

(** [findPoint] returns the first point of the list with the id. *)
Lemma findPoint_first (points : list EditorPoint) (i : string) (p : EditorPoint) :
  findPoint points i = Some p <-> Spec.firstWithId points i p.
Proof.
  unfold findPoint, Spec.firstWithId.
  induction points as [| q points IH]; cbn [List.find].
  - split; [discriminate |].
    intros (before & after & E & _). destruct before; discriminate E.
  - destruct (bool_decide (EditorPoint.id q = i)) eqn:E.
    + apply bool_decide_eq_true_1 in E. split.
      * intros [= <-]. exists [], points.
        split; [reflexivity | split; [exact E | constructor]].
      * intros (before & after & Heq & Hid & Hb). destruct before as [| b before].
        -- injection Heq as -> _. reflexivity.
        -- injection Heq as <- _. apply Forall_cons in Hb as [Hb _]. contradiction.
    + apply bool_decide_eq_false_1 in E. rewrite IH. split.
      * intros (before & after & -> & Hid & Hb). exists (q :: before), after.
        split; [reflexivity | split; [exact Hid | constructor; assumption]].
      * intros (before & after & Heq & Hid & Hb). destruct before as [| b before].
        -- injection Heq as <- _. contradiction.
        -- injection Heq as <- ->. apply Forall_cons in Hb as [_ Hb].
           exists before, after. split; [reflexivity | split; assumption].
Qed.

(** A loop that returns the id of the first element that passes a test:
    it returns nothing exactly when no element passes, and an id exactly
    when it is the id of the first element that passes. *)
Lemma first_match {A : Type} (near : A -> Prop) (id : A -> string)
    (hit : list A -> option string) :
  hit [] = None ->
  (forall (a : A) (rest : list A),
      (near a /\ hit (a :: rest) = Some (id a))
      \/ (~ near a /\ hit (a :: rest) = hit rest)) ->
  forall l : list A,
    (hit l = None <-> Forall (fun a => ~ near a) l)
    /\ (forall i : string,
          hit l = Some i <->
          exists (before : list A) (a : A) (after : list A),
            l = before ++ a :: after
            /\ Forall (fun a' => ~ near a') before /\ near a /\ id a = i).
Proof.
  intros Hnil Hstep. induction l as [| a rest [IHn IHs]].
  - rewrite Hnil. split; [split; [constructor | reflexivity] |].
    intros i. split; [discriminate |].
    intros (before & a & after & E & _). destruct before; discriminate E.
  - destruct (Hstep a rest) as [[Hd ->] | [Hd ->]].
    + split.
      * split; [discriminate |]. intros H. apply Forall_cons in H as [H _]. contradiction.
      * intros i. split.
        -- intros [= <-]. exists [], a, rest.
           split; [reflexivity | split; [constructor | split; [exact Hd | reflexivity]]].
        -- intros (before & q & after & E & Hb & Hq & Hi).
           destruct before as [| b before].
           ++ injection E as -> _. rewrite Hi. reflexivity.
           ++ injection E as <- _. apply Forall_cons in Hb as [Hb _]. contradiction.
    + split.
      * rewrite IHn. split; [intros H; constructor; assumption |].
        intros H. apply Forall_cons in H as [_ H]. exact H.
      * intros i. rewrite IHs. split.
        -- intros (before & q & after & -> & Hb & Hq & Hi).
           exists (a :: before), q, after.
           split; [reflexivity | split; [constructor; assumption | split; assumption]].
        -- intros (before & q & after & E & Hb & Hq & Hi).
           destruct before as [| b before].
           ++ injection E as <- _. contradiction.
           ++ injection E as <- ->. apply Forall_cons in Hb as [_ Hb].
              exists before, q, after.
              split; [reflexivity | split; [exact Hb | split; assumption]].
Qed.



Lemma Math_atan2_flat (v u : R) : v = 0 -> 0 < u -> Math_atan2 v u = 0.
Proof. intros -> Hu. apply Math_atan2_zero_pos, Hu. Qed.

(** Both arms pointing along the x axis: the label is 45 pixels to the right
    of the projected center. *)
Lemma hitTestAngle_flat (x y : R) (angle : EditorAngle) (rest : list EditorAngle)
    (points : list EditorPoint) (layout : EditorLayout) (tolerance : R)
    (p1 pc p2 : EditorPoint) :
  findPoint points angle.(EditorAngle.p1) = Some p1 ->
  findPoint points angle.(EditorAngle.center) = Some pc ->
  findPoint points angle.(EditorAngle.p2) = Some p2 ->
  (project p1 layout).(Point.y) = (project pc layout).(Point.y) ->
  (project p2 layout).(Point.y) = (project pc layout).(Point.y) ->
  (project pc layout).(Point.x) < (project p1 layout).(Point.x) ->
  (project pc layout).(Point.x) < (project p2 layout).(Point.x) ->
  hitTestAngle x y (angle :: rest) points layout tolerance =
  if decide (getDistance (Point.mk x y)
               (Point.mk ((project pc layout).(Point.x) + 45) (project pc layout).(Point.y))
             < tolerance)
  then Some angle.(EditorAngle.id)
  else hitTestAngle x y rest points layout tolerance.
Proof.
  intros H1 Hc H2 Hy1 Hy2 Hx1 Hx2.
  rewrite (hitTestAngle_step x y angle rest points layout tolerance p1 pc p2 H1 Hc H2).
  cbv zeta. pose proof PI_RGT_0 as HPI.
  rewrite !Math_atan2_flat by lra.
  destruct (decide (0 - 0 > PI)); [lra |].
  destruct (decide (0 - 0 <= - PI)); [lra |].
  replace (0 + (0 - 0) / 2) with 0 by lra.
  rewrite cos_0, sin_0.
  replace (Point.x (project pc layout) + 1 * 45)
    with (Point.x (project pc layout) + 45) by ring.
  replace (Point.y (project pc layout) + 0 * 45)
    with (Point.y (project pc layout)) by ring.
  reflexivity.
Qed.

(** ** The editor tool state machine

    The statements below are about [handleStart] with the skeleton shown.
    The handler tests the result of a hit test, the pending start and the
    candidate ids of an angle with [if (id)]: an element is hit, and a start
    is pending, when the id is a non-empty string; [truthy v = Some id] says
    so. *)

Import EditorCanvas.

Lemma truthy_Some (v : option string) (s : string) :
  truthy v = Some s <-> v = Some s /\ s <> EmptyString.
Proof.
  unfold truthy. destruct v as [s' |]; [| split; [discriminate | intros [H _]; discriminate H]].
  destruct (decide (s' = EmptyString)) as [-> | Hne].
  - split; [discriminate | intros [[= <-] H]; contradiction].
  - split; [intros [= <-]; auto | intros [[= <-] _]; reflexivity].
Qed.

Lemma truthy_id (s : string) : s <> EmptyString -> truthy (Some s) = Some s.
Proof. intros H. apply truthy_Some. auto. Qed.

Lemma hitTestConnection_elem (x y : R) (connections : list EditorConnection)
    (points : list EditorPoint) (layout : EditorLayout) (tolerance : R) (l : string) :
  hitTestConnection x y connections points layout tolerance = Some l ->
  exists conn : EditorConnection, conn ∈ connections /\ conn.(EditorConnection.id) = l.
Proof.
  induction connections as [| c rest IH]; cbn [hitTestConnection]; [discriminate |].
  intros H.
  assert (Hrest : hitTestConnection x y rest points layout tolerance = Some l ->
                  exists conn, conn ∈ c :: rest /\ conn.(EditorConnection.id) = l).
  { intros H'. destruct (IH H') as (conn & Hin & Hid).
    exists conn. split; [right; exact Hin | exact Hid]. }
  destruct (findPoint points (EditorConnection.from c)); [| auto].
  destruct (findPoint points (EditorConnection.to c)); [| auto].
  destruct (decide (_ < tolerance)); [| auto].
  injection H as <-. exists c. split; [left | reflexivity].
Qed.

Lemma findConnection_Some (connections : list EditorConnection) (l : string)
    (conn : EditorConnection) :
  findConnection connections l = Some conn ->
  conn ∈ connections /\ conn.(EditorConnection.id) = l.
Proof.
  unfold findConnection. intros H. apply find_some in H as [Hin Hid].
  split; [apply list_elem_of_In; exact Hin |].
  apply bool_decide_eq_true_1 in Hid. exact Hid.
Qed.

Lemma findConnection_elem (connections : list EditorConnection) (c : EditorConnection) :
  c ∈ connections ->
  exists conn : EditorConnection,
    findConnection connections c.(EditorConnection.id) = Some conn.
Proof.
  intros Hin. unfold findConnection.
  destruct (List.find _ connections) as [conn |] eqn:E; [eauto |].
  apply list_elem_of_In in Hin.
  pose proof (find_none _ _ E c Hin) as H. cbn in H.
  apply bool_decide_eq_false_1 in H. contradiction.
Qed.

(** What DELETE does once the angle label is not hit and the point
    [hitPoint] is. *)
Lemma delete_point_data (layout : EditorLayout) (x y : R) (newId : string)
    (hitPointId hitLineId hitAngleId : option string) (st : EditorState)
    (hitPoint : string) :
  truthy hitAngleId = None ->
  truthy hitPointId = Some hitPoint ->
  let d := st.(EditorState.editorData) in
  (handleStartHits DELETE layout x y newId hitPointId hitLineId hitAngleId st)
    .(EditorState.editorData)
  = EditorData.mk
      (filter (fun p => p.(EditorPoint.id) <> hitPoint) d.(EditorData.points))
      (filter (fun c => c.(EditorConnection.from) <> hitPoint
                        /\ c.(EditorConnection.to) <> hitPoint)
         d.(EditorData.connections))
      (filter (fun a => a.(EditorAngle.p1) <> hitPoint
                        /\ a.(EditorAngle.center) <> hitPoint
                        /\ a.(EditorAngle.p2) <> hitPoint)
         d.(EditorData.angles)).
Proof.
  intros Ha Hp. unfold handleStartHits. rewrite Ha, Hp. reflexivity.
Qed.

(** C5, as the code has it.  Under DELETE, a pointer-down that hits no angle
    label and hits the point [hitPoint] keeps of the graph exactly the
    points other than [hitPoint], the connections that do not start or end
    at it and the angles that do not use it: the new graph has no point
    with this id and no connection or angle that refers to it. *)
Theorem delete_point_cascade (layout : EditorLayout) (x y : R) (newId : string)
    (st : EditorState) (hitPoint : string) :
  let d := st.(EditorState.editorData) in
  truthy (hitTestAngle x y d.(EditorData.angles) d.(EditorData.points) layout 35) = None ->
  truthy (hitTestPoint x y d.(EditorData.points) layout 45) = Some hitPoint ->
  let d' := (handleStart true DELETE layout x y newId st).(EditorState.editorData) in
  (forall p, p ∈ d'.(EditorData.points) <->
             p ∈ d.(EditorData.points) /\ p.(EditorPoint.id) <> hitPoint)
  /\ (forall c, c ∈ d'.(EditorData.connections) <->
                c ∈ d.(EditorData.connections)
                /\ c.(EditorConnection.from) <> hitPoint
                /\ c.(EditorConnection.to) <> hitPoint)
  /\ (forall a, a ∈ d'.(EditorData.angles) <->
                a ∈ d.(EditorData.angles)
                /\ a.(EditorAngle.p1) <> hitPoint
                /\ a.(EditorAngle.center) <> hitPoint
                /\ a.(EditorAngle.p2) <> hitPoint)
  /\ d'.(EditorData.points)
     = filter (fun p => p.(EditorPoint.id) <> hitPoint) d.(EditorData.points)
  /\ d'.(EditorData.connections)
     = filter (fun c => c.(EditorConnection.from) <> hitPoint
                        /\ c.(EditorConnection.to) <> hitPoint)
         d.(EditorData.connections)
  /\ d'.(EditorData.angles)
     = filter (fun a => a.(EditorAngle.p1) <> hitPoint
                        /\ a.(EditorAngle.center) <> hitPoint
                        /\ a.(EditorAngle.p2) <> hitPoint)
         d.(EditorData.angles).
Proof.
  intros d Ha Hp d'. subst d'. unfold handleStart. cbn [negb]. cbv zeta.
  rewrite (delete_point_data layout x y newId _ _ _ st hitPoint Ha Hp).
  cbn [EditorData.points EditorData.connections EditorData.angles].
  split; [| split; [| split; [| auto]]].
  - intros p. rewrite list_elem_of_filter. tauto.
  - intros c. rewrite list_elem_of_filter. tauto.
  - intros a. rewrite list_elem_of_filter. tauto.
Qed.

(** Evaluation of the hit tests on the two example graphs. *)

Ltac project_example :=
  cbv [project Example.layout Example.ptA Example.ptB Example.ptC Example.ptD
       Example.ptE Point.x Point.y EditorPoint.x EditorPoint.y EditorPoint.id
       EditorLayout.offsetX EditorLayout.offsetY
       EditorLayout.renderW EditorLayout.renderH].

Ltac near := apply getDistance_lt; [lra | project_example; lra].
Ltac far := apply getDistance_ge; [lra | project_example; lra].

Lemma fan_hitTestAngle (x y tolerance : R) :
  hitTestAngle x y (EditorData.angles Example.fan) (EditorData.points Example.fan)
    Example.layout tolerance
  = if decide (getDistance (Point.mk x y) (Point.mk 145 100) < tolerance)
    then Some "ang"%string else None.
Proof.
  unfold Example.fan. cbn [EditorData.angles EditorData.points].
  rewrite (hitTestAngle_flat x y (EditorAngle.mk "ang" "B" "A" "D") []
             [Example.ptA; Example.ptB; Example.ptD] Example.layout tolerance
             Example.ptB Example.ptA Example.ptD eq_refl eq_refl eq_refl)
    by (project_example; lra).
  replace (Point.mk (Point.x (project Example.ptA Example.layout) + 45)
                    (Point.y (project Example.ptA Example.layout)))
    with (Point.mk 145 100) by (project_example; f_equal; lra).
  reflexivity.
Qed.



Lemma fan_hitTestPoint_A (x y : R) :
  (x - 100) ^ 2 + (y - 100) ^ 2 < 45 * 45 ->
  hitTestPoint x y (EditorData.points Example.fan) Example.layout 45 = Some "A"%string.
Proof.
  intros H. unfold Example.fan. cbn [EditorData.points hitTestPoint].
  destruct (decide (getDistance _ (project Example.ptA Example.layout) < 45)) as [_ | Hn];
    [reflexivity |].
  exfalso. apply Hn. apply getDistance_lt; [lra | project_example; nra].
Qed.

Lemma delete_point_cascade_witness :
  let st := Example.idle Example.fan in
  let d' := (handleStart true DELETE Example.layout 80 100 "n1" st).(EditorState.editorData) in
  d'.(EditorData.points) = [Example.ptB; Example.ptD]
  /\ d'.(EditorData.connections) = []
  /\ d'.(EditorData.angles) = [].
Proof.
  intros st d'.
  assert (Ha : truthy (hitTestAngle 80 100 (EditorData.angles Example.fan)
                         (EditorData.points Example.fan) Example.layout 35) = None).
  { rewrite fan_hitTestAngle.
    destruct (decide (getDistance (Point.mk 80 100) (Point.mk 145 100) < 35)) as [Hd | _];
      [| reflexivity].
    exfalso. revert Hd. far. }
  assert (Hp : truthy (hitTestPoint 80 100 (EditorData.points Example.fan)
                         Example.layout 45) = Some "A"%string).
  { rewrite fan_hitTestPoint_A by lra. reflexivity. }
  destruct (delete_point_cascade Example.layout 80 100 "n1" st "A" Ha Hp)
    as (_ & _ & _ & Hpoints & Hconns & Hangles).
  subst d'. rewrite Hpoints, Hconns, Hangles. repeat split.
Defined.

(** C5 as stated fails when the pointer-down hits an angle label as well.
    In the fan, the cursor at (120, 100) is 20 pixels from A and 25 pixels
    from the label of the angle at A: the point is hit, the angle label is
    hit, DELETE removes the angle only, and A and its two connections
    stay. *)
Lemma delete_point_behind_label :
  let st := Example.idle Example.fan in
  let st' := handleStart true DELETE Example.layout 120 100 "n1" st in
  hitTestPoint 120 100 (EditorData.points Example.fan) Example.layout 45 = Some "A"%string
  /\ hitTestAngle 120 100 (EditorData.angles Example.fan) (EditorData.points Example.fan)
       Example.layout 35 = Some "ang"%string
  /\ Example.ptA ∈ st'.(EditorState.editorData).(EditorData.points)
  /\ st'.(EditorState.editorData).(EditorData.connections)
     = [ EditorConnection.mk "c1" "A" "B"; EditorConnection.mk "c2" "A" "D" ]
  /\ st'.(EditorState.editorData).(EditorData.angles) = [].
Proof.
  intros st st'.
  assert (Hp : hitTestPoint 120 100 (EditorData.points Example.fan) Example.layout 45
               = Some "A"%string) by (apply fan_hitTestPoint_A; lra).
  assert (Ha : hitTestAngle 120 100 (EditorData.angles Example.fan)
                 (EditorData.points Example.fan) Example.layout 35 = Some "ang"%string).
  { rewrite fan_hitTestAngle.
    destruct (decide (getDistance (Point.mk 120 100) (Point.mk 145 100) < 35)) as [_ | Hn];
      [reflexivity |].
    exfalso. apply Hn. near. }
  split; [exact Hp |]. split; [exact Ha |].
  subst st'. unfold handleStart. cbn [negb]. cbv zeta.
  change (EditorState.editorData st) with Example.fan.
  rewrite Hp, Ha. cbn. repeat split. left.
Qed.

Lemma usesConn_restsOn (conn : EditorConnection) (a : EditorAngle) :
  usesConn conn.(EditorConnection.from) conn.(EditorConnection.to) a <-> Spec.restsOn conn a.
Proof. reflexivity. Qed.

(** C6.  Under DELETE, a pointer-down that hits no angle label and no point
    and hits a connection finds the connection [conn] with the id that was
    hit and removes it: the connections with another id stay, the points
    stay, and of the angles exactly those go that have their center on one
    endpoint of [conn] and an arm on its other endpoint; the other angles
    stay as they are, in their order. *)
Theorem delete_connection_cascade (layout : EditorLayout) (x y : R) (newId : string)
    (st : EditorState) (hitLine : string) :
  let d := st.(EditorState.editorData) in
  truthy (hitTestAngle x y d.(EditorData.angles) d.(EditorData.points) layout 35) = None ->
  truthy (hitTestPoint x y d.(EditorData.points) layout 45) = None ->
  truthy (hitTestConnection x y d.(EditorData.connections) d.(EditorData.points) layout 30)
  = Some hitLine ->
  let d' := (handleStart true DELETE layout x y newId st).(EditorState.editorData) in
  exists conn : EditorConnection,
    findConnection d.(EditorData.connections) hitLine = Some conn
    /\ conn ∈ d.(EditorData.connections)
    /\ conn.(EditorConnection.id) = hitLine
    /\ ~ (conn ∈ EditorData.connections d')
    /\ d'.(EditorData.points) = d.(EditorData.points)
    /\ d'.(EditorData.connections)
       = filter (fun c => c.(EditorConnection.id) <> hitLine) d.(EditorData.connections)
    /\ d'.(EditorData.angles) = filter (fun a => ~ Spec.restsOn conn a) d.(EditorData.angles)
    /\ (forall a, a ∈ d'.(EditorData.angles) <->
                  a ∈ d.(EditorData.angles) /\ ~ Spec.restsOn conn a).
Proof.
  intros d Ha Hp Hl d'.
  apply truthy_Some in Hl as Hhit. destruct Hhit as [Hhit Hne].
  destruct (hitTestConnection_elem _ _ _ _ _ _ _ Hhit) as (c & Hc & Hid).
  destruct (findConnection_elem _ c Hc) as (conn & Hfind).
  rewrite Hid in Hfind.
  destruct (findConnection_Some _ _ _ Hfind) as [Hin Hconn].
  exists conn.
  assert (Hd' : d' = EditorData.mk d.(EditorData.points)
                       (filter (fun c => c.(EditorConnection.id) <> hitLine)
                          d.(EditorData.connections))
                       (filter (fun a => ~ Spec.restsOn conn a) d.(EditorData.angles))).
  { subst d'. unfold handleStart. cbn [negb]. cbv zeta. unfold handleStartHits.
    fold d. rewrite Ha, Hp, Hl, Hfind. reflexivity. }
  rewrite Hd'. cbn [EditorData.points EditorData.connections EditorData.angles].
  split; [exact Hfind |]. split; [exact Hin |]. split; [exact Hconn |].
  split; [rewrite list_elem_of_filter; tauto |].
  split; [reflexivity |]. split; [reflexivity |]. split; [reflexivity |].
  intros a. rewrite list_elem_of_filter. tauto.
Qed.

Lemma fan_hitTestPoint_none (x y : R) :
  45 * 45 <= (x - 100) ^ 2 + (y - 100) ^ 2 ->
  45 * 45 <= (x - 500) ^ 2 + (y - 100) ^ 2 ->
  45 * 45 <= (x - 900) ^ 2 + (y - 100) ^ 2 ->
  hitTestPoint x y (EditorData.points Example.fan) Example.layout 45 = None.
Proof.
  intros HA HB HD. unfold Example.fan. cbn [EditorData.points hitTestPoint].
  repeat match goal with
         | |- context [decide (getDistance ?p ?q < 45)] =>
             destruct (decide (getDistance p q < 45)) as [Hd | _];
             [exfalso; revert Hd; apply getDistance_ge; [lra | project_example; nra] |]
         end.
  reflexivity.
Qed.

(** The cursor at (300, 110) is 10 pixels from the segment from A to B. *)
Lemma fan_hitTestConnection_c1 :
  hitTestConnection 300 110 (EditorData.connections Example.fan)
    (EditorData.points Example.fan) Example.layout 30 = Some "c1"%string.
Proof.
  unfold Example.fan.
  cbn [EditorData.connections EditorData.points hitTestConnection
       EditorConnection.from EditorConnection.to EditorConnection.id].
  change (findPoint [Example.ptA; Example.ptB; Example.ptD] "A") with (Some Example.ptA).
  change (findPoint [Example.ptA; Example.ptB; Example.ptD] "B") with (Some Example.ptB).
  cbv iota beta zeta.
  destruct (decide (getDistanceToSegment _ _ _ < 30)) as [_ | Hn]; [reflexivity |].
  exfalso. apply Hn. unfold getDistanceToSegment, distSq. project_example.
  destruct (decide (_ = 0)) as [H0 | _]; [lra |].
  match goal with
  | |- context [Rmax 0 (Rmin 1 ?t)] =>
      replace (Rmax 0 (Rmin 1 t)) with (1 / 2)
  end.
  - apply getDistance_lt; [lra | project_example; lra].
  - symmetry.
    match goal with |- Rmax 0 (Rmin 1 ?t) = _ => replace t with (1 / 2) by lra end.
    rewrite Rmin_right by lra. apply Rmax_right. lra.
Qed.

Lemma delete_connection_cascade_witness :
  let st := Example.idle Example.fan in
  let d' := (handleStart true DELETE Example.layout 300 110 "n1" st).(EditorState.editorData) in
  d'.(EditorData.points) = [Example.ptA; Example.ptB; Example.ptD]
  /\ d'.(EditorData.connections) = [ EditorConnection.mk "c2" "A" "D" ]
  /\ d'.(EditorData.angles) = [].
Proof.
  intros st d'.
  assert (Ha : truthy (hitTestAngle 300 110 (EditorData.angles Example.fan)
                         (EditorData.points Example.fan) Example.layout 35) = None).
  { rewrite fan_hitTestAngle.
    destruct (decide (getDistance (Point.mk 300 110) (Point.mk 145 100) < 35)) as [Hd | _];
      [| reflexivity].
    exfalso. revert Hd. far. }
  assert (Hp : truthy (hitTestPoint 300 110 (EditorData.points Example.fan)
                         Example.layout 45) = None).
  { rewrite fan_hitTestPoint_none by lra. reflexivity. }
  assert (Hl : truthy (hitTestConnection 300 110 (EditorData.connections Example.fan)
                         (EditorData.points Example.fan) Example.layout 30)
               = Some "c1"%string).
  { rewrite fan_hitTestConnection_c1. reflexivity. }
  destruct (delete_connection_cascade Example.layout 300 110 "n1" st "c1" Ha Hp Hl)
    as (conn & Hfind & _ & _ & _ & Hpoints & Hconns & Hangles & _).
  injection Hfind as <-.
  subst d'. rewrite Hpoints, Hconns, Hangles. repeat split.
Defined.

Lemma connectionExists_true (connections : list EditorConnection) (a b : string) :
  connectionExists connections a b = true <->
  exists c : EditorConnection,
    c ∈ connections
    /\ ((c.(EditorConnection.from) = a /\ c.(EditorConnection.to) = b)
        \/ (c.(EditorConnection.from) = b /\ c.(EditorConnection.to) = a)).
Proof.
  unfold connectionExists. rewrite existsb_exists. split.
  - intros (c & Hin & Hc). apply bool_decide_eq_true_1 in Hc.
    exists c. split; [apply list_elem_of_In; exact Hin | exact Hc].
  - intros (c & Hin & Hc). exists c.
    split; [apply list_elem_of_In; exact Hin | apply bool_decide_eq_true_2; exact Hc].
Qed.

(** C10.  Under CONNECT with the pending start [s], a pointer-down that hits
    the point [p]: when [p] differs from [s] the pending start is cleared,
    and the connection from [s] to [p] is appended unless a connection
    between the two exists already, in which case the graph stays as it is;
    when [p] is [s] the pending start stays [s] and the graph stays as it
    is.  Every connection of the new graph is a connection of the old one
    or the new connection between two different points. *)
Theorem connect_pending_start (layout : EditorLayout) (x y : R) (newId : string)
    (st : EditorState) (s p : string) :
  let d := st.(EditorState.editorData) in
  truthy st.(EditorState.connectingStartId) = Some s ->
  truthy (hitTestPoint x y d.(EditorData.points) layout 45) = Some p ->
  let st' := handleStart true CONNECT layout x y newId st in
  let between (c : EditorConnection) :=
    (c.(EditorConnection.from) = s /\ c.(EditorConnection.to) = p)
    \/ (c.(EditorConnection.from) = p /\ c.(EditorConnection.to) = s) in
  (p <> s ->
   st'.(EditorState.connectingStartId) = None
   /\ ((exists c, c ∈ d.(EditorData.connections) /\ between c) ->
       st'.(EditorState.editorData) = d)
   /\ (~ (exists c, c ∈ d.(EditorData.connections) /\ between c) ->
       st'.(EditorState.editorData)
       = EditorData.mk d.(EditorData.points)
           (d.(EditorData.connections) ++ [EditorConnection.mk newId s p])
           d.(EditorData.angles)))
  /\ (p = s ->
      st'.(EditorState.connectingStartId) = Some s
      /\ st'.(EditorState.editorData) = d)
  /\ (forall c, c ∈ st'.(EditorState.editorData).(EditorData.connections) ->
                c ∈ d.(EditorData.connections)
                \/ (c = EditorConnection.mk newId s p /\ s <> p)).
Proof.
  intros d Hs Hp st' between.
  apply truthy_Some in Hp as Hhit. destruct Hhit as [Hhit Hpne].
  pose proof (connectionExists_true d.(EditorData.connections) s p) as Hex.
  assert (Hst' : st' =
            if decide (s <> p) then
              setConnectingStartId None
                (if connectionExists d.(EditorData.connections) s p then st
                 else setEditorData
                        (EditorData.mk d.(EditorData.points)
                           (d.(EditorData.connections) ++ [EditorConnection.mk newId s p])
                           d.(EditorData.angles)) st)
            else setConnectingStartId (Some p) st).
  { subst st'. unfold handleStart. cbn [negb]. cbv zeta. unfold handleStartHits.
    fold d. rewrite Hp, Hs, Hhit. reflexivity. }
  rewrite Hst'. clear Hst' st'.
  destruct (decide (s <> p)) as [Hne | Heq].
  - destruct (connectionExists (EditorData.connections d) s p) eqn:E.
    + split; [| split].
      * intros _. split; [reflexivity |]. split; [reflexivity |].
        intros Hn. exfalso. apply Hn, Hex. reflexivity.
      * intros ->. contradiction.
      * intros c Hc. left. exact Hc.
    + split; [| split].
      * intros _. split; [reflexivity |]. split; [| reflexivity].
        intros H. apply Hex in H. discriminate H.
      * intros ->. contradiction.
      * intros c Hc. cbn in Hc. apply elem_of_app in Hc as [Hc | Hc]; [left; exact Hc |].
        apply list_elem_of_singleton in Hc. right. auto.
  - assert (s = p) as -> by (destruct (decide (s = p)); [assumption | contradiction]).
    split; [| split].
    + intros H. contradiction.
    + intros _. split; reflexivity.
    + intros c Hc. left. exact Hc.
Qed.

Ltac eval_distances :=
  repeat match goal with
         | |- context [decide (getDistance ?p ?q < ?tol)] =>
             destruct (decide (getDistance p q < tol)) as [Hd | Hd];
             [ first [ solve [exfalso; revert Hd; far] | clear Hd ]
             | first [ solve [exfalso; apply Hd; near] | clear Hd ] ]
         end.

Lemma corner_hitTestPoint_B :
  hitTestPoint 510 105 (EditorData.points Example.corner) Example.layout 45
  = Some "B"%string.
Proof.
  unfold Example.corner. cbn [EditorData.points hitTestPoint].
  eval_distances. reflexivity.
Qed.

Lemma corner_hitTestPoint_C :
  hitTestPoint 505 495 (EditorData.points Example.corner) Example.layout 45
  = Some "C"%string.
Proof.
  unfold Example.corner. cbn [EditorData.points hitTestPoint].
  eval_distances. reflexivity.
Qed.

Lemma connect_pending_start_witness :
  let st := EditorState.mk Example.corner None (Some "A"%string) [] in
  let dup := handleStart true CONNECT Example.layout 510 105 "n1" st in
  let new := handleStart true CONNECT Example.layout 505 495 "n1" st in
  (dup.(EditorState.connectingStartId) = None
   /\ dup.(EditorState.editorData) = Example.corner)
  /\ (new.(EditorState.connectingStartId) = None
      /\ new.(EditorState.editorData).(EditorData.connections)
         = [ EditorConnection.mk "c1" "A" "B"; EditorConnection.mk "c2" "B" "C";
             EditorConnection.mk "n1" "A" "C" ]).
Proof.
  intros st dup new.
  assert (HB : truthy (hitTestPoint 510 105 (EditorData.points Example.corner)
                         Example.layout 45) = Some "B"%string)
    by (rewrite corner_hitTestPoint_B; reflexivity).
  assert (HC : truthy (hitTestPoint 505 495 (EditorData.points Example.corner)
                         Example.layout 45) = Some "C"%string)
    by (rewrite corner_hitTestPoint_C; reflexivity).
  destruct (connect_pending_start Example.layout 510 105 "n1" st "A" "B" eq_refl HB)
    as (Hdup & _ & _).
  destruct (connect_pending_start Example.layout 505 495 "n1" st "A" "C" eq_refl HC)
    as (Hnew & _ & _).
  destruct Hdup as (Hdup1 & Hdup2 & _); [discriminate |].
  destruct Hnew as (Hnew1 & _ & Hnew2); [discriminate |].
  split; split.
  - exact Hdup1.
  - apply Hdup2. exists (EditorConnection.mk "c1" "A" "B").
    split; [left | left; split; reflexivity].
  - exact Hnew1.
  - subst new. rewrite Hnew2; [reflexivity |].
    intros (c & Hc & Hb). cbn in Hc.
    repeat match goal with
           | H : _ ∈ _ :: _ |- _ => apply elem_of_cons in H as [-> | H]
           | H : _ ∈ [] |- _ => apply elem_of_nil in H; contradiction
           end;
      cbn in Hb; destruct Hb as [[? ?] | [? ?]]; discriminate.
Defined.

Lemma angleExists_true (angles : list EditorAngle) (c a b : string) :
  angleExists angles c a b = true <->
  exists ang : EditorAngle, ang ∈ angles /\ Spec.sameAngle c a b ang.
Proof.
  unfold angleExists. rewrite existsb_exists. split.
  - intros (ang & Hin & H). apply bool_decide_eq_true_1 in H.
    exists ang. split; [apply list_elem_of_In; exact Hin | exact H].
  - intros (ang & Hin & H). exists ang.
    split; [apply list_elem_of_In; exact Hin | apply bool_decide_eq_true_2; exact H].
Qed.

(** The chain of comparisons finds a vertex as soon as one is shared: the
    center is an endpoint of both connections and each arm is the other
    endpoint of its connection. *)
Lemma sharedVertex_found (conn1 conn2 : EditorConnection) :
  Spec.shareVertex conn1 conn2 ->
  exists c a b : string,
    sharedVertex conn1 conn2 = (Some c, Some a, Some b)
    /\ Spec.endpoints conn1 c a /\ Spec.endpoints conn2 c b.
Proof.
  unfold Spec.shareVertex, Spec.endpoints, sharedVertex. intros H.
  destruct (decide (EditorConnection.from conn1 = EditorConnection.from conn2)) as [E1 | N1];
    [do 3 eexists; split; [reflexivity | auto] |].
  destruct (decide (EditorConnection.from conn1 = EditorConnection.to conn2)) as [E2 | N2];
    [do 3 eexists; split; [reflexivity | auto] |].
  destruct (decide (EditorConnection.to conn1 = EditorConnection.from conn2)) as [E3 | N3];
    [do 3 eexists; split; [reflexivity | auto] |].
  destruct (decide (EditorConnection.to conn1 = EditorConnection.to conn2)) as [E4 | N4];
    [do 3 eexists; split; [reflexivity | auto] |].
  tauto.
Qed.

Lemma sharedVertex_none (conn1 conn2 : EditorConnection) :
  ~ Spec.shareVertex conn1 conn2 -> sharedVertex conn1 conn2 = (None, None, None).
Proof.
  unfold Spec.shareVertex, sharedVertex. intros H.
  repeat match goal with
         | |- context [decide ?P] => destruct (decide P); [tauto |]
         end.
  reflexivity.
Qed.

Lemma endpoints_nonempty (conn : EditorConnection) (v other : string) :
  conn.(EditorConnection.from) <> EmptyString ->
  conn.(EditorConnection.to) <> EmptyString ->
  Spec.endpoints conn v other -> v <> EmptyString /\ other <> EmptyString.
Proof. intros Hf Ht [[<- <-] | [<- <-]]; auto. Qed.

(** C7.  Under ANGLE, a pointer-down on a connection that brings the
    selection to the two ids [id1], [id2] of the connections [conn1],
    [conn2].  If the two share a vertex, then for a shared vertex [c], the
    other endpoint [a] of [conn1] and the other endpoint [b] of [conn2],
    the selection becomes empty and the angle with arms [a], [b] and center
    [c] is appended, unless an angle with this center and these arms, in
    either order, is there already, in which case the angles stay as they
    are.  If the two share no vertex, the selection becomes the id just
    clicked and the graph stays as it is.  The endpoints of the two
    connections have non-empty ids. *)
Theorem angle_from_two_connections (layout : EditorLayout) (x y : R) (newId : string)
    (st : EditorState) (hitLine id1 id2 : string) (conn1 conn2 : EditorConnection) :
  let d := st.(EditorState.editorData) in
  truthy (hitTestConnection x y d.(EditorData.connections) d.(EditorData.points) layout 30)
  = Some hitLine ->
  toggle hitLine st.(EditorState.selectedElementIds) = [id1; id2] ->
  findConnection d.(EditorData.connections) id1 = Some conn1 ->
  findConnection d.(EditorData.connections) id2 = Some conn2 ->
  conn1.(EditorConnection.from) <> EmptyString ->
  conn1.(EditorConnection.to) <> EmptyString ->
  conn2.(EditorConnection.from) <> EmptyString ->
  conn2.(EditorConnection.to) <> EmptyString ->
  let st' := handleStart true ANGLE layout x y newId st in
  let d' := st'.(EditorState.editorData) in
  (Spec.shareVertex conn1 conn2 ->
   exists c a b : string,
     Spec.endpoints conn1 c a /\ Spec.endpoints conn2 c b
     /\ st'.(EditorState.selectedElementIds) = []
     /\ d'.(EditorData.points) = d.(EditorData.points)
     /\ d'.(EditorData.connections) = d.(EditorData.connections)
     /\ ((exists ang, ang ∈ d.(EditorData.angles) /\ Spec.sameAngle c a b ang) ->
         d'.(EditorData.angles) = d.(EditorData.angles))
     /\ (~ (exists ang, ang ∈ d.(EditorData.angles) /\ Spec.sameAngle c a b ang) ->
         d'.(EditorData.angles) = d.(EditorData.angles) ++ [EditorAngle.mk newId a c b]))
  /\ (~ Spec.shareVertex conn1 conn2 ->
      st'.(EditorState.selectedElementIds) = [hitLine] /\ d' = d).
Proof.
  intros d Hl Hsel H1 H2 Hf1 Ht1 Hf2 Ht2 st' d'.
  assert (Hst' : st' =
            let '(centerId, p1Id, p2Id) := sharedVertex conn1 conn2 in
            match truthy centerId, truthy p1Id, truthy p2Id with
            | Some centerId, Some p1Id, Some p2Id =>
                setSelectedElementIds []
                  (if angleExists d.(EditorData.angles) centerId p1Id p2Id then st
                   else setEditorData
                          (EditorData.mk d.(EditorData.points) d.(EditorData.connections)
                             (d.(EditorData.angles)
                              ++ [EditorAngle.mk newId p1Id centerId p2Id])) st)
            | _, _, _ => setSelectedElementIds [hitLine] st
            end).
  { subst st'. unfold handleStart. cbn [negb]. cbv zeta. unfold handleStartHits.
    fold d. rewrite Hl, Hsel, H1, H2. reflexivity. }
  subst d'. rewrite Hst'. clear Hst' st'. split.
  - intros Hshare.
    destruct (sharedVertex_found conn1 conn2 Hshare) as (c & a & b & -> & He1 & He2).
    destruct (endpoints_nonempty conn1 c a Hf1 Ht1 He1) as [Hc Ha].
    destruct (endpoints_nonempty conn2 c b Hf2 Ht2 He2) as [_ Hb].
    rewrite !truthy_id by assumption.
    exists c, a, b. split; [exact He1 |]. split; [exact He2 |].
    pose proof (angleExists_true d.(EditorData.angles) c a b) as Hex.
    destruct (angleExists (EditorData.angles d) c a b).
    + repeat split; try reflexivity.
      intros Hn. exfalso. apply Hn, Hex. reflexivity.
    + repeat split; try reflexivity.
      intros H. apply Hex in H. discriminate H.
  - intros Hn. rewrite (sharedVertex_none conn1 conn2 Hn). split; reflexivity.
Qed.

Lemma getDistanceToSegment_at (p v w : Point) (t0 : R) :
  distSq v.(Point.x) v.(Point.y) w.(Point.x) w.(Point.y) <> 0 ->
  Rmax 0 (Rmin 1
    (((p.(Point.x) - v.(Point.x)) * (w.(Point.x) - v.(Point.x))
      + (p.(Point.y) - v.(Point.y)) * (w.(Point.y) - v.(Point.y)))
     / distSq v.(Point.x) v.(Point.y) w.(Point.x) w.(Point.y))) = t0 ->
  getDistanceToSegment p v w =
  getDistance p (Point.mk (v.(Point.x) + t0 * (w.(Point.x) - v.(Point.x)))
                          (v.(Point.y) + t0 * (w.(Point.y) - v.(Point.y)))).
Proof.
  intros Hl2 Ht. unfold getDistanceToSegment.
  destruct (decide (_ = 0)) as [H0 | _]; [contradiction |].
  rewrite Ht. reflexivity.
Qed.

(** The cursor at (510, 300) is 10 pixels from the segment from B to C and
    more than 200 pixels from the segment from A to B. *)
Lemma corner_hitTestConnection_c2 :
  hitTestConnection 510 300 (EditorData.connections Example.corner)
    (EditorData.points Example.corner) Example.layout 30 = Some "c2"%string.
Proof.
  unfold Example.corner.
  cbn [EditorData.connections EditorData.points hitTestConnection
       EditorConnection.from EditorConnection.to EditorConnection.id].
  change (findPoint [Example.ptA; Example.ptB; Example.ptC] "A") with (Some Example.ptA).
  change (findPoint [Example.ptA; Example.ptB; Example.ptC] "B") with (Some Example.ptB).
  change (findPoint [Example.ptA; Example.ptB; Example.ptC] "C") with (Some Example.ptC).
  cbv iota beta zeta.
  rewrite (getDistanceToSegment_at _ (project Example.ptA Example.layout) _ 1).
  2: { unfold distSq. project_example. lra. }
  2: { unfold distSq. project_example. rewrite Rmin_left by lra. apply Rmax_right. lra. }
  rewrite (getDistanceToSegment_at _ (project Example.ptB Example.layout) _ (1 / 2)).
  2: { unfold distSq. project_example. lra. }
  2: { unfold distSq. project_example.
       match goal with |- Rmax 0 (Rmin 1 ?t) = _ => replace t with (1 / 2) by lra end.
       rewrite Rmin_right by lra. apply Rmax_right. lra. }
  eval_distances. reflexivity.
Qed.

Lemma angle_from_two_connections_witness :
  let st := EditorState.mk Example.corner None None ["c1"%string] in
  let st' := handleStart true ANGLE Example.layout 510 300 "n1" st in
  st'.(EditorState.selectedElementIds) = []
  /\ st'.(EditorState.editorData).(EditorData.angles) = [ EditorAngle.mk "n1" "A" "B" "C" ].
Proof.
  intros st st'.
  assert (Hl : truthy (hitTestConnection 510 300 (EditorData.connections Example.corner)
                         (EditorData.points Example.corner) Example.layout 30)
               = Some "c2"%string)
    by (rewrite corner_hitTestConnection_c2; reflexivity).
  destruct (angle_from_two_connections Example.layout 510 300 "n1" st "c2" "c1" "c2"
              (EditorConnection.mk "c1" "A" "B") (EditorConnection.mk "c2" "B" "C")
              Hl eq_refl eq_refl eq_refl
              ltac:(discriminate) ltac:(discriminate) ltac:(discriminate) ltac:(discriminate))
    as [Hshare _].
  destruct Hshare as (c & a & b & He1 & He2 & Hsel & _ & _ & _ & Hnew).
  { right. right. left. reflexivity. }
  assert (c = "B"%string /\ a = "A"%string /\ b = "C"%string) as (-> & -> & ->).
  { destruct He1 as [[E1 E2] | [E1 E2]], He2 as [[E3 E4] | [E3 E4]];
      cbn in E1, E2, E3, E4; subst; try discriminate; auto. }
  split; [exact Hsel |].
  subst st'. rewrite Hnew; [reflexivity |].
  intros (ang & Hang & _). cbn in Hang. apply elem_of_nil in Hang. exact Hang.
Defined.

(** * Further properties of the code *)

(** ** Scores: [getLinearScore] and [getAverageScore] *)

Lemma Int_part_le (a b : R) : a <= b -> (Int_part a <= Int_part b)%Z.
Proof.
  intros H. pose proof (base_Int_part a) as [Ha1 Ha2]. pose proof (base_Int_part b) as [Hb1 Hb2].
  apply le_IZR. 
  destruct (Z_lt_le_dec (Int_part b) (Int_part a)) as [Hlt | Hle]; [| apply IZR_le; exact Hle].
  exfalso. assert (IZR (Int_part b) + 1 <= IZR (Int_part a)).
  { rewrite <- plus_IZR. apply IZR_le. lia. }
  lra.
Qed.

Lemma Math_round_mono (a b : R) : a <= b -> Math_round a <= Math_round b.
Proof. intros H. unfold Math_round. apply IZR_le, Int_part_le. lra. Qed.

Lemma Math_round_between (v : R) (lo hi : Z) :
  IZR lo <= v <= IZR hi -> IZR lo <= Math_round v <= IZR hi.
Proof.
  intros [H1 H2]. rewrite <- (Math_round_IZR lo), <- (Math_round_IZR hi).
  split; apply Math_round_mono; assumption.
Qed.

(** The three shapes of a linear score: one of the two clamps, or the
    rounding of a number between 0 and 100. *)
Lemma getLinearScore_form (value : option R) (min max : R) :
  getLinearScore value min max = 0 \/ getLinearScore value min max = 100
  \/ exists q : R, 0 <= q <= 100 /\ getLinearScore value min max = Math_round q.
Proof.
  unfold getLinearScore. destruct value as [v |]; [| left; reflexivity].
  destruct (bool_decide (min > max)) eqn:E.
  - apply bool_decide_eq_true_1 in E.
    destruct (decide (v <= max)); [right; left; reflexivity |].
    destruct (decide (v >= min)); [left; reflexivity |].
    right. right. eexists. split; [| reflexivity].
    assert (Hr : 0 <= (v - min) / (max - min) <= 1).
    { assert (Hd : 0 < min - max) by lra.
      replace ((v - min) / (max - min)) with ((min - v) / (min - max)) by (field; lra).
      split.
      - apply Rmult_le_pos; [lra | left; apply Rinv_0_lt_compat; exact Hd].
      - apply (Rmult_le_reg_r (min - max)); [exact Hd |].
        unfold Rdiv. rewrite Rmult_assoc, Rinv_l by lra. lra. }
    lra.
  - apply bool_decide_eq_false_1 in E.
    destruct (decide (v <= 0)); [left; reflexivity |].
    destruct (decide (v >= max)); [right; left; reflexivity |].
    right. right. eexists. split; [| reflexivity].
    assert (Hm : 0 < max) by lra.
    assert (Hr : 0 <= v / max <= 1).
    { split.
      - apply Rmult_le_pos; [lra | left; apply Rinv_0_lt_compat; exact Hm].
      - apply (Rmult_le_reg_r max); [exact Hm |].
        unfold Rdiv. rewrite Rmult_assoc, Rinv_l by lra. lra. }
    replace (v * 100 / max) with (v / max * 100) by (field; lra). lra.
Qed.

Lemma getLinearScore_bounds (value : option R) (min max : R) :
  Spec.percent (getLinearScore value min max).
Proof.
  unfold Spec.percent.
  destruct (getLinearScore_form value min max) as [-> | [-> | (q & Hq & ->)]]; [lra | lra |].
  apply (Math_round_between _ 0 100). exact Hq.
Qed.

(** X1.  Whatever the value and the range, also a range with [min = max]
    or a negative [max], the linear score is a whole number between 0 and
    100. *)
Theorem getLinearScore_range (value : option R) (min max : R) :
  0 <= getLinearScore value min max <= 100
  /\ exists z : Z, getLinearScore value min max = IZR z.
Proof.
  split; [apply getLinearScore_bounds |].
  destruct (getLinearScore_form value min max) as [-> | [-> | (q & _ & ->)]].
  - exists 0%Z. reflexivity.
  - exists 100%Z. reflexivity.
  - eexists. reflexivity.
Qed.

(** X2.  The linear score follows the value: on an ascending range
    ([min <= max]) a larger value never scores less, on a descending range
    ([min > max], less is better) a larger value never scores more. *)
Theorem getLinearScore_monotone (v1 v2 min max : R) :
  v1 <= v2 ->
  (min <= max -> getLinearScore (Some v1) min max <= getLinearScore (Some v2) min max)
  /\ (min > max -> getLinearScore (Some v2) min max <= getLinearScore (Some v1) min max).
Proof.
  intros Hv.
  pose proof (getLinearScore_bounds (Some v1) min max) as R1.
  pose proof (getLinearScore_bounds (Some v2) min max) as R2.
  unfold Spec.percent in R1, R2.
  unfold getLinearScore in *. split; intros Hm.
  - rewrite (bool_decide_eq_false_2 (min > max)) in * by lra.
    destruct (decide (v1 <= 0)); [lra |].
    destruct (decide (v2 <= 0)); [lra |].
    destruct (decide (v2 >= max)); [lra |].
    destruct (decide (v1 >= max)); [lra |].
    apply Math_round_mono. unfold Rdiv.
    apply Rmult_le_compat_r; [left; apply Rinv_0_lt_compat; lra | lra].
  - rewrite (bool_decide_eq_true_2 (min > max)) in * by lra.
    destruct (decide (v1 <= max)); [lra |].
    destruct (decide (v2 <= max)); [lra |].
    destruct (decide (v2 >= min)); [lra |].
    destruct (decide (v1 >= min)); [lra |].
    apply Math_round_mono.
    apply Rmult_le_compat_r; [lra |].
    replace ((v2 - min) / (max - min)) with ((min - v2) / (min - max)) by (field; lra).
    replace ((v1 - min) / (max - min)) with ((min - v1) / (min - max)) by (field; lra).
    unfold Rdiv. apply Rmult_le_compat_r; [left; apply Rinv_0_lt_compat; lra | lra].
Qed.

Lemma getLinearScore_monotone_witness :
  getLinearScore (Some 40) 0 180 <= getLinearScore (Some 120) 0 180
  /\ getLinearScore (Some 12) 20 0 <= getLinearScore (Some 3) 20 0.
Proof.
  split.
  - apply (getLinearScore_monotone 40 120 0 180); lra.
  - apply (getLinearScore_monotone 3 12 20 0); lra.
Defined.

Lemma sum_bounds (l : list R) (lo hi : R) :
  Forall (fun s => lo <= s <= hi) l ->
  lo * INR (length l) <= fold_right Rplus 0 l <= hi * INR (length l).
Proof.
  induction 1 as [| v l Hv _ IH].
  - cbn. lra.
  - change (length (v :: l)) with (S (length l)). rewrite S_INR. cbn [fold_right]. lra.
Qed.

Lemma mean_bounds (l : list R) (lo hi : R) :
  l <> [] -> Forall (fun s => lo <= s <= hi) l -> lo <= Spec.mean l <= hi.
Proof.
  intros Hne H. pose proof (sum_bounds l lo hi H) as [H1 H2].
  assert (Hlen : 0 < INR (length l)).
  { destruct l; [contradiction |]. apply lt_0_INR. cbn. lia. }
  unfold Spec.mean. split.
  - apply (Rmult_le_reg_r (INR (length l))); [exact Hlen |].
    unfold Rdiv. rewrite Rmult_assoc, Rinv_l by lra. lra.
  - apply (Rmult_le_reg_r (INR (length l))); [exact Hlen |].
    unfold Rdiv. rewrite Rmult_assoc, Rinv_l by lra. lra.
Qed.

Lemma kept_nonneg (scores : list R) : Forall (fun s => 0 <= s) (Spec.kept scores).
Proof.
  unfold Spec.kept. apply Forall_forall. intros s Hs.
  apply list_elem_of_filter in Hs as [Hs _]. lra.
Qed.

Lemma getAverageScore_between (scores : list R) (hi : Z) :
  (0 <= hi)%Z ->
  Forall (fun s => s <= IZR hi) scores ->
  0 <= getAverageScore scores <= IZR hi.
Proof.
  intros Hhi Hle. rewrite getAverageScore_kept.
  destruct (Spec.kept scores) as [| v l] eqn:E.
  - split; [lra | apply (IZR_le 0); exact Hhi].
  - apply (Math_round_between _ 0 hi). apply mean_bounds; [discriminate |].
    rewrite <- E. apply Forall_forall. intros s Hs.
    pose proof (kept_nonneg scores) as Hk. rewrite Forall_forall in Hk.
    split; [apply Hk; exact Hs |].
    unfold Spec.kept in Hs. apply list_elem_of_filter in Hs as [_ Hs].
    rewrite Forall_forall in Hle. apply Hle, Hs.
Qed.

Lemma getAverageScore_percent (scores : list R) :
  Forall (fun s => s <= 100) scores -> Spec.percent (getAverageScore scores).
Proof. intros H. apply (getAverageScore_between scores 100); [lia | exact H]. Qed.

Lemma getAverageScore_integer (scores : list R) :
  exists z : Z, getAverageScore scores = IZR z.
Proof.
  rewrite getAverageScore_kept. destruct (Spec.kept scores); [exists 0%Z |]; eexists; reflexivity.
Qed.

Lemma sum_nonneg (l : list R) : Forall (fun s => 0 <= s) l -> 0 <= fold_right Rplus 0 l.
Proof. induction 1 as [| a l Ha _ IH]; cbn; lra. Qed.

Lemma getAverageScore_nonneg (scores : list R) : 0 <= getAverageScore scores.
Proof.
  rewrite getAverageScore_kept. destruct (Spec.kept scores) as [| v l] eqn:E; [lra |].
  rewrite <- (Math_round_IZR 0). apply Math_round_mono.
  pose proof (kept_nonneg scores) as Hk. rewrite E in Hk.
  unfold Spec.mean. apply Rmult_le_pos; [apply sum_nonneg, Hk |].
  left. apply Rinv_0_lt_compat, lt_0_INR. cbn. lia.
Qed.

(** X3.  The average score is a whole number and never negative, even when
    every entry is a negative sentinel; it does not exceed a bound that
    holds for every entry, so the average of scores up to 100 is a score
    up to 100. *)
Theorem getAverageScore_range (scores : list R) :
  0 <= getAverageScore scores
  /\ (exists z : Z, getAverageScore scores = IZR z)
  /\ (forall hi : Z, (0 <= hi)%Z -> Forall (fun s => s <= IZR hi) scores ->
        getAverageScore scores <= IZR hi).
Proof.
  split; [apply getAverageScore_nonneg |].
  split; [apply getAverageScore_integer |].
  intros hi Hhi Hle. apply getAverageScore_between; assumption.
Qed.

Lemma getAverageScore_range_witness :
  0 <= getAverageScore [ -1; 250; 40 ] <= 250.
Proof.
  destruct (getAverageScore_range [ -1; 250; 40 ]) as (Hlo & _ & Hhi).
  split; [exact Hlo |]. apply (Hhi 250%Z); [lia |].
  constructor; [lra | constructor; [lra | constructor; [lra | constructor]]].
Defined.

Lemma sum_Permutation (l l' : list R) :
  l ≡ₚ l' -> fold_right Rplus 0 l = fold_right Rplus 0 l'.
Proof.
  induction 1; cbn; lra.
Qed.

(** X4.  A negative entry, wherever it stands, counts for nothing: the
    list with it and the list without it have the same average.  The
    average of scores as the tests produce them, whole numbers from 0 to
    100 and the sentinel -1, does not depend on their order. *)
Theorem getAverageScore_sentinel_order (scores scores' l1 l2 : list R) (s : R) :
  (s < 0 -> getAverageScore (l1 ++ s :: l2) = getAverageScore (l1 ++ l2))
  /\ (Forall Spec.score scores -> scores ≡ₚ scores' ->
      getAverageScore scores = getAverageScore scores').
Proof.
  split.
  - intros Hs. rewrite !getAverageScore_kept. unfold Spec.kept.
    rewrite !filter_app, filter_cons_False by lra. reflexivity.
  - intros _ Hp. rewrite !getAverageScore_kept.
    assert (Hk : Spec.kept scores ≡ₚ Spec.kept scores').
    { unfold Spec.kept. rewrite Hp. reflexivity. }
    destruct (Spec.kept scores) as [| v l] eqn:E, (Spec.kept scores') as [| v' l'] eqn:E'.
    + reflexivity.
    + apply Permutation_nil_l in Hk. discriminate Hk.
    + symmetry in Hk. apply Permutation_nil_l in Hk. discriminate Hk.
    + unfold Spec.mean. rewrite (sum_Permutation _ _ Hk), (Permutation_length Hk). reflexivity.
Qed.

Lemma getAverageScore_sentinel_order_witness :
  getAverageScore ([ 80 ] ++ -1 :: [ 100 ]) = getAverageScore ([ 80 ] ++ [ 100 ])
  /\ getAverageScore [ 100; 80 ] = getAverageScore [ 80; 100 ].
Proof.
  split.
  - apply (getAverageScore_sentinel_order [] [] [ 80 ] [ 100 ] (-1)). lra.
  - apply (getAverageScore_sentinel_order [ 100; 80 ] [ 80; 100 ] [] [] 0).
    + constructor; [exists 100%Z; split; [reflexivity | lia] |].
      constructor; [exists 80%Z; split; [reflexivity | lia] | constructor].
    + apply Permutation_swap.
Defined.

(** ** Joint vectors and the angle between two vectors *)

Lemma JOINT_DICT_names (name : string) (def : JointDef) :
  JOINT_DICT !! name = Some def ->
  strip_minus name = None
  /\ name <> "vertical"%string /\ name <> "horizontal"%string
  /\ name <> "-vertical"%string /\ name <> "-horizontal"%string.
Proof.
  intros H. unfold JOINT_DICT in H. apply elem_of_list_to_map_2 in H.
  repeat (apply elem_of_cons in H as [[= -> ->] | H];
          [repeat split; (reflexivity || discriminate) |]).
  apply elem_of_nil in H. contradiction.
Qed.

Lemma resolveVector_dict (name : string) (def : JointDef) (kps : gmap string Point) :
  JOINT_DICT !! name = Some def ->
  resolveVector name kps =
  match kps !! kp1 def, kps !! kp2 def with
  | Some p1, Some p2 =>
      Some (p2.(Point.x) - p1.(Point.x), p2.(Point.y) - p1.(Point.y))
  | _, _ => None
  end.
Proof.
  intros Hdef. destruct (JOINT_DICT_names name def Hdef) as (Hs & N1 & N2 & N3 & N4).
  unfold resolveVector.
  repeat match goal with |- context [decide ?P] => destruct (decide P) as [? | _]; [contradiction |] end.
  rewrite Hs, Hdef. reflexivity.
Qed.

Lemma resolveVector_dict_minus (name : string) (def : JointDef) (kps : gmap string Point) :
  JOINT_DICT !! name = Some def ->
  resolveVector (String "-" name) kps =
  match kps !! kp1 def, kps !! kp2 def with
  | Some p1, Some p2 =>
      Some (p1.(Point.x) - p2.(Point.x), p1.(Point.y) - p2.(Point.y))
  | _, _ => None
  end.
Proof.
  intros Hdef. destruct (JOINT_DICT_names name def Hdef) as (Hs & N1 & N2 & N3 & N4).
  unfold resolveVector.
  destruct (decide (String "-" name = "vertical"%string)) as [E | _]; [discriminate E |].
  destruct (decide (String "-" name = "-vertical"%string)) as [E | _];
    [injection E as E; contradiction |].
  destruct (decide (String "-" name = "horizontal"%string)) as [E | _]; [discriminate E |].
  destruct (decide (String "-" name = "-horizontal"%string)) as [E | _];
    [injection E as E; contradiction |].
  cbn [strip_minus]. destruct (decide ("-"%char = "-"%char)) as [_ | N]; [| contradiction].
  rewrite Hdef. reflexivity.
Qed.

(** X5.  For every joint of the dictionary, the name with a leading minus
    resolves to the opposite vector, and both resolve exactly when both
    keypoints of the joint are in the skeleton. *)
Theorem resolveVector_minus (name : string) (def : JointDef) (kps : gmap string Point) :
  JOINT_DICT !! name = Some def ->
  resolveVector (String "-" name) kps = Spec.opposite <$> resolveVector name kps
  /\ (is_Some (resolveVector name kps) <->
      is_Some (kps !! kp1 def) /\ is_Some (kps !! kp2 def)).
Proof.
  intros Hdef. rewrite (resolveVector_dict _ _ kps Hdef), (resolveVector_dict_minus _ _ kps Hdef).
  destruct (kps !! kp1 def) as [p1 |], (kps !! kp2 def) as [p2 |]; cbn.
  - split.
    + unfold Spec.opposite. cbn. f_equal. f_equal; ring.
    + split; [intros _; split; eexists; reflexivity | intros _; eexists; reflexivity].
  - split; [reflexivity |].
    split; [intros [? [=]] | intros [_ [? [=]]]].
  - split; [reflexivity |].
    split; [intros [? [=]] | intros [[? [=]] _]].
  - split; [reflexivity |].
    split; [intros [? [=]] | intros [[? [=]] _]].
Qed.

Lemma resolveVector_minus_witness :
  let kps : gmap string Point :=
    {[ "leftShoulder"%string := Point.mk 0 0; "leftElbow"%string := Point.mk 1 2 ]} in
  resolveVector "-leftBiceps" kps = Spec.opposite <$> resolveVector "leftBiceps" kps
  /\ (is_Some (resolveVector "leftBiceps" kps) <->
      is_Some (kps !! "leftShoulder"%string) /\ is_Some (kps !! "leftElbow"%string)).
Proof.
  intros kps.
  apply (resolveVector_minus "leftBiceps" (mkJointDef "leftShoulder" "leftElbow") kps).
  reflexivity.
Defined.

(** X6.  A vector makes the angle 0 with itself, also the zero vector, and
    a vector other than the zero vector makes the angle 180 with its
    opposite. *)
Theorem computeAngleVector_self (a : Vec2) :
  computeAngleVector a a = 0
  /\ (a <> (0, 0) -> computeAngleVector a (- a.1, - a.2) = 180).
Proof.
  rewrite !computeAngleVector_cross_dot. cbv zeta. cbn [fst snd].
  destruct a as [a1 a2]. cbn [fst snd]. split.
  - replace (a1 * a2 - a2 * a1) with 0 by ring.
    assert (Hd : 0 <= a1 * a1 + a2 * a2) by nra.
    destruct Hd as [Hd | Hd].
    + rewrite Math_atan2_zero_pos by exact Hd.
      replace (0 * (180 / PI)) with 0 by ring.
      destruct (decide (0 < 0)); [lra | reflexivity].
    + rewrite <- Hd, Math_atan2_zero_zero.
      replace (0 * (180 / PI)) with 0 by ring.
      destruct (decide (0 < 0)); [lra | reflexivity].
  - intros Hne.
    replace (a1 * - a2 - a2 * - a1) with 0 by ring.
    assert (Hd : a1 * - a1 + a2 * - a2 < 0).
    { assert (a1 <> 0 \/ a2 <> 0).
      { destruct (Req_dec_T a1 0) as [-> | ?]; [| auto].
        destruct (Req_dec_T a2 0) as [-> | ?]; [contradiction | auto]. }
      destruct H; nra. }
    rewrite Math_atan2_zero_neg by exact Hd. rewrite PI_deg.
    destruct (decide (180 < 0)); [lra | reflexivity].
Qed.

Lemma computeAngleVector_self_witness :
  computeAngleVector (3, 4) (- 3, - 4) = 180.
Proof.
  apply (computeAngleVector_self (3, 4)). intros [= H _]. lra.
Defined.

(** ** The enriched skeleton *)

(** X7.  Enriching a skeleton keeps every detected keypoint as it is, apart
    from the two derived names: [manubrium] becomes the midpoint of the
    shoulders when both were detected, [pubis] the midpoint of the hips,
    and each is left as it was otherwise.  Enriching the result again
    changes nothing. *)
Theorem buildEnrichedSkeleton_derived (skeleton : gmap string Point) :
  let enriched := buildEnrichedSkeleton skeleton in
  (forall k : string, k <> "manubrium"%string -> k <> "pubis"%string ->
                      enriched !! k = skeleton !! k)
  /\ enriched !! "manubrium"%string
     = match skeleton !! "leftShoulder"%string, skeleton !! "rightShoulder"%string with
       | Some l, Some r => Some (midpoint l r)
       | _, _ => skeleton !! "manubrium"%string
       end
  /\ enriched !! "pubis"%string
     = match skeleton !! "leftHip"%string, skeleton !! "rightHip"%string with
       | Some l, Some r => Some (midpoint l r)
       | _, _ => skeleton !! "pubis"%string
       end
  /\ buildEnrichedSkeleton enriched = enriched.
Proof.
  cbv zeta.
  assert (Hkeep : forall (s : gmap string Point) (k : string),
             k <> "manubrium"%string -> k <> "pubis"%string ->
             buildEnrichedSkeleton s !! k = s !! k)
    by apply buildEnrichedSkeleton_lookup.
  assert (Hm : forall s : gmap string Point,
             buildEnrichedSkeleton s !! "manubrium"%string
             = match s !! "leftShoulder"%string, s !! "rightShoulder"%string with
               | Some l, Some r => Some (midpoint l r)
               | _, _ => s !! "manubrium"%string
               end).
  { intros s. unfold buildEnrichedSkeleton.
    destruct (s !! "leftShoulder"%string), (s !! "rightShoulder"%string),
      (s !! "leftHip"%string), (s !! "rightHip"%string);
      rewrite ?lookup_insert_ne by discriminate; rewrite ?lookup_insert_eq; reflexivity. }
  assert (Hp : forall s : gmap string Point,
             buildEnrichedSkeleton s !! "pubis"%string
             = match s !! "leftHip"%string, s !! "rightHip"%string with
               | Some l, Some r => Some (midpoint l r)
               | _, _ => s !! "pubis"%string
               end).
  { intros s. unfold buildEnrichedSkeleton.
    destruct (s !! "leftShoulder"%string), (s !! "rightShoulder"%string),
      (s !! "leftHip"%string), (s !! "rightHip"%string);
      rewrite ?lookup_insert_eq; rewrite ?lookup_insert_ne by discriminate; reflexivity. }
  split; [apply Hkeep |]. split; [apply Hm |]. split; [apply Hp |].
  apply map_eq. intros k.
  destruct (decide (k = "manubrium"%string)) as [-> | Nm].
  - rewrite (Hm (buildEnrichedSkeleton skeleton)). rewrite !Hkeep by discriminate.
    rewrite (Hm skeleton).
    destruct (skeleton !! "leftShoulder"%string), (skeleton !! "rightShoulder"%string);
      reflexivity.
  - destruct (decide (k = "pubis"%string)) as [-> | Np].
    + rewrite (Hp (buildEnrichedSkeleton skeleton)). rewrite !Hkeep by discriminate.
      rewrite (Hp skeleton).
      destruct (skeleton !! "leftHip"%string), (skeleton !! "rightHip"%string); reflexivity.
    + rewrite !Hkeep by assumption. reflexivity.
Qed.

(** ** Angles and deviations in degrees *)

Lemma deg_abs_bound (theta : R) :
  - (2 * PI) < theta < 2 * PI -> 0 <= Rabs (theta * 180 / PI) < 360.
Proof.
  intros [Hlo Hhi]. pose proof deg_factor_pos as Hk. pose proof PI_deg as HPI.
  replace (theta * 180 / PI) with (theta * (180 / PI)) by (field; apply PI_neq0).
  set (k := 180 / PI) in *.
  assert (0 < (theta + 2 * PI) * k) by (apply Rmult_lt_0_compat; lra).
  assert (0 < (2 * PI - theta) * k) by (apply Rmult_lt_0_compat; lra).
  split; [apply Rabs_pos |]. apply Rabs_def1; lra.
Qed.

Lemma calculateAngle_bounds (p1 center p2 : Point) :
  0 <= calculateAngle p1 center p2 <= 180.
Proof.
  unfold calculateAngle. cbv zeta.
  set (a1 := Math_atan2 (Point.y p1 - Point.y center) (Point.x p1 - Point.x center)).
  set (a2 := Math_atan2 (Point.y p2 - Point.y center) (Point.x p2 - Point.x center)).
  pose proof (Math_atan2_bounds (Point.y p1 - Point.y center) (Point.x p1 - Point.x center)) as B1.
  pose proof (Math_atan2_bounds (Point.y p2 - Point.y center) (Point.x p2 - Point.x center)) as B2.
  fold a1 in B1. fold a2 in B2.
  pose proof (deg_abs_bound (a2 - a1) ltac:(lra)) as Hd.
  apply (Math_round_between _ 0 180).
  destruct (decide (Rabs ((a2 - a1) * 180 / PI) > 180)); lra.
Qed.

(** X8.  The angle at a center between two points is a whole number of
    degrees between 0 and 180, and it is the same angle when the two points
    are exchanged. *)
Theorem calculateAngle_range (p1 center p2 : Point) :
  0 <= calculateAngle p1 center p2 <= 180
  /\ (exists z : Z, calculateAngle p1 center p2 = IZR z)
  /\ calculateAngle p1 center p2 = calculateAngle p2 center p1.
Proof.
  split; [apply calculateAngle_bounds |].
  split; [eexists; reflexivity |].
  unfold calculateAngle. cbv zeta.
  set (a1 := Math_atan2 (Point.y p1 - Point.y center) (Point.x p1 - Point.x center)).
  set (a2 := Math_atan2 (Point.y p2 - Point.y center) (Point.x p2 - Point.x center)).
  replace ((a1 - a2) * 180 / PI) with (- ((a2 - a1) * 180 / PI))
    by (field; apply PI_neq0).
  rewrite Rabs_Ropp. reflexivity.
Qed.

Lemma deviation_bounds (v u : R) :
  0 <= Math_round (Rabs (Math_atan2 v u * 180 / PI)) <= 180.
Proof.
  apply (Math_round_between _ 0 180).
  pose proof (deg_bounds _ (Math_atan2_bounds v u)) as Hb.
  replace (Math_atan2 v u * 180 / PI) with (Math_atan2 v u * (180 / PI))
    by (field; apply PI_neq0).
  split; [apply Rabs_pos |]. apply Rabs_le. lra.
Qed.

Lemma calculateHorizontalDeviation_level (a b : Point) :
  a.(Point.y) = b.(Point.y) ->
  (a.(Point.x) <= b.(Point.x) -> calculateHorizontalDeviation a b = 0)
  /\ (b.(Point.x) < a.(Point.x) -> calculateHorizontalDeviation a b = 180).
Proof.
  intros Hy. unfold calculateHorizontalDeviation. cbv zeta.
  replace (Point.y b - Point.y a) with 0 by lra. split; intros Hx.
  - assert (Math_atan2 0 (Point.x b - Point.x a) = 0) as ->.
    { destruct Hx as [Hx | Hx].
      - apply Math_atan2_zero_pos. lra.
      - rewrite Hx. replace (Point.x b - Point.x b) with 0 by ring.
        apply Math_atan2_zero_zero. }
    replace (0 * 180 / PI) with 0 by (field; apply PI_neq0).
    rewrite Rabs_R0. apply (Math_round_IZR 0).
  - rewrite Math_atan2_zero_neg by lra.
    replace (PI * 180 / PI) with 180 by (field; apply PI_neq0).
    rewrite Rabs_pos_eq by lra. apply (Math_round_IZR 180).
Qed.

(** X9.  Both deviations are whole numbers of degrees between 0 and 180.
    The deviation from the horizontal is 0 for two points at the same
    height when the second is not to the left of the first and 180 when it
    is to the left; the deviation from the vertical is 0 for a second point
    with the same x and a y that is not smaller, and 180 for one with the
    same x and a smaller y. *)
Theorem deviation_range (a b : Point) :
  (0 <= calculateHorizontalDeviation a b <= 180
   /\ exists z : Z, calculateHorizontalDeviation a b = IZR z)
  /\ (0 <= calculateVerticalDeviation a b <= 180
      /\ exists z : Z, calculateVerticalDeviation a b = IZR z)
  /\ (a.(Point.y) = b.(Point.y) ->
      (a.(Point.x) <= b.(Point.x) -> calculateHorizontalDeviation a b = 0)
      /\ (b.(Point.x) < a.(Point.x) -> calculateHorizontalDeviation a b = 180))
  /\ (a.(Point.x) = b.(Point.x) ->
      (a.(Point.y) <= b.(Point.y) -> calculateVerticalDeviation a b = 0)
      /\ (b.(Point.y) < a.(Point.y) -> calculateVerticalDeviation a b = 180)).
Proof.
  split; [split; [apply deviation_bounds | eexists; reflexivity] |].
  split; [split; [apply deviation_bounds | eexists; reflexivity] |].
  split; [apply calculateHorizontalDeviation_level |].
  intros Hx.
  pose proof (calculateHorizontalDeviation_level
                (Point.mk a.(Point.y) a.(Point.x)) (Point.mk b.(Point.y) b.(Point.x)) Hx)
    as H.
  exact H.
Qed.

Lemma deviation_range_witness :
  calculateHorizontalDeviation (Point.mk (6 / 10) (3 / 10)) (Point.mk (4 / 10) (3 / 10)) = 180
  /\ calculateVerticalDeviation (Point.mk (5 / 10) (2 / 10)) (Point.mk (5 / 10) (4 / 10)) = 0.
Proof.
  split.
  - apply (deviation_range (Point.mk (6 / 10) (3 / 10)) (Point.mk (4 / 10) (3 / 10)));
      [reflexivity | cbn; lra].
  - apply (deviation_range (Point.mk (5 / 10) (2 / 10)) (Point.mk (5 / 10) (4 / 10)));
      [reflexivity | cbn; lra].
Defined.

(** ** The reports of the tests on one skeleton *)

Section Reports.
Variable t : Translator.

Lemma analyze_shoulder_level_present (data : gmap string Point) (l r : Point) :
  data !! "leftShoulder"%string = Some l -> data !! "rightShoulder"%string = Some r ->
  is_Some (OrthopedicService.analyze_shoulder_level data t).
Proof.
  intros Hl Hr. unfold OrthopedicService.analyze_shoulder_level. rewrite Hl, Hr.
  destruct (decide (_ > 5)); [eexists; reflexivity |].
  destruct (decide (_ > 2)); eexists; reflexivity.
Qed.

Lemma analyze_leg_alignment_present (data : gmap string Point)
    (lHip lKnee lAnkle rHip rKnee rAnkle : Point) :
  data !! "leftHip"%string = Some lHip -> data !! "leftKnee"%string = Some lKnee ->
  data !! "leftAnkle"%string = Some lAnkle -> data !! "rightHip"%string = Some rHip ->
  data !! "rightKnee"%string = Some rKnee -> data !! "rightAnkle"%string = Some rAnkle ->
  is_Some (OrthopedicService.analyze_leg_alignment data t).
Proof.
  intros H1 H2 H3 H4 H5 H6. unfold OrthopedicService.analyze_leg_alignment.
  rewrite H1, H2, H3, H4, H5, H6.
  destruct (decide (_ \/ _)); [eexists; reflexivity |].
  destruct (decide (_ \/ _)); eexists; reflexivity.
Qed.

(** X10.  A report of [shoulder_level], [forward_head] or [leg_alignment]
    has a score between 0 and 100 and at most one warning, and it has no
    warning exactly when the score is 100. *)
Theorem single_skeleton_reports (data : gmap string Point) (r : HealthReport) :
  OrthopedicService.analyze_shoulder_level data t = Some r
  \/ OrthopedicService.analyze_forward_head data t = Some r
  \/ OrthopedicService.analyze_leg_alignment data t = Some r ->
  0 <= r.(HealthReport.score) <= 100
  /\ (r.(HealthReport.warnings) = [] <-> r.(HealthReport.score) = 100)
  /\ (length r.(HealthReport.warnings) <= 1)%nat.
Proof.
  intros [H | [H | H]].
  - unfold OrthopedicService.analyze_shoulder_level in H.
    destruct (data !! "leftShoulder"%string) as [l |]; [| discriminate].
    destruct (data !! "rightShoulder"%string) as [rr |]; [| discriminate].
    assert (Hd : 0 <= calculateHorizontalDeviation l rr <= 180) by apply deviation_bounds.
    destruct (decide (calculateHorizontalDeviation l rr > 5)) as [H5 | H5].
    + injection H as <-. cbn.
      assert (0 <= Rmax 0 (100 - calculateHorizontalDeviation l rr * 5) < 100).
      { unfold Rmax. destruct (Rle_dec _ _); lra. }
      split; [lra |]. split; [| lia]. split; [discriminate | lra].
    + destruct (decide (calculateHorizontalDeviation l rr > 2)).
      * injection H as <-. cbn. split; [lra |]. split; [| lia]. split; [discriminate | lra].
      * injection H as <-. cbn. split; [lra |]. split; [| lia]. split; reflexivity.
  - unfold OrthopedicService.analyze_forward_head in H.
    destruct (OrthopedicService.orElse _ _) as [ear |]; [| discriminate].
    destruct (OrthopedicService.orElse _ _) as [sh |]; [| discriminate].
    destruct (decide (calculateVerticalDeviation ear sh > 25)).
    + injection H as <-. cbn. split; [lra |]. split; [| lia]. split; [discriminate | lra].
    + destruct (decide (calculateVerticalDeviation ear sh > 15)).
      * injection H as <-. cbn. split; [lra |]. split; [| lia]. split; [discriminate | lra].
      * injection H as <-. cbn. split; [lra |]. split; [| lia]. split; reflexivity.
  - unfold OrthopedicService.analyze_leg_alignment in H.
    repeat match type of H with
           | context [match data !! ?k with _ => _ end] =>
               destruct (data !! k); [| discriminate]
           end.
    match type of H with
    | context [calculateAngle ?a ?b ?c < 165 \/ calculateAngle ?d ?e ?f < 165] =>
        pose proof (calculateAngle_bounds a b c) as R1;
        pose proof (calculateAngle_bounds d e f) as R2
    end.
    destruct (decide (_ \/ _)) as [Hv | Hv].
    + injection H as <-. cbn. split; [lra |]. split; [| lia]. split; [discriminate | lra].
    + destruct (decide (_ \/ _)) as [Hw | Hw]; [destruct Hw; lra |].
      injection H as <-. cbn. split; [lra |]. split; [| lia]. split; reflexivity.
Qed.

(** X11.  [leg_alignment] has two outcomes only: score 60 with one warning
    when a knee angle is below 165 degrees, and score 100 without warning
    otherwise.  The score 80 of the branch for an angle above 185 degrees is
    never given, since [calculateAngle] does not exceed 180. *)
Theorem leg_alignment_scores (data : gmap string Point) (r : HealthReport) :
  OrthopedicService.analyze_leg_alignment data t = Some r ->
  (r.(HealthReport.score) = 60 /\ length r.(HealthReport.warnings) = 1%nat)
  \/ (r.(HealthReport.score) = 100 /\ r.(HealthReport.warnings) = []).
Proof.
  intros H. unfold OrthopedicService.analyze_leg_alignment in H.
  repeat match type of H with
         | context [match data !! ?k with _ => _ end] =>
             destruct (data !! k); [| discriminate]
         end.
  match type of H with
  | context [calculateAngle ?a ?b ?c < 165 \/ calculateAngle ?d ?e ?f < 165] =>
      pose proof (calculateAngle_bounds a b c) as R1;
      pose proof (calculateAngle_bounds d e f) as R2
  end.
  destruct (decide (_ \/ _)) as [Hv | Hv].
  - injection H as <-. left. split; reflexivity.
  - destruct (decide (_ \/ _)) as [Hw | Hw]; [destruct Hw; lra |].
    injection H as <-. right. split; reflexivity.
Qed.

(** X12.  With both shoulders at the same height, [shoulder_level] depends on
    their order along x: the score is 100 without warning when
    [leftShoulder] is not to the right of [rightShoulder], and it is 0 with
    one warning of level high when [leftShoulder] is to the right, the
    deviation being 180 degrees. *)
Theorem shoulder_level_order (data : gmap string Point) (l r : Point) :
  data !! "leftShoulder"%string = Some l -> data !! "rightShoulder"%string = Some r ->
  l.(Point.y) = r.(Point.y) ->
  exists rep : HealthReport,
    OrthopedicService.analyze_shoulder_level data t = Some rep
    /\ (l.(Point.x) <= r.(Point.x) ->
        rep.(HealthReport.score) = 100 /\ rep.(HealthReport.warnings) = [])
    /\ (r.(Point.x) < l.(Point.x) ->
        rep.(HealthReport.score) = 0
        /\ exists w : HealthWarning,
             rep.(HealthReport.warnings) = [w] /\ w.(HealthWarning.level) = high).
Proof.
  intros Hl Hr Hy. unfold OrthopedicService.analyze_shoulder_level. rewrite Hl, Hr.
  destruct (calculateHorizontalDeviation_level l r Hy) as [Hle Hgt].
  destruct (Rle_lt_dec (Point.x l) (Point.x r)) as [Hx | Hx].
  - rewrite (Hle Hx).
    destruct (decide (0 > 5)) as [H5 | _]; [lra |].
    destruct (decide (0 > 2)) as [H2 | _]; [lra |].
    eexists. split; [reflexivity |]. split; [intros _; split; reflexivity | intros; lra].
  - rewrite (Hgt Hx).
    destruct (decide (180 > 5)) as [_ | H5]; [| lra].
    destruct (decide (180 > 10)) as [_ | H10]; [| lra].
    eexists. split; [reflexivity |]. split; [intros; lra |].
    intros _. cbn [HealthReport.score HealthReport.warnings]. split.
    + apply Rmax_left. lra.
    + eexists. split; reflexivity.
Qed.

End Reports.

Lemma single_skeleton_reports_witness :
  let t : Translator := fun key _ => key in
  let data : gmap string Point :=
    {[ "leftShoulder"%string := Point.mk (4 / 10) (30 / 100);
       "rightShoulder"%string := Point.mk (6 / 10) (32 / 100) ]} in
  exists r : HealthReport,
    OrthopedicService.analyze_shoulder_level data t = Some r
    /\ 0 <= r.(HealthReport.score) <= 100
    /\ (r.(HealthReport.warnings) = [] <-> r.(HealthReport.score) = 100)
    /\ (length r.(HealthReport.warnings) <= 1)%nat.
Proof.
  intros t data.
  destruct (analyze_shoulder_level_present t data
              (Point.mk (4 / 10) (30 / 100)) (Point.mk (6 / 10) (32 / 100))
              eq_refl eq_refl) as [r E].
  exists r. split; [exact E |].
  apply (single_skeleton_reports t data r). left. exact E.
Defined.

Lemma leg_alignment_scores_witness :
  let t : Translator := fun key _ => key in
  let data : gmap string Point :=
    list_to_map
      [ ("leftHip"%string, Point.mk (55 / 100) (50 / 100));
        ("leftKnee"%string, Point.mk (55 / 100) (70 / 100));
        ("leftAnkle"%string, Point.mk (56 / 100) (90 / 100));
        ("rightHip"%string, Point.mk (45 / 100) (50 / 100));
        ("rightKnee"%string, Point.mk (45 / 100) (70 / 100));
        ("rightAnkle"%string, Point.mk (44 / 100) (90 / 100)) ] in
  exists r : HealthReport,
    OrthopedicService.analyze_leg_alignment data t = Some r
    /\ ((r.(HealthReport.score) = 60 /\ length r.(HealthReport.warnings) = 1%nat)
        \/ (r.(HealthReport.score) = 100 /\ r.(HealthReport.warnings) = [])).
Proof.
  intros t data.
  destruct (analyze_leg_alignment_present t data _ _ _ _ _ _
              eq_refl eq_refl eq_refl eq_refl eq_refl eq_refl) as [r E].
  exists r. split; [exact E |].
  apply (leg_alignment_scores t data r). exact E.
Defined.

Lemma shoulder_level_order_witness :
  let t : Translator := fun key _ => key in
  let data : gmap string Point :=
    {[ "leftShoulder"%string := Point.mk (6 / 10) (3 / 10);
       "rightShoulder"%string := Point.mk (4 / 10) (3 / 10) ]} in
  exists rep : HealthReport,
    OrthopedicService.analyze_shoulder_level data t = Some rep
    /\ rep.(HealthReport.score) = 0.
Proof.
  intros t data.
  destruct (shoulder_level_order t data (Point.mk (6 / 10) (3 / 10))
              (Point.mk (4 / 10) (3 / 10)) eq_refl eq_refl eq_refl)
    as (rep & E & _ & H).
  exists rep. split; [exact E |]. apply H. cbn. lra.
Defined.

(** ** The reports of the tests on several poses *)

Section PoseReports.
Import OrthopedicPoses.
Variable toFixed : R -> nat -> string.
Variable numToString : R -> string.
Variable t : Translator.
Variable dataMap : gmap string AIAnalysisResult.

Lemma Forall_percent_le (scores : list R) :
  Forall Spec.percent scores -> Forall (fun s => s <= 100) scores.
Proof. intros H. eapply Forall_impl; [exact H |]. intros s [_ Hs]. exact Hs. Qed.

(** X13.  The score of a pose is the sentinel -1, with the text of two
    dashes, exactly when the pose was not taken or its angle cannot be
    computed; otherwise it is a score between 0 and 100. *)
Theorem scorePose_sentinel (poseId : string) (angleDef : AngleDef) :
  let '(score, angleStr) := scorePose toFixed numToString dataMap poseId angleDef in
  (score = -1 /\ angleStr = "--"%string
   /\ forall raw, dataMap !! poseId = Some raw ->
        computeAngle (buildEnrichedSkeleton raw.(AIAnalysisResult.skeleton)) angleDef = None)
  \/ (Spec.percent score
      /\ exists raw angle,
           dataMap !! poseId = Some raw
           /\ computeAngle (buildEnrichedSkeleton raw.(AIAnalysisResult.skeleton)) angleDef
              = Some angle).
Proof.
  unfold scorePose. destruct (dataMap !! poseId) as [raw |] eqn:E.
  - destruct (computeAngle _ angleDef) as [angle |] eqn:Ea.
    + right. split; [apply getLinearScore_bounds | eauto].
    + left. split; [reflexivity |]. split; [reflexivity |]. intros raw' [= <-]. exact Ea.
  - left. split; [reflexivity |]. split; [reflexivity |]. intros raw [=].
Qed.

Lemma poseBlock_percent (poseId : string) (angleDef : AngleDef) (label : string) (acc : Acc) :
  Forall Spec.percent acc.1 ->
  Forall Spec.percent (poseBlock toFixed numToString dataMap poseId angleDef label acc).1.
Proof.
  intros H. unfold poseBlock, scorePose. destruct acc as [scores details].
  cbn [fst] in H.
  destruct (dataMap !! poseId) as [raw |];
    [destruct (computeAngle _ angleDef) as [angle |] |]; cbn [fst].
  - destruct (decide (_ >= 0)); [| exact H].
    apply Forall_app. split; [exact H |].
    constructor; [apply getLinearScore_bounds | constructor].
  - destruct (decide (-1 >= 0)) as [Hn | _]; [lra | exact H].
  - destruct (decide (-1 >= 0)) as [Hn | _]; [lra | exact H].
Qed.

Lemma frontShoulderBlock_percent (acc : Acc) :
  Forall Spec.percent acc.1 -> Forall Spec.percent (frontShoulderBlock toFixed dataMap t acc).1.
Proof.
  intros H. unfold frontShoulderBlock. destruct acc as [scores details].
  destruct (dataMap !! "frontShoulder"%string) as [raw |]; [| exact H].
  cbv zeta. cbn [fst] in *.
  match goal with
  | |- context [getAverageScore ?l] =>
      assert (Ha : Spec.percent (getAverageScore l))
  end.
  { apply getAverageScore_percent. constructor; [| constructor; [| constructor]].
    - destruct (computeAngle _ FRONT_LEFT) as [a |]; [| lra].
      pose proof (getLinearScore_bounds (Some a) (AngleDef.min FRONT_LEFT)
                    (AngleDef.max FRONT_LEFT)) as Hr. unfold Spec.percent in Hr. lra.
    - destruct (computeAngle _ FRONT_RIGHT) as [a |]; [| lra].
      pose proof (getLinearScore_bounds (Some a) (AngleDef.min FRONT_RIGHT)
                    (AngleDef.max FRONT_RIGHT)) as Hr. unfold Spec.percent in Hr. lra. }
  destruct (decide (_ >= 0)); [| exact H].
  apply Forall_app. split; [exact H |]. constructor; [exact Ha | constructor].
Qed.

Lemma tiltBlock_percent (kps : gmap string Point) (lName rName key : string) (acc : Acc) :
  Forall Spec.percent acc.1 -> Forall Spec.percent (tiltBlock toFixed kps lName rName key t acc).1.
Proof.
  intros H. unfold tiltBlock. destruct acc as [scores details].
  destruct (kps !! lName), (kps !! rName); try exact H.
  cbv zeta. cbn [fst] in *. apply Forall_app. split; [exact H |].
  constructor; [apply getLinearScore_bounds | constructor].
Qed.

Lemma shiftBlock_percent (kps : gmap string Point) (patientHeight : R)
    (lowerName upperName key : string) (limit : R) (acc : Acc) :
  Forall Spec.percent acc.1 ->
  Forall Spec.percent (shiftBlock toFixed kps patientHeight lowerName upperName key limit t acc).1.
Proof.
  intros H. unfold shiftBlock. destruct acc as [scores details].
  destruct (kps !! lowerName), (kps !! upperName); try exact H.
  cbv zeta. cbn [fst] in *. apply Forall_app. split; [exact H |].
  constructor; [apply getLinearScore_bounds | constructor].
Qed.

(** X14.  [shoulder_mobility], [neck_mobility] and [posture_analysis]
    always return a report, whatever poses were taken; its score is a whole
    number between 0 and 100 and it carries no warning. *)
Theorem pose_reports_percent (patientHeight : R) :
  Spec.plainReport (analyze_shoulder_mobility toFixed numToString dataMap t)
  /\ Spec.plainReport (analyze_neck_mobility toFixed numToString dataMap t)
  /\ Spec.plainReport (analyze_posture_analysis toFixed dataMap t patientHeight).
Proof.
  assert (Hplain : forall (scores : list R) (title description : string)
                          (details : list string),
             Forall Spec.percent scores ->
             Spec.plainReport
               (Some (HealthReport.mk (getAverageScore scores) title description details []))).
  { intros scores title description details Hp. eexists. split; [reflexivity |].
    cbn [HealthReport.score HealthReport.warnings].
    split; [apply getAverageScore_percent, Forall_percent_le, Hp |].
    split; [apply getAverageScore_integer | reflexivity]. }
  split; [| split].
  - unfold analyze_shoulder_mobility.
    match goal with
    | |- context [let '(_, _) := ?e in _] =>
        assert (Hp : Forall Spec.percent e.1)
          by (repeat apply poseBlock_percent; apply frontShoulderBlock_percent; constructor);
        destruct e as [scores details]
    end.
    apply Hplain, Hp.
  - unfold analyze_neck_mobility.
    match goal with
    | |- context [let '(_, _) := ?e in _] =>
        assert (Hp : Forall Spec.percent e.1)
          by (repeat apply poseBlock_percent; constructor);
        destruct e as [scores details]
    end.
    apply Hplain, Hp.
  - unfold analyze_posture_analysis. cbv zeta.
    match goal with
    | |- context [let '(_, _) := ?e in _] =>
        assert (Hp : Forall Spec.percent e.1)
    end.
    { destruct (dataMap !! "side"%string);
        destruct (dataMap !! "front"%string);
        repeat first [apply shiftBlock_percent | apply tiltBlock_percent]; constructor. }
    match goal with
    | |- context [let '(_, _) := ?e in _] => destruct e as [scores details]
    end.
    apply Hplain, Hp.
Qed.

(** X15.  The front pose of the shoulder test always adds a score once it
    was taken: with neither of its two angles computable it adds the score
    0, whereas a pose with a single angle that cannot be computed adds no
    score at all. *)
Theorem front_pose_counts_as_zero (raw : AIAnalysisResult) (acc : Acc) :
  dataMap !! "frontShoulder"%string = Some raw ->
  let kps := buildEnrichedSkeleton raw.(AIAnalysisResult.skeleton) in
  (exists s : R,
      (frontShoulderBlock toFixed dataMap t acc).1 = acc.1 ++ [s] /\ Spec.percent s)
  /\ (computeAngle kps FRONT_LEFT = None -> computeAngle kps FRONT_RIGHT = None ->
      (frontShoulderBlock toFixed dataMap t acc).1 = acc.1 ++ [0])
  /\ (forall (poseId : string) (angleDef : AngleDef) (label : string),
        dataMap !! poseId = Some raw -> computeAngle kps angleDef = None ->
        (poseBlock toFixed numToString dataMap poseId angleDef label acc).1 = acc.1).
Proof.
  intros Hraw kps. destruct acc as [scores details]. split; [| split].
  - unfold frontShoulderBlock. rewrite Hraw. cbv zeta. fold kps. cbn [fst].
    match goal with
    | |- context [getAverageScore ?l] =>
        pose proof (getAverageScore_nonneg l) as Hn;
        assert (Ha : Spec.percent (getAverageScore l))
    end.
    { apply getAverageScore_percent. constructor; [| constructor; [| constructor]].
      - destruct (computeAngle kps FRONT_LEFT) as [a |]; [| lra].
        pose proof (getLinearScore_bounds (Some a) (AngleDef.min FRONT_LEFT)
                      (AngleDef.max FRONT_LEFT)) as Hr. unfold Spec.percent in Hr. lra.
      - destruct (computeAngle kps FRONT_RIGHT) as [a |]; [| lra].
        pose proof (getLinearScore_bounds (Some a) (AngleDef.min FRONT_RIGHT)
                      (AngleDef.max FRONT_RIGHT)) as Hr. unfold Spec.percent in Hr. lra. }
    destruct (decide (_ >= 0)) as [_ | Hneg]; [| lra].
    eexists. split; [reflexivity | exact Ha].
  - intros HL HR. unfold frontShoulderBlock. rewrite Hraw. cbv zeta. fold kps.
    rewrite HL, HR. cbn [fst].
    assert (E : getAverageScore [ -1; -1 ] = 0).
    { rewrite getAverageScore_kept. unfold Spec.kept.
      rewrite !filter_cons_False by lra. reflexivity. }
    rewrite E. destruct (decide (0 >= 0)) as [_ | Hneg]; [reflexivity | lra].
  - intros poseId angleDef label Hpose Hnone. unfold poseBlock, scorePose.
    rewrite Hpose. fold kps. rewrite Hnone. cbn [fst].
    destruct (decide (-1 >= 0)) as [Hn | _]; [lra | reflexivity].
Qed.

End PoseReports.

Lemma front_pose_counts_as_zero_witness :
  let t : Translator := fun key _ => key in
  let toFixed : R -> nat -> string := fun _ _ => "0.0"%string in
  let dataMap : gmap string AIAnalysisResult :=
    {[ "frontShoulder"%string := Spec.noKeypoints ]} in
  exists s : R,
    (OrthopedicPoses.frontShoulderBlock toFixed dataMap t ([], [])).1 = [] ++ [s]
    /\ Spec.percent s.
Proof.
  intros t toFixed dataMap.
  apply (front_pose_counts_as_zero toFixed (fun _ => "0"%string) t dataMap
           Spec.noKeypoints ([], [])).
  reflexivity.
Defined.

(** ** The hit tests on points and connections *)

Lemma hitTestPoint_head (x y : R) (p : EditorPoint) (rest : list EditorPoint)
    (layout : EditorLayout) (tolerance : R) :
  (Spec.pointNear x y layout tolerance p
   /\ hitTestPoint x y (p :: rest) layout tolerance = Some p.(EditorPoint.id))
  \/ (~ Spec.pointNear x y layout tolerance p
      /\ hitTestPoint x y (p :: rest) layout tolerance
         = hitTestPoint x y rest layout tolerance).
Proof.
  cbn [hitTestPoint]. destruct (decide (getDistance _ _ < tolerance)) as [Hd | Hd].
  - left. split; [exact Hd | reflexivity].
  - right. split; [exact Hd | reflexivity].
Qed.

(** X16.  [hitTestPoint] returns the id of the first point of the list whose
    place in render space ([offset + normalized * (renderW, renderH)]) is
    nearer to the cursor than the tolerance, and nothing exactly when no
    point is that near. *)
Theorem hitTestPoint_first (x y : R) (points : list EditorPoint) (layout : EditorLayout)
    (tolerance : R) :
  (hitTestPoint x y points layout tolerance = None <->
   Forall (fun p => ~ Spec.pointNear x y layout tolerance p) points)
  /\ (forall i : string,
        hitTestPoint x y points layout tolerance = Some i <->
        exists (before : list EditorPoint) (p : EditorPoint) (after : list EditorPoint),
          points = before ++ p :: after
          /\ Forall (fun q => ~ Spec.pointNear x y layout tolerance q) before
          /\ Spec.pointNear x y layout tolerance p
          /\ p.(EditorPoint.id) = i).
Proof.
  apply (first_match (Spec.pointNear x y layout tolerance) EditorPoint.id
           (fun l => hitTestPoint x y l layout tolerance) eq_refl
           (fun p rest => hitTestPoint_head x y p rest layout tolerance)).
Qed.

Lemma hitTestPoint_app (x y : R) (l1 l2 : list EditorPoint) (layout : EditorLayout)
    (tolerance : R) :
  hitTestPoint x y (l1 ++ l2) layout tolerance
  = match hitTestPoint x y l1 layout tolerance with
    | Some i => Some i
    | None => hitTestPoint x y l2 layout tolerance
    end.
Proof.
  induction l1 as [| p l1 IH]; [reflexivity |].
  cbn [app hitTestPoint]. destruct (decide (_ < tolerance)); [reflexivity | exact IH].
Qed.

Lemma hitTestPoint_id (x y : R) (points : list EditorPoint) (layout : EditorLayout)
    (tolerance : R) (i : string) :
  hitTestPoint x y points layout tolerance = Some i -> i ∈ EditorPoint.id <$> points.
Proof.
  induction points as [| p rest IH]; cbn [hitTestPoint]; [discriminate |].
  destruct (decide (_ < tolerance)).
  - intros [= <-]. rewrite fmap_cons. left.
  - intros H. rewrite fmap_cons. right. apply IH, H.
Qed.

Lemma hitTestConnection_head (x y : R) (c : EditorConnection)
    (rest : list EditorConnection) (points : list EditorPoint) (layout : EditorLayout)
    (tolerance : R) :
  (Spec.connectionNear x y points layout tolerance c
   /\ hitTestConnection x y (c :: rest) points layout tolerance
      = Some c.(EditorConnection.id))
  \/ (~ Spec.connectionNear x y points layout tolerance c
      /\ hitTestConnection x y (c :: rest) points layout tolerance
         = hitTestConnection x y rest points layout tolerance).
Proof.
  cbn [hitTestConnection].
  destruct (findPoint points (EditorConnection.from c)) as [p1 |] eqn:E1.
  2:{ right. split; [| reflexivity]. intros (q1 & q2 & H1 & _).
      apply findPoint_first in H1. rewrite E1 in H1. discriminate H1. }
  destruct (findPoint points (EditorConnection.to c)) as [p2 |] eqn:E2.
  2:{ right. split; [| reflexivity]. intros (q1 & q2 & _ & H2 & _).
      apply findPoint_first in H2. rewrite E2 in H2. discriminate H2. }
  cbv zeta. destruct (decide (getDistanceToSegment _ _ _ < tolerance)) as [Hd | Hd].
  - left. split; [| reflexivity]. exists p1, p2.
    split; [apply findPoint_first, E1 |]. split; [apply findPoint_first, E2 | exact Hd].
  - right. split; [| reflexivity]. intros (q1 & q2 & H1 & H2 & Hn).
    apply findPoint_first in H1, H2. rewrite E1 in H1. rewrite E2 in H2.
    injection H1 as <-. injection H2 as <-. apply Hd. exact Hn.
Qed.

(** X17.  [hitTestConnection] returns the id of the first connection of the
    list whose two endpoints exist and whose segment, between the places of
    the endpoints in render space, is nearer to the cursor than the
    tolerance; a connection with a missing endpoint is passed over, and
    nothing is returned exactly when no connection qualifies. *)
Theorem hitTestConnection_first (x y : R) (connections : list EditorConnection)
    (points : list EditorPoint) (layout : EditorLayout) (tolerance : R) :
  (hitTestConnection x y connections points layout tolerance = None <->
   Forall (fun c => ~ Spec.connectionNear x y points layout tolerance c) connections)
  /\ (forall i : string,
        hitTestConnection x y connections points layout tolerance = Some i <->
        exists (before : list EditorConnection) (c : EditorConnection)
               (after : list EditorConnection),
          connections = before ++ c :: after
          /\ Forall (fun c' => ~ Spec.connectionNear x y points layout tolerance c') before
          /\ Spec.connectionNear x y points layout tolerance c
          /\ c.(EditorConnection.id) = i).
Proof.
  apply (first_match (Spec.connectionNear x y points layout tolerance) EditorConnection.id
           (fun l => hitTestConnection x y l points layout tolerance) eq_refl
           (fun c rest => hitTestConnection_head x y c rest points layout tolerance)).
Qed.

(** ** Adding and moving a point *)

Lemma project_normalized (layout : EditorLayout) (x y : R) (id : string) :
  layout.(EditorLayout.renderW) <> 0 -> layout.(EditorLayout.renderH) <> 0 ->
  project (EditorPoint.mk id
             ((x - layout.(EditorLayout.offsetX)) / layout.(EditorLayout.renderW))
             ((y - layout.(EditorLayout.offsetY)) / layout.(EditorLayout.renderH)))
    layout = Point.mk x y.
Proof.
  intros HW HH. unfold project. cbn [EditorPoint.x EditorPoint.y].
  f_equal; field; assumption.
Qed.

(** X18.  With the ADD_POINT tool, a pointer-down changes nothing when it
    hits a point, when the layout has no size, or when the cursor, brought
    to normalized coordinates, lies outside the unit square; otherwise it
    appends one point with the fresh id at the normalized place of the
    cursor, and when no point was near before, the same pointer position
    hits the new point afterwards. *)
Theorem add_point_at_cursor (layout : EditorLayout) (x y : R) (newId : string)
    (st : EditorState) :
  let d := st.(EditorState.editorData) in
  let normX := (x - layout.(EditorLayout.offsetX)) / layout.(EditorLayout.renderW) in
  let normY := (y - layout.(EditorLayout.offsetY)) / layout.(EditorLayout.renderH) in
  let inside := normX >= 0 /\ normX <= 1 /\ normY >= 0 /\ normY <= 1 in
  let sized :=
    layout.(EditorLayout.renderW) <> 0 /\ layout.(EditorLayout.renderH) <> 0 in
  let st' := handleStart true ADD_POINT layout x y newId st in
  (is_Some (truthy (hitTestPoint x y d.(EditorData.points) layout 45)) -> st' = st)
  /\ (~ sized -> st' = st)
  /\ (~ inside -> st' = st)
  /\ (truthy (hitTestPoint x y d.(EditorData.points) layout 45) = None ->
      sized -> inside ->
      st'.(EditorState.editorData)
      = EditorData.mk (d.(EditorData.points) ++ [EditorPoint.mk newId normX normY])
          d.(EditorData.connections) d.(EditorData.angles)
      /\ (hitTestPoint x y d.(EditorData.points) layout 45 = None ->
          hitTestPoint x y st'.(EditorState.editorData).(EditorData.points) layout 45
          = Some newId)).
Proof.
  intros d normX normY inside sized st'. subst st'.
  unfold handleStart. cbn [negb]. cbv zeta. unfold handleStartHits. fold d.
  split; [| split; [| split]].
  - intros [i Hi]. rewrite Hi. reflexivity.
  - intros Hz. destruct (truthy _); [reflexivity |].
    destruct (decide (_ \/ _)) as [_ | Hs]; [reflexivity |].
    exfalso. apply Hz. split; intros E; apply Hs; [left | right]; exact E.
  - intros Hout. destruct (truthy _); [reflexivity |].
    destruct (decide (_ \/ _)) as [_ | _]; [reflexivity |].
    destruct (decide _) as [Hin | _]; [| reflexivity].
    exfalso. apply Hout. exact Hin.
  - intros Hnone [HW HH] Hin. rewrite Hnone.
    destruct (decide (_ \/ _)) as [[E | E] | _]; [contradiction | contradiction |].
    destruct (decide _) as [_ | Hout]; [| exfalso; apply Hout; exact Hin].
    split; [reflexivity |]. intros Hno.
    cbn [setEditorData EditorState.editorData EditorData.points].
    rewrite hitTestPoint_app, Hno. cbn [hitTestPoint].
    fold normX normY. unfold normX, normY.
    rewrite project_normalized by assumption.
    destruct (decide (getDistance (Point.mk x y) (Point.mk x y) < 45)) as [_ | Hfar];
      [reflexivity |].
    exfalso. apply Hfar.
    replace (getDistance (Point.mk x y) (Point.mk x y)) with 0; [lra |].
    symmetry. rewrite getDistance_sqr. cbn [Point.x Point.y].
    replace ((x - x) ^ 2 + (y - y) ^ 2) with 0 by ring. apply sqrt_0.
Qed.

Lemma add_point_at_cursor_witness :
  let st := EditorState.mk (EditorData.mk [] [] []) None None [] in
  let layout := EditorLayout.mk 1000 500 0 150 in
  let st' := handleStart true ADD_POINT layout 250 400 "n1" st in
  st'.(EditorState.editorData)
  = EditorData.mk ([] ++ [EditorPoint.mk "n1" ((250 - 0) / 1000) ((400 - 150) / 500)]) [] []
  /\ hitTestPoint 250 400 st'.(EditorState.editorData).(EditorData.points) layout 45
     = Some "n1"%string.
Proof.
  intros st layout st'.
  pose proof (add_point_at_cursor layout 250 400 "n1" st) as H.
  cbv zeta in H. destruct H as (_ & _ & _ & H).
  destruct H as [H1 H2]; [reflexivity | split; cbn; lra | cbn; lra |].
  split; [exact H1 | apply H2; reflexivity].
Defined.

(** X19.  While a point is dragged under the MOVE tool, with a layout that
    has a size, a pointer move gives every point with the dragged id the
    normalized place of the cursor and changes nothing else: the ids of the
    points, the other points, the connections, the angles and the drag
    itself stay as they are.  After the pointer is released, a pointer move
    no longer changes anything. *)
Theorem drag_moves_point (layout : EditorLayout) (x y : R) (st : EditorState)
    (dragging : string) :
  layout.(EditorLayout.renderW) <> 0 -> layout.(EditorLayout.renderH) <> 0 ->
  truthy st.(EditorState.draggingPointId) = Some dragging ->
  let d := st.(EditorState.editorData) in
  let st' := handleMove MOVE layout x y st in
  let d' := st'.(EditorState.editorData) in
  Spec.pointIds d' = Spec.pointIds d
  /\ d'.(EditorData.connections) = d.(EditorData.connections)
  /\ d'.(EditorData.angles) = d.(EditorData.angles)
  /\ st'.(EditorState.draggingPointId) = st.(EditorState.draggingPointId)
  /\ st'.(EditorState.connectingStartId) = st.(EditorState.connectingStartId)
  /\ st'.(EditorState.selectedElementIds) = st.(EditorState.selectedElementIds)
  /\ (forall p, p ∈ d'.(EditorData.points) -> p.(EditorPoint.id) = dragging ->
                p.(EditorPoint.x)
                = (x - layout.(EditorLayout.offsetX)) / layout.(EditorLayout.renderW)
                /\ p.(EditorPoint.y)
                   = (y - layout.(EditorLayout.offsetY)) / layout.(EditorLayout.renderH))
  /\ (forall p, p.(EditorPoint.id) <> dragging ->
                (p ∈ d'.(EditorData.points) <-> p ∈ d.(EditorData.points)))
  /\ (forall (tool : EditorTool) (layout' : EditorLayout) (x' y' : R),
        handleMove tool layout' x' y' (handleEnd st') = handleEnd st').
Proof.
  intros HW HH Hd d st' d'. subst d' st'. unfold handleMove at 1 2 3 4 5 6 7 8.
  rewrite Hd.
  cbn [setEditorData EditorState.editorData EditorState.draggingPointId
       EditorState.connectingStartId EditorState.selectedElementIds
       EditorData.points EditorData.connections EditorData.angles]. fold d.
  split; [| split; [reflexivity | split; [reflexivity | split; [reflexivity |
    split; [reflexivity | split; [reflexivity | split; [| split]]]]]]].
  - unfold Spec.pointIds. cbn [EditorData.points].
    rewrite <- list_fmap_compose. apply list_fmap_ext. intros _ p _. cbn.
    destruct (decide (EditorPoint.id p = dragging)); reflexivity.
  - intros p Hp Hid. apply list_elem_of_fmap in Hp as (q & -> & Hq).
    destruct (decide (EditorPoint.id q = dragging)) as [_ | Hn].
    + split; reflexivity.
    + contradiction.
  - intros p Hid. rewrite list_elem_of_fmap. split.
    + intros (q & -> & Hq).
      destruct (decide (EditorPoint.id q = dragging)) as [E | _]; [| exact Hq].
      cbn in Hid. contradiction.
    + intros Hp. exists p. split; [| exact Hp].
      destruct (decide (EditorPoint.id p = dragging)); [contradiction | reflexivity].
  - intros tool layout' x' y'. unfold handleMove, handleEnd. destruct tool; reflexivity.
Qed.

Lemma drag_moves_point_witness :
  let layout := EditorLayout.mk 1000 500 0 150 in
  let d := EditorData.mk [ EditorPoint.mk "A" (1 / 4) (1 / 2);
                           EditorPoint.mk "B" (3 / 4) (1 / 2) ]
             [ EditorConnection.mk "c1" "A" "B" ] [] in
  let st := EditorState.mk d (Some "A"%string) None [] in
  let d' := (handleMove MOVE layout 600 300 st).(EditorState.editorData) in
  Spec.pointIds d' = Spec.pointIds d
  /\ d'.(EditorData.connections) = d.(EditorData.connections).
Proof.
  intros layout d st d'.
  pose proof (drag_moves_point layout 600 300 st "A") as H.
  cbv zeta in H. destruct H as (H1 & H2 & _); [cbn; lra | cbn; lra | reflexivity |].
  split; [exact H1 | exact H2].
Defined.

(** ** What every sequence of events keeps *)

Lemma distinctBy_app1 {A : Type} (rel : A -> A -> Prop) (l : list A) (a : A) :
  Spec.distinctBy rel l -> Forall (fun b => ~ rel b a) l -> Spec.distinctBy rel (l ++ [a]).
Proof.
  induction l as [| b l IH]; cbn.
  - intros _ _. split; [constructor | exact I].
  - intros [Hb Hl] Ha. apply Forall_cons in Ha as [Hba Ha]. split.
    + apply Forall_app. split; [exact Hb | constructor; [exact Hba | constructor]].
    + apply IH; assumption.
Qed.

Lemma distinctBy_filter {A : Type} (rel : A -> A -> Prop) (P : A -> Prop)
    `{forall a, Decision (P a)} (l : list A) :
  Spec.distinctBy rel l -> Spec.distinctBy rel (filter P l).
Proof.
  induction l as [| b l IH]; [auto |].
  intros Hd. cbn in Hd. destruct Hd as [Hb Hl]. rewrite filter_cons. destruct (decide (P b)).
  - cbn. split; [| apply IH, Hl].
    apply Forall_forall. intros c Hc. apply list_elem_of_filter in Hc as [_ Hc].
    rewrite Forall_forall in Hb. apply Hb, Hc.
  - apply IH, Hl.
Qed.

Lemma Forall_filter_keep {A : Type} (Q P : A -> Prop) `{forall a, Decision (P a)} (l : list A) :
  Forall Q l -> Forall Q (filter P l).
Proof.
  intros HQ. apply Forall_forall. intros a Ha. apply list_elem_of_filter in Ha as [_ Ha].
  rewrite Forall_forall in HQ. apply HQ, Ha.
Qed.

Lemma handleStartHits_simple (tool : EditorTool) (layout : EditorLayout) (x y : R)
    (newId : string) (hitPointId hitLineId hitAngleId : option string) (st : EditorState) :
  Spec.simple st.(EditorState.editorData) ->
  Spec.simple
    (handleStartHits tool layout x y newId hitPointId hitLineId hitAngleId st)
      .(EditorState.editorData).
Proof.
  intros (Hloop & Hconn & Hang). unfold handleStartHits.
  destruct tool.
  - destruct (truthy hitPointId); repeat split; assumption.
  - destruct (truthy hitPointId); [repeat split; assumption |].
    destruct (decide (_ \/ _)); [repeat split; assumption |].
    destruct (decide _); repeat split; assumption.
  - destruct (truthy hitPointId) as [hit |]; [| repeat split; assumption].
    destruct (truthy (EditorState.connectingStartId st)) as [start |];
      [| repeat split; assumption].
    destruct (decide (start <> hit)) as [Hne | _]; [| repeat split; assumption].
    destruct (connectionExists _ start hit) eqn:E; [repeat split; assumption |].
    cbn. split; [| split; [| exact Hang]].
    + apply Forall_app. split; [exact Hloop |]. constructor; [exact Hne | constructor].
    + apply distinctBy_app1; [exact Hconn |].
      apply Forall_forall. intros c Hc Hsame.
      assert (connectionExists (EditorData.connections (EditorState.editorData st)) start hit
              = true) as Hex.
      { apply connectionExists_true. exists c. split; [exact Hc |].
        unfold Spec.samePair in Hsame. cbn in Hsame. tauto. }
      rewrite Hex in E. discriminate E.
  - destruct (truthy hitLineId) as [hitLine |]; [| repeat split; assumption].
    destruct (toggle hitLine _) as [| id1 [| id2 [| ? ?]]]; try (repeat split; assumption).
    destruct (findConnection _ id1) as [conn1 |]; [| repeat split; assumption].
    destruct (findConnection _ id2) as [conn2 |]; [| repeat split; assumption].
    destruct (sharedVertex conn1 conn2) as [[centerId p1Id] p2Id].
    destruct (truthy centerId) as [c |]; [| repeat split; assumption].
    destruct (truthy p1Id) as [a |]; [| repeat split; assumption].
    destruct (truthy p2Id) as [b |]; [| repeat split; assumption].
    destruct (angleExists _ c a b) eqn:E; [repeat split; assumption |].
    cbn. split; [exact Hloop |]. split; [exact Hconn |].
    apply distinctBy_app1; [exact Hang |].
    apply Forall_forall. intros ang Hin Hsame.
    assert (angleExists (EditorData.angles (EditorState.editorData st)) c a b = true) as Hex.
    { apply angleExists_true. exists ang. split; [exact Hin |].
      unfold Spec.sameArms, Spec.sameAngle in *. cbn in Hsame.
      destruct Hsame as [Hc [[H1 H2] | [H1 H2]]]; split; auto. }
    rewrite Hex in E. discriminate E.
  - destruct (truthy hitAngleId) as [hitAngle |].
    { cbn. split; [exact Hloop |]. split; [exact Hconn |].
      apply distinctBy_filter, Hang. }
    destruct (truthy hitPointId) as [hitPoint |].
    { cbn. split; [apply Forall_filter_keep, Hloop |].
      split; [apply distinctBy_filter, Hconn | apply distinctBy_filter, Hang]. }
    destruct (truthy hitLineId) as [hitLine |]; [| repeat split; assumption].
    destruct (findConnection _ hitLine) as [conn |]; [| repeat split; assumption].
    cbn. split; [apply Forall_filter_keep, Hloop |].
    split; [apply distinctBy_filter, Hconn | apply distinctBy_filter, Hang].
Qed.

Lemma step_simple (s : Session) (e : Event) :
  Spec.simple s.(Session.state).(EditorState.editorData) ->
  Spec.simple (step s e).(Session.state).(EditorState.editorData).
Proof.
  intros H. destruct e as [showSkeleton layout x y newId | layout x y | | tool']; cbn [step].
  - cbn [Session.state]. unfold handleStart. destruct (negb showSkeleton); [exact H |].
    cbv zeta. apply handleStartHits_simple, H.
  - cbn [Session.state]. unfold handleMove.
    destruct (Session.activeTool s); try exact H.
    destruct (truthy _); exact H.
  - exact H.
  - destruct (decide (tool' = Session.activeTool s)); exact H.
Qed.

(** X20.  Whatever the pointer events and tool changes, the layout of every
    pointer move having a size, a graph that is simple stays simple: no
    connection from a point to itself, at most one connection between two
    points, and at most one angle for a center and two arms. *)
Theorem run_keeps_simple (s : Session) (events : list Event) :
  Forall Spec.placed events ->
  Spec.simple s.(Session.state).(EditorState.editorData) ->
  Spec.simple (run s events).(Session.state).(EditorState.editorData).
Proof.
  intros _. unfold run. revert s. induction events as [| e events IH]; intros s H; [exact H |].
  cbn [fold_left]. apply IH, step_simple, H.
Qed.

Lemma run_keeps_simple_witness :
  let layout := EditorLayout.mk 1000 500 0 150 in
  let s := Session.mk MOVE (EditorState.mk (EditorData.mk [] [] []) None None []) in
  let events :=
    [ ToolChange ADD_POINT;
      PointerDown true layout 250 400 "p1"; PointerUp;
      PointerDown true layout 750 400 "p2"; PointerUp;
      ToolChange CONNECT;
      PointerDown true layout 250 400 "c1"; PointerUp;
      PointerDown true layout 750 400 "c2"; PointerUp;
      ToolChange MOVE;
      PointerDown true layout 250 400 "m1"; PointerMove layout 300 350; PointerUp;
      ToolChange DELETE;
      PointerDown true layout 750 400 "d1"; PointerUp ] in
  Spec.simple (run s events).(Session.state).(EditorState.editorData).
Proof.
  intros layout s events. apply (run_keeps_simple s events).
  - repeat (constructor; [first [exact I | split; cbn; lra] |]); constructor.
  - split; [constructor | split; exact I].
Defined.

Lemma sharedVertex_endpoints (conn1 conn2 : EditorConnection) (c a b : option string)
    (v : string) :
  sharedVertex conn1 conn2 = (c, a, b) ->
  c = Some v \/ a = Some v \/ b = Some v ->
  v = conn1.(EditorConnection.from) \/ v = conn1.(EditorConnection.to)
  \/ v = conn2.(EditorConnection.from) \/ v = conn2.(EditorConnection.to).
Proof.
  unfold sharedVertex.
  repeat match goal with
         | |- context [decide ?P] => destruct (decide P)
         end;
    intros [= <- <- <-] [H | [H | H]]; try discriminate H; injection H as <-; auto.
Qed.

Lemma toggle_elem (hit : string) (selected : list string) (i : string) :
  i ∈ toggle hit selected -> i = hit \/ i ∈ selected.
Proof.
  unfold toggle. destruct (bool_decide _).
  - intros H. apply list_elem_of_filter in H as [_ H]. auto.
  - intros H. apply elem_of_app in H as [H | H]; [auto |].
    apply list_elem_of_singleton in H. auto.
Qed.

Lemma toggle_length (hit : string) (selected : list string) :
  (length selected <= 1 -> toggle hit selected = [] \/ (exists a, toggle hit selected = [a])
     \/ (exists a, selected = [a] /\ a <> hit /\ toggle hit selected = [a; hit]))%nat.
Proof.
  destruct selected as [| a [| b rest]]; cbn [length]; [| | lia]; intros _.
  - right. left. exists hit. reflexivity.
  - unfold toggle. destruct (decide (hit = a)) as [-> | Hne].
    + left. rewrite bool_decide_eq_true_2 by left.
      rewrite filter_cons. destruct (decide (a <> a)); [contradiction | reflexivity].
    + right. right. exists a. rewrite bool_decide_eq_false_2.
      * split; [reflexivity |]. split; [congruence | reflexivity].
      * intros H. apply list_elem_of_singleton in H. contradiction.
Qed.

Lemma closed_points_app (points : list EditorPoint) (p : EditorPoint)
    (connections : list EditorConnection) (angles : list EditorAngle) :
  Spec.closed (EditorData.mk points connections angles) ->
  Spec.closed (EditorData.mk (points ++ [p]) connections angles).
Proof.
  unfold Spec.closed, Spec.pointIds. cbn. intros [Hc Ha].
  assert (forall i, i ∈ EditorPoint.id <$> points -> i ∈ EditorPoint.id <$> (points ++ [p])) as Hin.
  { intros i Hi. rewrite fmap_app. apply elem_of_app. auto. }
  split; (eapply Forall_impl; [eassumption |]); cbn; intros ? ?; intuition auto.
Qed.

Lemma pointIds_delete (points : list EditorPoint) (hit i : string) :
  i ∈ EditorPoint.id <$> points -> i <> hit ->
  i ∈ EditorPoint.id <$> filter (fun p => p.(EditorPoint.id) <> hit) points.
Proof.
  intros Hi Hne. apply list_elem_of_fmap in Hi as (p & -> & Hp).
  apply list_elem_of_fmap. exists p. split; [reflexivity |].
  apply list_elem_of_filter. auto.
Qed.

Ltac unchanged :=
  cbn; (split; [split; assumption | split; [assumption | split; [assumption | split; assumption]]]).

Lemma handleStartHits_consistent (tool : EditorTool) (layout : EditorLayout) (x y : R)
    (newId : string) (hitPointId hitLineId hitAngleId : option string) (st : EditorState) :
  (forall i, hitPointId = Some i -> i ∈ Spec.pointIds st.(EditorState.editorData)) ->
  (forall i, hitLineId = Some i ->
     exists c, c ∈ st.(EditorState.editorData).(EditorData.connections)
               /\ c.(EditorConnection.id) = i) ->
  Spec.consistent (Session.mk tool st) ->
  Spec.consistent
    (Session.mk tool
       (handleStartHits tool layout x y newId hitPointId hitLineId hitAngleId st)).
Proof.
  intros HP HL [Hclosed Hsettled].
  destruct st as [[points connections angles] dragging start selected].
  unfold Spec.consistent, Spec.settled, Spec.closed, Spec.pointIds in *.
  cbn [Session.state Session.activeTool EditorState.editorData EditorState.connectingStartId
       EditorState.selectedElementIds EditorData.points EditorData.connections
       EditorData.angles] in *.
  destruct Hclosed as [Hconn Hang]. destruct Hsettled as (Hstart & Hsel & Hlen & Hids).
  assert (Hpend : tool <> CONNECT -> truthy start = None).
  { intros Hne. destruct (truthy start) as [s |] eqn:E; [| reflexivity].
    destruct (Hstart s eq_refl) as [Ht _]. contradiction. }
  assert (Hnosel : tool <> ANGLE -> selected = []).
  { intros Hne. destruct selected; [reflexivity |]. exfalso. apply Hne, Hsel. discriminate. }
  unfold handleStartHits.
  cbn [EditorState.editorData EditorState.connectingStartId
       EditorState.selectedElementIds EditorData.points EditorData.connections
       EditorData.angles].
  destruct tool.
  - (* MOVE *)
    destruct (truthy hitPointId); unchanged.
  - (* ADD_POINT *)
    destruct (truthy hitPointId); [unchanged |].
    destruct (decide (_ \/ _)); [unchanged |].
    destruct (decide _); [| unchanged].
    cbn. rewrite (Hpend ltac:(discriminate)). rewrite (Hnosel ltac:(discriminate)).
    split; [| split; [discriminate | split; [tauto | split; [cbn; lia | constructor]]]].
    apply (closed_points_app points _ connections angles). split; assumption.
  - (* CONNECT *)
    rewrite (Hnosel ltac:(discriminate)) in *.
    destruct (truthy hitPointId) as [hit |] eqn:Ehit.
    + apply truthy_Some in Ehit as [Ehit Hne0]. pose proof (HP hit Ehit) as Hhit.
      assert (Hnew : forall s, truthy hitPointId = Some s -> CONNECT = CONNECT /\
                                 s ∈ EditorPoint.id <$> points).
      { intros s Hs. apply truthy_Some in Hs as [Hs _]. split; [reflexivity |].
        apply HP, Hs. }
      destruct (truthy start) as [s0 |] eqn:Estart.
      * destruct (Hstart s0 eq_refl) as [_ Hs0].
        destruct (decide (s0 <> hit)).
        -- destruct (connectionExists connections s0 hit); cbn.
           ++ split; [split; assumption |].
              split; [discriminate | split; [tauto | split; [lia | constructor]]].
           ++ split; [split; [| assumption] |].
              ** apply Forall_app. split; [assumption |].
                 constructor; [| constructor]. cbn. split; assumption.
              ** split; [discriminate | split; [tauto | split; [lia | constructor]]].
        -- cbn. split; [split; assumption |].
           split; [exact Hnew | split; [tauto | split; [lia | constructor]]].
      * cbn. split; [split; assumption |].
        split; [exact Hnew | split; [tauto | split; [lia | constructor]]].
    + cbn. split; [split; assumption |].
      split; [discriminate | split; [tauto | split; [lia | constructor]]].
  - (* ANGLE *)
    destruct (truthy hitLineId) as [hitLine |] eqn:Ehit.
    2:{ cbn. split; [split; assumption |].
        split; [exact Hstart | split; [tauto | split; [lia | constructor]]]. }
    apply truthy_Some in Ehit as [Ehit _]. destruct (HL hitLine Ehit) as (ch & Hch & Hchid).
    assert (Hall : Forall (fun i => exists c, c ∈ connections /\ EditorConnection.id c = i)
                     (toggle hitLine selected)).
    { apply Forall_forall. intros i Hi. apply toggle_elem in Hi as [-> | Hi]; [eauto |].
      rewrite Forall_forall in Hids. apply Hids, Hi. }
    destruct (toggle_length hitLine selected Hlen) as [E | [[a E] | (a & -> & Hne & E)]];
      rewrite E in *.
    + cbn. split; [split; assumption |].
      split; [exact Hstart | split; [tauto | split; [lia | constructor]]].
    + cbn. split; [split; assumption |].
      split; [exact Hstart | split; [tauto | split; [lia | exact Hall]]].
    + apply Forall_cons in Hall as [(c1 & Hc1 & Hid1) Hall].
      destruct (findConnection_elem connections c1 Hc1) as (conn1 & E1).
      destruct (findConnection_elem connections ch Hch) as (conn2 & E2).
      rewrite Hid1 in E1. rewrite Hchid in E2. rewrite E1, E2.
      apply findConnection_Some in E1 as [Hin1 _]. apply findConnection_Some in E2 as [Hin2 _].
      destruct (sharedVertex conn1 conn2) as [[centerId p1Id] p2Id] eqn:Esv.
      assert (Hend : forall v, centerId = Some v \/ p1Id = Some v \/ p2Id = Some v ->
                               v ∈ EditorPoint.id <$> points).
      { intros v Hv. rewrite Forall_forall in Hconn.
        destruct (Hconn _ Hin1) as [? ?]. destruct (Hconn _ Hin2) as [? ?].
        destruct (sharedVertex_endpoints _ _ _ _ _ v Esv Hv) as [-> | [-> | [-> | ->]]];
          assumption. }
      assert (Hone : Forall (fun i => exists c, c ∈ connections /\ EditorConnection.id c = i)
                       [hitLine]).
      { constructor; [eauto | constructor]. }
      destruct (truthy centerId) as [c |] eqn:Ec.
      2:{ cbn. split; [split; assumption |].
          split; [exact Hstart | split; [tauto | split; [lia | exact Hone]]]. }
      destruct (truthy p1Id) as [p1 |] eqn:Ep1.
      2:{ cbn. split; [split; assumption |].
          split; [exact Hstart | split; [tauto | split; [lia | exact Hone]]]. }
      destruct (truthy p2Id) as [p2 |] eqn:Ep2.
      2:{ cbn. split; [split; assumption |].
          split; [exact Hstart | split; [tauto | split; [lia | exact Hone]]]. }
      apply truthy_Some in Ec as [-> _]. apply truthy_Some in Ep1 as [-> _].
      apply truthy_Some in Ep2 as [-> _].
      destruct (angleExists angles c p1 p2); cbn.
      * split; [split; assumption |].
        split; [exact Hstart | split; [tauto | split; [lia | constructor]]].
      * split; [split; [assumption |] |].
        -- apply Forall_app. split; [assumption |]. constructor; [| constructor]. cbn.
           split; [apply Hend; auto | split; apply Hend; auto].
        -- split; [exact Hstart | split; [tauto | split; [lia | constructor]]].
  - (* DELETE *)
    rewrite (Hnosel ltac:(discriminate)) in *.
    assert (Hnone : forall (s : string) (ids : list string),
               truthy start = Some s -> DELETE = CONNECT /\ s ∈ ids).
    { intros s ids Hs. rewrite Hpend in Hs by discriminate. discriminate Hs. }
    destruct (truthy hitAngleId) as [hitAngle |].
    { cbn. split; [split; [assumption | apply Forall_filter_keep, Hang] |].
      split; [intros s; apply Hnone | split; [tauto | split; [lia | constructor]]]. }
    destruct (truthy hitPointId) as [hitPoint |].
    { cbn. split;
        [| split; [intros s; apply Hnone | split; [tauto | split; [lia | constructor]]]].
      split.
      - apply Forall_forall. intros c Hc. apply list_elem_of_filter in Hc as [[Hf Ht] Hc].
        rewrite Forall_forall in Hconn. destruct (Hconn c Hc).
        split; apply pointIds_delete; assumption.
      - apply Forall_forall. intros a Ha.
        apply list_elem_of_filter in Ha as [(H1 & H2 & H3) Ha].
        rewrite Forall_forall in Hang. destruct (Hang a Ha) as (? & ? & ?).
        split; [| split]; apply pointIds_delete; assumption. }
    destruct (truthy hitLineId) as [hitLine |]; [| unchanged].
    destruct (findConnection connections hitLine) as [conn |]; [| unchanged].
    cbn. split; [split; [apply Forall_filter_keep, Hconn | apply Forall_filter_keep, Hang] |].
    split; [intros s; apply Hnone | split; [tauto | split; [lia | constructor]]].
Qed.

Lemma step_consistent (s : Session) (e : Event) : Spec.consistent s -> Spec.consistent (step s e).
Proof.
  intros H. destruct s as [tool st].
  destruct e as [showSkeleton layout x y newId | layout x y | | tool']; cbn [step].
  - cbn [Session.state Session.activeTool]. unfold handleStart.
    destruct (negb showSkeleton); [exact H |]. cbv zeta.
    apply handleStartHits_consistent; [| | exact H].
    + intros i Hi. apply hitTestPoint_id in Hi. exact Hi.
    + intros i Hi. apply hitTestConnection_elem in Hi. exact Hi.
  - cbn [Session.state Session.activeTool]. unfold handleMove.
    destruct tool; try exact H.
    destruct (truthy _) as [dragging |]; [| exact H].
    destruct st as [[points connections angles] drag start selected].
    destruct H as [Hc Hs]. unfold Spec.consistent, Spec.settled, Spec.closed, Spec.pointIds in *.
    cbn in *.
    assert (Hids : EditorPoint.id <$>
                     map (fun p => if decide (EditorPoint.id p = dragging)
                                   then EditorPoint.mk (EditorPoint.id p)
                                          ((x - EditorLayout.offsetX layout)
                                           / EditorLayout.renderW layout)
                                          ((y - EditorLayout.offsetY layout)
                                           / EditorLayout.renderH layout)
                                   else p) points
                   = EditorPoint.id <$> points).
    { clear. induction points as [| p points IH]; [reflexivity |].
      cbn. f_equal; [destruct (decide _); reflexivity | exact IH]. }
    rewrite Hids. split; assumption.
  - exact H.
  - cbn [Session.state Session.activeTool].
    destruct (decide (tool' = tool)); [exact H |].
    destruct H as [Hc Hs]. split; [exact Hc |].
    unfold Spec.settled. cbn.
    split; [discriminate | split; [tauto | split; [lia | constructor]]].
Qed.

Lemma findPoint_id (points : list EditorPoint) (i : string) :
  i ∈ EditorPoint.id <$> points -> is_Some (findPoint points i).
Proof.
  intros Hi. apply list_elem_of_fmap in Hi as (p & -> & Hp). unfold findPoint.
  destruct (List.find _ points) as [q |] eqn:E; [eauto |].
  apply list_elem_of_In in Hp. pose proof (find_none _ _ E p Hp) as H. cbn in H.
  apply bool_decide_eq_false_1 in H. contradiction.
Qed.

Lemma run_consistent (s : Session) (events : list Event) :
  Spec.consistent s -> Spec.consistent (run s events).
Proof.
  unfold run. revert s. induction events as [| e events IH]; intros s H; [exact H |].
  cbn [fold_left]. apply IH, step_consistent, H.
Qed.

(** X21.  Whatever the pointer events and tool changes, the layout of every
    pointer move having a size, a graph without dangling reference keeps
    none, and the transient state keeps fitting it: a pending start of a
    connection exists only under CONNECT and is a point of the graph,
    connections are selected only under ANGLE, at most one between two
    events, and each selected id is the id of a connection.  So the points
    of every connection and of every angle are found whenever the graph is
    hit-tested. *)
Theorem run_keeps_consistent (s : Session) (events : list Event) :
  Forall Spec.placed events ->
  Spec.closed s.(Session.state).(EditorState.editorData) -> Spec.settled s ->
  let d' := (run s events).(Session.state).(EditorState.editorData) in
  Spec.closed d' /\ Spec.settled (run s events)
  /\ (forall c, c ∈ d'.(EditorData.connections) ->
        exists p1 p2 : EditorPoint,
          Spec.firstWithId d'.(EditorData.points) c.(EditorConnection.from) p1
          /\ Spec.firstWithId d'.(EditorData.points) c.(EditorConnection.to) p2)
  /\ (forall a, a ∈ d'.(EditorData.angles) ->
        exists p1 pc p2 : EditorPoint,
          Spec.firstWithId d'.(EditorData.points) a.(EditorAngle.p1) p1
          /\ Spec.firstWithId d'.(EditorData.points) a.(EditorAngle.center) pc
          /\ Spec.firstWithId d'.(EditorData.points) a.(EditorAngle.p2) p2).
Proof.
  intros _ Hc Hs d'.
  destruct (run_consistent s events (conj Hc Hs)) as [Hc' Hs'].
  fold d' in Hc'. split; [exact Hc' |]. split; [exact Hs' |].
  destruct Hc' as [Hconn Hang].
  pose proof (proj1 (Forall_forall _ _) Hconn) as Hconn'.
  pose proof (proj1 (Forall_forall _ _) Hang) as Hang'.
  assert (Hfind : forall i, i ∈ Spec.pointIds d' ->
                    exists p, Spec.firstWithId d'.(EditorData.points) i p).
  { intros i Hi. destruct (findPoint_id _ _ Hi) as [p Hp].
    exists p. apply findPoint_first, Hp. }
  split.
  - intros c Hin. destruct (Hconn' c Hin) as [H1 H2].
    destruct (Hfind _ H1) as [p1 G1]. destruct (Hfind _ H2) as [p2 G2].
    exists p1, p2. split; assumption.
  - intros a Hin. destruct (Hang' a Hin) as (H1 & H2 & H3).
    destruct (Hfind _ H1) as [p1 G1]. destruct (Hfind _ H2) as [pc Gc].
    destruct (Hfind _ H3) as [p2 G2].
    exists p1, pc, p2. split; [| split]; assumption.
Qed.

Lemma run_keeps_consistent_witness :
  let layout := EditorLayout.mk 1000 500 0 150 in
  let s := Session.mk MOVE (EditorState.mk (EditorData.mk [] [] []) None None []) in
  let events :=
    [ ToolChange ADD_POINT;
      PointerDown true layout 250 400 "p1"; PointerUp;
      PointerDown true layout 750 400 "p2"; PointerUp;
      ToolChange CONNECT;
      PointerDown true layout 250 400 "c1"; PointerUp;
      PointerDown true layout 750 400 "c2"; PointerUp;
      ToolChange MOVE;
      PointerDown true layout 250 400 "m1"; PointerMove layout 300 350; PointerUp;
      ToolChange DELETE;
      PointerDown true layout 750 400 "d1"; PointerUp ] in
  Spec.closed (run s events).(Session.state).(EditorState.editorData)
  /\ Spec.settled (run s events).
Proof.
  intros layout s events.
  pose proof (run_keeps_consistent s events) as H. cbv zeta in H.
  destruct H as (H1 & H2 & _).
  - repeat (constructor; [first [exact I | split; cbn; lra] |]); constructor.
  - split; constructor.
  - split; [intros start Hstart; discriminate Hstart |].
    split; [intros Hsel; contradiction |]. split; [cbn; lia | constructor].
  - split; [exact H1 | exact H2].
Defined.

(** ** The graph built from the detected skeleton *)








